(** * URLs-LE: the extraction-and-classification engine

    A shallow embedding of the dispatcher ([extraction/extract.ts]), the
    format scanners ([extraction/formats/*.ts]), the classifier
    ([utils/urlValidation.ts]) and the post-processing utilities
    ([extraction/collect.ts]), with the properties the specification states
    about them.

    Conventions.
    - A JavaScript string is a [string]: one [ascii] per UTF-16 code unit,
      for code units below 256.
    - A JavaScript number that counts or indexes is a [nat]; sizes compared
      against the engine's ceilings are taken in [Z].
    - Code that can throw returns an [Exc]; code that mutates the arrays and
      sets it is handed runs in the monad [M] over the [Heap] of one scan.
    - The host platform's [URL] constructor, [String.prototype.localeCompare]
      and the clock are parameters; a reference URL parser is given for the
      worked examples. *)

From stdpp Require Import base option list strings gmap sets sorting.
From Stdlib Require Import Ascii ZArith Lia DecimalString.

Local Open Scope Z_scope.
Set Warnings "-register-all,-clear-no-such-hyp".

(* ================================================================== *)
(** * JavaScript strings *)
(* ================================================================== *)

Module JS.

(** Characters that cannot be written inside a string literal. *)
Definition dquote : ascii := "034"%char.
Definition newline : ascii := "010"%char.
Definition backtick : ascii := "`"%char.

(** [WhiteSpace] and [LineTerminator] of ECMAScript below code unit 256:
    TAB, LF, VT, FF, CR, SP and NBSP.  This is the set [\s] matches and the
    set [trim] strips. *)
Definition isWhiteSpace (c : ascii) : bool :=
  match c with
  | "009" | "010" | "011" | "012" | "013" | " " | "160" => true
  | _ => false
  end%char.

(** [s.length] *)
Definition length (s : string) : nat := String.length s.

(** [s.trimStart()] *)
Fixpoint trimStart (s : string) : string :=
  match s with
  | String c r => if isWhiteSpace c then trimStart r else s
  | EmptyString => EmptyString
  end.

(** [s.trimEnd()] *)
Fixpoint trimEnd (s : string) : string :=
  match s with
  | String c r =>
      match trimEnd r with
      | EmptyString => if isWhiteSpace c then EmptyString else String c EmptyString
      | r' => String c r'
      end
  | EmptyString => EmptyString
  end.

(** [s.trim()] *)
Definition trim (s : string) : string := trimEnd (trimStart s).

(** [c.toLowerCase()] on one code unit: A-Z, and the Latin-1 capitals
    U+00C0-U+00DE except the multiplication sign U+00D7. *)
Definition lowerChar (c : ascii) : ascii :=
  let n := nat_of_ascii c in
  if ((65 <=? n) && (n <=? 90))%nat then ascii_of_nat (n + 32)
  else if ((192 <=? n) && (n <=? 222) && negb (n =? 215))%nat
       then ascii_of_nat (n + 32)
       else c.

(** [s.toLowerCase()] *)
Fixpoint toLowerCase (s : string) : string :=
  match s with
  | String c r => String (lowerChar c) (toLowerCase r)
  | EmptyString => EmptyString
  end.

(** [s.startsWith(p)] *)
Fixpoint startsWith (s p : string) {struct p} : bool :=
  match p, s with
  | EmptyString, _ => true
  | String a p', String b s' => if Ascii.eqb a b then startsWith s' p' else false
  | String _ _, EmptyString => false
  end.

Global Arguments startsWith : simpl never.

(** [s.includes(p)] *)
Fixpoint includes (s p : string) : bool :=
  startsWith s p ||
  match s with
  | String _ s' => includes s' p
  | EmptyString => false
  end.

(** [s.substring(0, n)] *)
Fixpoint substring0 (s : string) (n : nat) : string :=
  match n, s with
  | S n', String c r => String c (substring0 r n')
  | _, _ => EmptyString
  end.

(** [s.substring(n)] *)
Fixpoint substringFrom (s : string) (n : nat) : string :=
  match n, s with
  | S n', String _ r => substringFrom r n'
  | _, _ => s
  end.

(** [s.lastIndexOf(p)]: the greatest index at which [p] occurs, [-1] when
    there is none. *)
Fixpoint lastIndexOf_from (s p : string) (i : Z) (found : Z) : Z :=
  let found' := if startsWith s p then i else found in
  match s with
  | String _ r => lastIndexOf_from r p (i + 1) found'
  | EmptyString => found'
  end.
Definition lastIndexOf (s p : string) : Z := lastIndexOf_from s p 0 (-1).

(** [s.split(c).length - 1]: the number of occurrences of the code unit. *)
Fixpoint countChar (c : ascii) (s : string) : nat :=
  match s with
  | String a r => ((if Ascii.eqb a c then 1 else 0) + countChar c r)%nat
  | EmptyString => 0%nat
  end.

(** [s.split('\n')]: never empty; the empty string splits into one empty
    line. *)
Fixpoint splitLines (s : string) : list string :=
  match s with
  | EmptyString => [EmptyString]
  | String c r =>
      if Ascii.eqb c newline then EmptyString :: splitLines r
      else match splitLines r with
           | l :: ls => String c l :: ls
           | [] => [String c EmptyString]
           end
  end.

(** [lines.join('\n')] *)
Fixpoint joinLines (ls : list string) : string :=
  match ls with
  | [] => EmptyString
  | [l] => l
  | l :: ls' => l +:+ String newline (joinLines ls')
  end.

(** [`${n}`] for a non-negative integer. *)
Definition showNat (n : nat) : string :=
  NilZero.string_of_uint (Nat.to_uint n).
Definition showZ (z : Z) : string :=
  NilZero.string_of_int (Z.to_int z).

(** [c.repeat(n)] for a one-character string [c] and [n >= 1], by
    doubling; [acc] is appended. *)
Fixpoint repeatOnto (c : ascii) (n : positive) (acc : string) : string :=
  match n with
  | xH => String c acc
  | xO m => repeatOnto c m (repeatOnto c m acc)
  | xI m => String c (repeatOnto c m (repeatOnto c m acc))
  end.
Definition repeatChar (c : ascii) (n : positive) : string :=
  repeatOnto c n EmptyString.

(** [x || d] on strings: the empty string is falsy. *)
Definition orElse (x d : string) : string :=
  match x with EmptyString => d | _ => x end.

End JS.


(* ================================================================== *)
(** * Regular expressions *)
(* ================================================================== *)

(** The fragment of ECMAScript regular expressions the scanners use, with
    the backtracking semantics of [RegExp.prototype.exec]: alternatives and
    quantifiers are tried in priority order and the first overall match
    wins.  Quantifiers are applied to character classes only, as in the
    source patterns. *)
Module Regex.

Inductive regex : Type :=
| Eps                             (* the empty pattern *)
| Start                           (* ^ *)
| Chr (c : ascii)                 (* a literal character *)
| Cls (p : ascii -> bool)         (* a character class *)
| Cat (r1 r2 : regex)             (* r1 r2 *)
| Alt (r1 r2 : regex)             (* r1 | r2 *)
| Opt (r : regex)                 (* r? *)
| Star (p : ascii -> bool)        (* [class]* *)
| Plus (p : ascii -> bool)        (* [class]+ *)
| StarLazy (p : ascii -> bool)    (* [class]*? *)
| Group (n : nat) (r : regex).    (* the n-th capturing group *)

(** A literal word. *)
Fixpoint Lit (s : string) : regex :=
  match s with
  | String c EmptyString => Chr c
  | String c r => Cat (Chr c) (Lit r)
  | EmptyString => Eps
  end.

Definition captures := list (nat * string).

(** The result array of [exec]: [index], the text of the whole match
    ([match[0]]), the captured groups, and the [lastIndex] the regular
    expression is left with. *)
Record Match := mkMatch {
  index : nat;
  text : string;
  groups : captures;
  stop : nat
}.

(** [match[n]]: [undefined] when the group took no part in the match. *)
Fixpoint group (n : nat) (cs : captures) : option string :=
  match cs with
  | (m, s) :: cs' => if (n =? m)%nat then Some s else group n cs'
  | [] => None
  end.

(** Case folding of the [i] flag on one code unit (ASCII letters; no
    code unit above 127 folds onto an ASCII one). *)
Definition canonicalize (ignoreCase : bool) (c : ascii) : ascii :=
  if ignoreCase then
    let n := nat_of_ascii c in
    if ((97 <=? n) && (n <=? 122))%nat then ascii_of_nat (n - 32) else c
  else c.

Section Matcher.
Context {A : Type}.
Variable ignoreCase : bool.

Fixpoint starGreedy (p : ascii -> bool) (s : string) (pos : nat)
    (k : string -> nat -> option A) : option A :=
  match s with
  | String c r =>
      if p c then
        match starGreedy p r (S pos) k with
        | Some x => Some x
        | None => k s pos
        end
      else k s pos
  | EmptyString => k s pos
  end.

Fixpoint starLazy (p : ascii -> bool) (s : string) (pos : nat)
    (k : string -> nat -> option A) : option A :=
  match k s pos with
  | Some x => Some x
  | None =>
      match s with
      | String c r => if p c then starLazy p r (S pos) k else None
      | EmptyString => None
      end
  end.

(** [run r s pos caps k]: match [r] against [s], the text from offset
    [pos] on, and hand what is left to the continuation [k]; on failure
    of [k] the next alternative is tried. *)
Fixpoint run (r : regex) (s : string) (pos : nat) (caps : captures)
    (k : string -> nat -> captures -> option A) : option A :=
  match r with
  | Eps => k s pos caps
  | Start => if (pos =? 0)%nat then k s pos caps else None
  | Chr c =>
      match s with
      | String a s' =>
          if Ascii.eqb (canonicalize ignoreCase a) (canonicalize ignoreCase c)
          then k s' (S pos) caps else None
      | EmptyString => None
      end
  | Cls p =>
      match s with
      | String a s' => if p a then k s' (S pos) caps else None
      | EmptyString => None
      end
  | Cat r1 r2 => run r1 s pos caps (fun s1 p1 c1 => run r2 s1 p1 c1 k)
  | Alt r1 r2 =>
      match run r1 s pos caps k with
      | Some x => Some x
      | None => run r2 s pos caps k
      end
  | Opt r1 =>
      match run r1 s pos caps k with
      | Some x => Some x
      | None => k s pos caps
      end
  | Star p => starGreedy p s pos (fun s1 p1 => k s1 p1 caps)
  | Plus p =>
      match s with
      | String a s' =>
          if p a then starGreedy p s' (S pos) (fun s1 p1 => k s1 p1 caps)
          else None
      | EmptyString => None
      end
  | StarLazy p => starLazy p s pos (fun s1 p1 => k s1 p1 caps)
  | Group n r1 =>
      run r1 s pos caps
        (fun s1 p1 c1 => k s1 p1 ((n, JS.substring0 s (p1 - pos)) :: c1))
  end.
End Matcher.

(** A [RegExp] object: its pattern and its [i] flag.  The [g] flag and the
    mutable [lastIndex] are explicit in [exec] and [execLoop]. *)
Record RegExp := mkRegExp {
  source : regex;
  ignoreCase : bool
}.

(** A match that starts exactly at offset [pos]; [s] is the text from
    [pos] on. *)
Definition matchAt (re : RegExp) (s : string) (pos : nat) : option Match :=
  run (ignoreCase re) (source re) s pos []
    (fun _ e caps => Some (mkMatch pos (JS.substring0 s (e - pos)) caps e)).

(** The leftmost match at or after offset [pos]. *)
Fixpoint search (re : RegExp) (s : string) (pos : nat) : option Match :=
  match matchAt re s pos with
  | Some m => Some m
  | None =>
      match s with
      | String _ s' => search re s' (S pos)
      | EmptyString => None
      end
  end.

(** [re.exec(str)] of a global regular expression whose [lastIndex] is
    [lastIndex]: [None] is [null] (and [lastIndex] is reset to 0), a match
    leaves [lastIndex] at its [stop]. *)
Definition exec (re : RegExp) (str : string) (lastIndex : nat) : option Match :=
  if (JS.length str <? lastIndex)%nat then None
  else search re (JS.substringFrom str lastIndex) lastIndex.

(** [re.test(str)] of a regular expression without the [g] flag. *)
Definition test (re : RegExp) (str : string) : bool :=
  bool_decide (is_Some (search re str 0)).

(** [re.lastIndex = 0; while ((match = re.exec(str)) !== null) { ... }]:
    the matches the loop body sees, in order.  [None] when the fuel runs
    out before [exec] returns [null]. *)
Fixpoint execLoop (fuel : nat) (re : RegExp) (str : string) (lastIndex : nat)
    : option (list Match) :=
  match fuel with
  | O => None
  | S fuel' =>
      match exec re str lastIndex with
      | None => Some []
      | Some m => cons m <$> execLoop fuel' re str (stop m)
      end
  end.

(** Enough fuel for every pattern whose matches are never empty
    ([execLoop_enough_fuel] below): each round moves [lastIndex] forward. *)
Definition matchAll (re : RegExp) (str : string) : list Match :=
  default [] (execLoop (2 + JS.length str) re str 0).

(** Whether the pattern can match the empty string. *)
Fixpoint nullable (r : regex) : bool :=
  match r with
  | Eps | Start => true
  | Chr _ | Cls _ | Plus _ => false
  | Cat r1 r2 => nullable r1 && nullable r2
  | Alt r1 r2 => nullable r1 || nullable r2
  | Opt _ | Star _ | StarLazy _ => true
  | Group _ r1 => nullable r1
  end.

End Regex.

(* ================================================================== *)
(** * The data model ([types.ts]) *)
(* ================================================================== *)

Inductive UrlProtocol : Type :=
  http | https | ftp | file | mailto | tel | unknown.

Global Instance UrlProtocol_eq_dec : EqDecision UrlProtocol.
Proof. solve_decision. Defined.

Record Position := mkPosition {
  line : nat;
  column : nat
}.

Global Instance Position_eq_dec : EqDecision Position.
Proof. solve_decision. Defined.

(** [Url]: the optional fields are [None] when the property is absent. *)
Record Url := mkUrl {
  value : string;
  protocol : UrlProtocol;
  type : option string;
  domain : option string;
  path : option string;
  position : option Position;
  context : option string
}.

Global Instance Url_eq_dec : EqDecision Url.
Proof. solve_decision. Defined.

Inductive ErrorCategory : Type :=
  | parsing | validation | file_system | configuration
  | url_validation | analysis | performance | unknown_category.

Inductive ErrorSeverity : Type := info | warning | error | critical.

Inductive RecoveryAction : Type :=
  retry | fallback | user_action | skip | abort | truncate.

Global Instance RecoveryAction_eq_dec : EqDecision RecoveryAction.
Proof. solve_decision. Defined.

Record ParseError := mkParseError {
  category : ErrorCategory;
  severity : ErrorSeverity;
  message : string;
  recoverable : bool;
  recoveryAction : RecoveryAction;
  timestamp : Z
}.

Inductive FileType : Type :=
  | markdown | html | css | javascript | typescript | json
  | yaml | yml | properties | toml | ini | xml | unknown_type.

Record ExtractionResult := mkExtractionResult {
  success : bool;
  urls : list Url;
  errors : list ParseError;
  fileType : option FileType
}.

(* ================================================================== *)
(** * Exceptions and the state of one scan *)
(* ================================================================== *)

(** What a [throw] carries: an [Error] object with its message, or any
    other value. *)
Inductive Thrown : Type :=
  | ErrorObject (msg : string)
  | OtherValue (shown : string).

(** The outcome of code that may throw. *)
Inductive Exc (A : Type) : Type :=
  | Ok (a : A)
  | Throw (e : Thrown).
Global Arguments Ok {A} a.
Global Arguments Throw {A} e.

(** Sequencing and [try]/[catch] of code that only throws or returns. *)
Definition bindE {A B} (x : Exc A) (f : A -> Exc B) : Exc B :=
  match x with
  | Ok a => f a
  | Throw e => Throw e
  end.

Definition tryE {A} (x : Exc A) (handler : Thrown -> Exc A) : Exc A :=
  match x with
  | Ok a => Ok a
  | Throw e => handler e
  end.

(** The mutable variables of one scanner call: the [urls] array the
    scanner pushes onto, the [extractedPositions] set of the scanners that
    keep one, the [inCodeBlock] flag of the Markdown scanner, and what was
    written with [console.warn]. *)
Record Heap := mkHeap {
  h_urls : list Url;
  h_extractedPositions : gset string;
  h_inCodeBlock : bool;
  h_console : list (string * Thrown)
}.

Definition emptyHeap : Heap := mkHeap [] ∅ false [].

(** Statements: a heap transformer that ends normally or by a throw; the
    heap as it was when the exception was raised is kept. *)
Definition M (A : Type) : Type := Heap -> Exc A * Heap.

Definition ret {A} (a : A) : M A := fun h => (Ok a, h).

Definition bind {A B} (m : M A) (f : A -> M B) : M B :=
  fun h =>
    match m h with
    | (Ok a, h') => f a h'
    | (Throw e, h') => (Throw e, h')
    end.

Definition throw {A} (e : Thrown) : M A := fun h => (Throw e, h).

(** [try { m } catch (error) { handler(error) }] *)
Definition try_catch {A} (m : M A) (handler : Thrown -> M A) : M A :=
  fun h =>
    match m h with
    | (Ok a, h') => (Ok a, h')
    | (Throw e, h') => handler e h'
    end.

Definition modify (f : Heap -> Heap) : M unit := fun h => (Ok tt, f h).
Definition gets {A} (f : Heap -> A) : M A := fun h => (Ok (f h), h).

Declare Scope M_scope.
Delimit Scope M_scope with M.
Bind Scope M_scope with M.
Notation "'do' x <- m ; k" := (bind m (fun x => k))
  (at level 10, x name, m at level 100, k at level 200) : M_scope.
Notation "m ;; k" := (bind m (fun _ => k))
  (at level 100, k at level 200, right associativity) : M_scope.
Local Open Scope M_scope.

(** [for (const x of xs) { body(x) }] *)
Fixpoint forOf {A} (xs : list A) (body : A -> M unit) : M unit :=
  match xs with
  | [] => ret tt
  | x :: xs' => body x ;; forOf xs' body
  end.

(** [xs.forEach((x, i) => body(x, i))], the callback's index starting at
    [i]. *)
Fixpoint forEachFrom {A} (i : nat) (xs : list A) (body : A -> nat -> M unit)
    : M unit :=
  match xs with
  | [] => ret tt
  | x :: xs' => body x i ;; forEachFrom (S i) xs' body
  end.
Definition forEach {A} (xs : list A) (body : A -> nat -> M unit) : M unit :=
  forEachFrom 0 xs body.

(** [urls.push(u)] *)
Definition push (u : Url) : M unit :=
  modify (fun h => mkHeap (h_urls h ++ [u]) (h_extractedPositions h)
                          (h_inCodeBlock h) (h_console h)).

(** [console.warn(text, error)] *)
Definition console_warn (text : string) (e : Thrown) : M unit :=
  modify (fun h => mkHeap (h_urls h) (h_extractedPositions h)
                          (h_inCodeBlock h) (h_console h ++ [(text, e)])).

(** The catch clause every scanner ends a line with:
    [console.warn(`[URLs-LE] Regex error on line ${lineIndex + 1}:`, error)] *)
Definition logExtractionError (lineIndex : nat) (e : Thrown) : M unit :=
  console_warn ("[URLs-LE] Regex error on line " +:+ JS.showNat (lineIndex + 1) +:+ ":") e.

(** A scanner call: run the body on fresh variables and return the [urls]
    array; an exception that escapes the body escapes the scanner. *)
Definition scanner (body : M unit) : Exc (list Url) :=
  match body emptyHeap with
  | (Ok _, h) => Ok (h_urls h)
  | (Throw e, _) => Throw e
  end.

(* ================================================================== *)
(** * The shared pattern vocabulary *)
(* ================================================================== *)

(** Every scanner file declares the same five patterns; they are written
    once here.  In the comments that quote a pattern the double quote is
    spelled [\x22]. *)
Module Patterns.
Import Regex.

(** Membership of a code unit in the characters of [cs]. *)
Definition oneOf (cs : string) (c : ascii) : bool :=
  negb (Nat.eqb (JS.countChar c cs) 0).

(** [[^\s<>\x22{}|\\^`[\];)']]: a character a URL continues with. *)
Definition urlChar (c : ascii) : bool :=
  negb (JS.isWhiteSpace c || Ascii.eqb c JS.dquote || oneOf "<>{}|\^`[];)'" c).

(** [/(https?:\/\/[^\s<>\x22{}|\\^`[\];)']+)/g] *)
Definition URL_PATTERN : RegExp :=
  mkRegExp
    (Group 1 (Cat (Lit "http") (Cat (Opt (Chr "s")) (Cat (Lit "://") (Plus urlChar)))))
    false.

(** [/(ftp:\/\/[^\s<>\x22{}|\\^`[\];)']+)/g] *)
Definition FTP_PATTERN : RegExp :=
  mkRegExp (Group 1 (Cat (Lit "ftp://") (Plus urlChar))) false.

(** [/(mailto:[^\s<>\x22{}|\\^`[\];)']+)/g] *)
Definition MAILTO_PATTERN : RegExp :=
  mkRegExp (Group 1 (Cat (Lit "mailto:") (Plus urlChar))) false.

(** [/(tel:[^\s<>\x22{}|\\^`[\];)']+)/g] *)
Definition TEL_PATTERN : RegExp :=
  mkRegExp (Group 1 (Cat (Lit "tel:") (Plus urlChar))) false.

(** [/(file:\/\/[^\s<>\x22{}|\\^`[\];)']+)/g] *)
Definition FILE_PATTERN : RegExp :=
  mkRegExp (Group 1 (Cat (Lit "file://") (Plus urlChar))) false.

End Patterns.

(* ================================================================== *)
(** * The classifier ([utils/urlValidation.ts]) *)
(* ================================================================== *)

(** The fields of a platform [URL] object the engine reads. *)
Record URL := mkURL {
  URL_protocol : string;
  URL_hostname : string;
  URL_pathname : string;
  URL_search : string;
  URL_hash : string
}.

Module UrlValidation.
Section WithPlatform.

(** [new URL(url)] of the host platform: it throws on a string it cannot
  parse. *)
Variable URL_new : string -> Exc URL.

Definition SUPPORTED_PROTOCOLS : list string :=
  ["http:"; "https:"; "ftp:"; "file:"; "mailto:"; "tel:"].
Definition WEB_PROTOCOLS : list string := ["http:"; "https:"; "ftp:"].

(** [try { return new URL(url) } catch { return null }] *)
Definition parseUrl (url : string) : option URL :=
  match URL_new url with
  | Ok u => Some u
  | Throw _ => None
  end.

Definition isSupportedProtocol (protocol : string) : bool :=
  bool_decide (protocol ∈ SUPPORTED_PROTOCOLS).

Definition isValidMailto (pathname : string) : bool :=
  JS.includes pathname "@" && (1 <? JS.length pathname)%nat.
Definition isValidTel (pathname : string) : bool :=
  (1 <? JS.length pathname)%nat.
Definition isValidWebUrl (hostname : string) : bool :=
  (0 <? JS.length hostname)%nat.
Definition isValidFileUrl (pathname : string) : bool :=
  (1 <? JS.length pathname)%nat.

Definition validateByProtocol (parsed : URL) : bool :=
  let p := URL_protocol parsed in
  if String.eqb p "mailto:" then isValidMailto (URL_pathname parsed)
  else if String.eqb p "tel:" then isValidTel (URL_pathname parsed)
  else if String.eqb p "http:" || String.eqb p "https:" || String.eqb p "ftp:"
       then isValidWebUrl (URL_hostname parsed)
  else if String.eqb p "file:" then isValidFileUrl (URL_pathname parsed)
  else false.

Definition isValidUrl (url : string) : bool :=
  match parseUrl url with
  | None => false
  | Some parsed =>
      if negb (isSupportedProtocol (URL_protocol parsed)) then false
      else validateByProtocol parsed
  end.

Definition mapProtocolToType (protocol : string) : UrlProtocol :=
  if String.eqb protocol "http:" then http
  else if String.eqb protocol "https:" then https
  else if String.eqb protocol "ftp:" then ftp
  else if String.eqb protocol "file:" then file
  else if String.eqb protocol "mailto:" then mailto
  else if String.eqb protocol "tel:" then tel
  else unknown.

Definition detectUrlProtocol (url : string) : UrlProtocol :=
  match parseUrl url with
  | None => unknown
  | Some parsed => mapProtocolToType (URL_protocol parsed)
  end.

Definition buildFullPath (parsed : URL) : string :=
  URL_pathname parsed +:+ URL_search parsed +:+ URL_hash parsed.

(** The object [extractUrlComponents] returns. *)
Record UrlComponents := mkUrlComponents {
  c_protocol : UrlProtocol;
  c_domain : string;
  c_path : string
}.

Definition extractUrlComponents (url : string) : option UrlComponents :=
  match parseUrl url with
  | None => None
  | Some parsed =>
      Some (mkUrlComponents (detectUrlProtocol url) (URL_hostname parsed)
                            (buildFullPath parsed))
  end.

End WithPlatform.
End UrlValidation.

(** A reference [URL] parser for the worked examples.  It follows the
    platform's parser on the inputs the examples use: leading and trailing
    spaces and control characters are stripped; a scheme is a letter
    followed by letters, digits, [+], [-] or [.] up to the first colon and
    is lower-cased; query and fragment start at the first [?] and [#].  For
    [http], [https] and [ftp] the slashes after the colon are skipped, the
    host runs to the next slash, must not be empty nor hold a space, and is
    lower-cased, and an empty path reads [/].  For [file] a host is read
    after two slashes and the path is made to start with a slash.  For the
    other schemes the path is what follows the colon.  User names, ports,
    percent-encoding, dot segments and non-ASCII hosts are outside it. *)
Module ReferenceURL.

Definition isAlpha (c : ascii) : bool :=
  let n := nat_of_ascii c in
  ((65 <=? n) && (n <=? 90) || (97 <=? n) && (n <=? 122))%nat.
Definition isDigit (c : ascii) : bool :=
  let n := nat_of_ascii c in ((48 <=? n) && (n <=? 57))%nat.
Definition isSchemeChar (c : ascii) : bool :=
  isAlpha c || isDigit c || Patterns.oneOf "+-." c.
Definition isC0OrSpace (c : ascii) : bool := (nat_of_ascii c <=? 32)%nat.

Fixpoint stripStart (s : string) : string :=
  match s with
  | String c r => if isC0OrSpace c then stripStart r else s
  | EmptyString => EmptyString
  end.
Fixpoint stripEnd (s : string) : string :=
  match s with
  | String c r =>
      match stripEnd r with
      | EmptyString => if isC0OrSpace c then EmptyString else String c EmptyString
      | r' => String c r'
      end
  | EmptyString => EmptyString
  end.

(** The longest prefix of characters satisfying [p], and the rest. *)
Fixpoint span (p : ascii -> bool) (s : string) : string * string :=
  match s with
  | String c r =>
      if p c then let '(a, b) := span p r in (String c a, b) else (EmptyString, s)
  | EmptyString => (EmptyString, EmptyString)
  end.

Definition isSlash (c : ascii) : bool := Patterns.oneOf "/\" c.
Definition notIn (cs : string) (c : ascii) : bool := negb (Patterns.oneOf cs c).

Definition URL_new (input : string) : Exc URL :=
  let invalid := Throw (ErrorObject "Invalid URL") in
  let s := stripEnd (stripStart input) in
  match s with
  | String c _ =>
      if negb (isAlpha c) then invalid else
      let '(scheme, rest) := span isSchemeChar s in
      match rest with
      | String ":" rest1 =>
          let scheme := JS.toLowerCase scheme in
          let protocol := scheme +:+ ":" in
          let special := bool_decide (scheme ∈ ["http"; "https"; "ftp"]) in
          let '(body, hash) := span (notIn "#") rest1 in
          let '(body, search) := span (notIn "?") body in
          if special then
            let '(_, afterSlashes) := span isSlash body in
            let '(host, pathname) := span (notIn "/\") afterSlashes in
            if String.eqb host "" || JS.includes host " " then invalid
            else Ok (mkURL protocol (JS.toLowerCase host)
                           (JS.orElse pathname "/") search hash)
          else if String.eqb scheme "file" then
            if JS.startsWith body "//" then
              let '(host, pathname) := span (notIn "/\") (JS.substringFrom body 2) in
              Ok (mkURL protocol (JS.toLowerCase host) (JS.orElse pathname "/")
                        search hash)
            else
              Ok (mkURL protocol ""
                        (if JS.startsWith body "/" then body else "/" +:+ body)
                        search hash)
          else Ok (mkURL protocol "" body search hash)
      | _ => invalid
      end
  | EmptyString => invalid
  end.

End ReferenceURL.

(* ================================================================== *)
(** * The line-oriented scanners *)
(* ================================================================== *)

(** The frame the line-oriented scanners share:
    [lines.forEach((line, lineIndex) => { try { processLine } catch (error)
    { console.warn(...) } }); return urls]. *)
Definition guardedLine (processLine : string -> nat -> M unit)
    (line : string) (lineIndex : nat) : M unit :=
  try_catch (processLine line lineIndex) (logExtractionError lineIndex).

Definition scanLines (processLine : string -> nat -> M unit)
    (content : string) : Exc (list Url) :=
  scanner (forEach (JS.splitLines content) (guardedLine processLine)).

(** [{ line: lineIndex + 1, column: (match.index ?? 0) + 1 }] *)
Definition positionOf (lineIndex : nat) (m : Regex.Match) : Position :=
  mkPosition (lineIndex + 1) (Regex.index m + 1).

(** The loop the scanners repeat for each pattern:
    [PATTERN.lastIndex = 0;
     while ((match = PATTERN.exec(line)) !== null) { urls.push(make(match)) }] *)
Definition pushEachMatch (pattern : Regex.RegExp) (line : string)
    (make : Regex.Match -> Url) : M unit :=
  forOf (Regex.matchAll pattern line) (fun m => push (make m)).

(** The token most scanners build from a match: the matched text, a
    protocol, the position and the trimmed line. *)
Definition plainUrl (protocol : UrlProtocol) (line : string)
    (lineIndex : nat) (m : Regex.Match) : Url :=
  mkUrl (Regex.text m) protocol None None None
        (Some (positionOf lineIndex m)) (Some (JS.trim line)).

(** [match[0].startsWith('https') ? 'https' : 'http'] *)
Definition httpOrHttps (text : string) : UrlProtocol :=
  if JS.startsWith text "https" then https else http.

(** [...(x && { field: x })]: the field is set when [x] is a non-empty
    string. *)
Definition truthy (x : option string) : option string :=
  match x with
  | Some EmptyString | None => None
  | Some s => Some s
  end.

Module Yaml.
Import Patterns.

Definition processLine (line : string) (lineIndex : nat) : M unit :=
  pushEachMatch URL_PATTERN line (plainUrl https line lineIndex) ;;
  pushEachMatch FTP_PATTERN line (plainUrl ftp line lineIndex) ;;
  pushEachMatch MAILTO_PATTERN line (plainUrl mailto line lineIndex) ;;
  pushEachMatch TEL_PATTERN line (plainUrl tel line lineIndex) ;;
  pushEachMatch FILE_PATTERN line (plainUrl file line lineIndex).

Definition extractFromYaml (content : string) : Exc (list Url) :=
  scanLines processLine content.
End Yaml.

Module Css.
Import Patterns.

Definition processLine (line : string) (lineIndex : nat) : M unit :=
  pushEachMatch URL_PATTERN line (plainUrl https line lineIndex) ;;
  pushEachMatch FTP_PATTERN line (plainUrl ftp line lineIndex) ;;
  pushEachMatch FILE_PATTERN line (plainUrl file line lineIndex).

Definition extractFromCss (content : string) : Exc (list Url) :=
  scanLines processLine content.
End Css.

Module Json.
Import Patterns.

Record PatternConfig := mkPatternConfig {
  pattern : Regex.RegExp;
  config_protocol : UrlProtocol
}.

Definition PATTERNS : list PatternConfig :=
  [ mkPatternConfig URL_PATTERN https;
    mkPatternConfig FTP_PATTERN ftp;
    mkPatternConfig MAILTO_PATTERN mailto;
    mkPatternConfig TEL_PATTERN tel;
    mkPatternConfig FILE_PATTERN file ].

Definition createUrl (text : string) (protocol : UrlProtocol)
    (context : string) (lineIndex columnIndex : nat) : Url :=
  mkUrl text protocol None None None
        (Some (mkPosition (lineIndex + 1) (columnIndex + 1)))
        (Some (JS.trim context)).

Definition extractUrlsByPattern (line : string) (lineIndex : nat)
    (config : PatternConfig) : M unit :=
  pushEachMatch (pattern config) line
    (fun m => createUrl (Regex.text m) (config_protocol config) line
                        lineIndex (Regex.index m)).

Definition extractUrlsFromLine (line : string) (lineIndex : nat) : M unit :=
  try_catch
    (forOf PATTERNS (extractUrlsByPattern line lineIndex))
    (logExtractionError lineIndex).

Definition extractFromJson (content : string) : Exc (list Url) :=
  scanner (forEach (JS.splitLines content) extractUrlsFromLine).
End Json.

Module Properties.
Import Patterns.

Definition processLine (line : string) (lineIndex : nat) : M unit :=
  let trimmedLine := JS.trim line in
  if JS.startsWith trimmedLine "#" || JS.startsWith trimmedLine "!"
     || String.eqb trimmedLine ""
  then ret tt
  else
    pushEachMatch URL_PATTERN line
      (fun m => plainUrl (httpOrHttps (Regex.text m)) line lineIndex m) ;;
    pushEachMatch FTP_PATTERN line (plainUrl ftp line lineIndex) ;;
    pushEachMatch MAILTO_PATTERN line (plainUrl mailto line lineIndex) ;;
    pushEachMatch TEL_PATTERN line (plainUrl tel line lineIndex) ;;
    pushEachMatch FILE_PATTERN line (plainUrl file line lineIndex).

Definition extractFromProperties (content : string) : Exc (list Url) :=
  scanLines processLine content.
End Properties.

Module Xml.
Import Regex Patterns.

Definition quote (c : ascii) : bool := Ascii.eqb c JS.dquote || Ascii.eqb c "'".

Definition attributeNames : regex :=
  Alt (Lit "href") (Alt (Lit "src") (Alt (Lit "url") (Alt (Lit "xlink:href")
  (Alt (Lit "data") (Alt (Lit "xmlns") (Alt (Lit "schemaLocation")
  (Alt (Lit "repository") (Alt (Lit "scm") (Alt (Lit "issueManagement")
  (Alt (Lit "website") (Alt (Lit "link") (Lit "downloadUrl")))))))))))).

(** [/(?:href|src|url|xlink:href|data|xmlns|schemaLocation|repository|scm|
      issueManagement|website|link|downloadUrl)=[\x22']([^\x22']+)[\x22']/gi] *)
Definition URL_ATTRIBUTES : RegExp :=
  mkRegExp
    (Cat attributeNames
      (Cat (Chr "=")
        (Cat (Cls quote)
          (Cat (Group 1 (Plus (fun c => negb (quote c)))) (Cls quote)))))
    true.

Definition isLikelyUrl (v : string) : bool :=
  JS.includes v "://" || JS.startsWith v "www." || JS.includes v ".com"
  || JS.includes v ".org" || JS.includes v ".net".

Definition determineProtocol (url : string) : UrlProtocol :=
  if JS.startsWith url "https://" then https
  else if JS.startsWith url "http://" then http
  else if JS.startsWith url "ftp://" then ftp
  else if JS.startsWith url "mailto:" then mailto
  else if JS.startsWith url "tel:" then tel
  else if JS.startsWith url "file://" then file
  else https.

Definition processLine (line : string) (lineIndex : nat) : M unit :=
  forOf (matchAll URL_ATTRIBUTES line) (fun attrMatch =>
    match truthy (group 1 (groups attrMatch)) with
    | None => ret tt
    | Some urlValue =>
        if isLikelyUrl urlValue then
          push (mkUrl urlValue (determineProtocol urlValue) None None None
                      (Some (positionOf lineIndex attrMatch))
                      (Some (JS.trim line)))
        else ret tt
    end) ;;
  pushEachMatch URL_PATTERN line
    (fun m => plainUrl (httpOrHttps (text m)) line lineIndex m) ;;
  pushEachMatch FTP_PATTERN line (plainUrl ftp line lineIndex) ;;
  pushEachMatch MAILTO_PATTERN line (plainUrl mailto line lineIndex) ;;
  pushEachMatch TEL_PATTERN line (plainUrl tel line lineIndex) ;;
  pushEachMatch FILE_PATTERN line (plainUrl file line lineIndex).

Definition extractFromXml (content : string) : Exc (list Url) :=
  scanLines processLine content.
End Xml.

(** What the structural parsers ([@iarna/toml], [ini]) return: strings,
    arrays, objects with their entries in insertion order, and values of
    other types. *)
Inductive Value : Type :=
  | VString (s : string)
  | VArray (items : list Value)
  | VObject (entries : list (string * Value))
  | VOther.

(** The helpers the TOML and INI scanners both declare. *)
Module StructuredText.
Import Regex Patterns.

(** The token of [extractUrlsFromText]: no position, and
    [context: context || text]. *)
Definition textUrl (protocol : UrlProtocol) (text context : string)
    (m : Match) : Url :=
  mkUrl (Regex.text m) protocol None None None None
        (Some (JS.orElse context text)).

Definition extractUrlsFromText (text context : string) : list Url :=
  ((fun m => textUrl (httpOrHttps (Regex.text m)) text context m)
     <$> matchAll URL_PATTERN text)
  ++ (textUrl ftp text context <$> matchAll FTP_PATTERN text)
  ++ (textUrl mailto text context <$> matchAll MAILTO_PATTERN text)
  ++ (textUrl tel text context <$> matchAll TEL_PATTERN text)
  ++ (textUrl file text context <$> matchAll FILE_PATTERN text).

(** [collectUrls], with [childContext context key] the context handed down
    for the entry [key] of an object. *)
Fixpoint collectUrls (childContext : string -> string -> string)
    (obj : Value) (context : string) : list Url :=
  match obj with
  | VString s => extractUrlsFromText s context
  | VArray items =>
      (fix each (items : list Value) : list Url :=
         match items with
         | [] => []
         | item :: rest => collectUrls childContext item context ++ each rest
         end) items
  | VObject entries =>
      (fix each (entries : list (string * Value)) : list Url :=
         match entries with
         | [] => []
         | (key, v) :: rest =>
             collectUrls childContext v (childContext context key) ++ each rest
         end) entries
  | VOther => []
  end.

(** [try { return collectUrls(parse(content)) }
     catch (error) { console.warn(...); return extractUrlsFromText(content) }] *)
Definition extractStructured (parse : string -> Exc Value)
    (childContext : string -> string -> string) (content : string)
    : Exc (list Url) :=
  tryE
    (bindE (parse content) (fun parsed =>
       Ok (collectUrls childContext parsed "")))
    (fun _ => Ok (extractUrlsFromText content "")).
End StructuredText.

Module Toml.
(** [`${lineContext}${key}: `] *)
Definition childContext (lineContext key : string) : string :=
  lineContext +:+ key +:+ ": ".

(** [parse] is [toml.parse] of the [@iarna/toml] package. *)
Definition extractFromToml (parse : string -> Exc Value) (content : string)
    : Exc (list Url) :=
  StructuredText.extractStructured parse childContext content.
End Toml.

Module Ini.
(** [sectionContext ? `${sectionContext}.${key}` : key] *)
Definition childContext (sectionContext key : string) : string :=
  match sectionContext with
  | EmptyString => key
  | _ => sectionContext +:+ "." +:+ key
  end.

(** [parse] is [ini.parse] of the [ini] package. *)
Definition extractFromIni (parse : string -> Exc Value) (content : string)
    : Exc (list Url) :=
  StructuredText.extractStructured parse childContext content.
End Ini.

(* ================================================================== *)
(** * The scanners that keep a seen-set *)
(* ================================================================== *)

(** [extractedPositions.has(key)] and [extractedPositions.add(key)] *)
Definition seen (key : string) : M bool :=
  gets (fun h => bool_decide (key ∈ h_extractedPositions h)).
Definition markSeen (key : string) : M unit :=
  modify (fun h => mkHeap (h_urls h) ({[ key ]} ∪ h_extractedPositions h)
                          (h_inCodeBlock h) (h_console h)).

(** The body of [addUrlIfNew], shared by the Markdown and HTML scanners and
    written inline in the JavaScript scanner. *)
Definition addIfNew (key : string) (u : Url) : M unit :=
  do known <- seen key;
  if known then ret tt else (markSeen key ;; push u).

Module Markdown.
Section WithPlatform.
Import Regex Patterns.
Variable URL_new : string -> Exc URL.
Let isValidUrl := UrlValidation.isValidUrl URL_new.
Let detectUrlProtocol := UrlValidation.detectUrlProtocol URL_new.
Let extractUrlComponents := UrlValidation.extractUrlComponents URL_new.

(** [/\[([^\]]+)\]\(([^)]+)\)/g] *)
Definition MARKDOWN_LINK_PATTERN : RegExp :=
  mkRegExp
    (Cat (Chr "[")
      (Cat (Group 1 (Plus (fun c => negb (Ascii.eqb c "]"))))
        (Cat (Lit "](")
          (Cat (Group 2 (Plus (fun c => negb (Ascii.eqb c ")"))))
               (Chr ")")))))
    false.

(** [/<([^>]+)>/g] *)
Definition MARKDOWN_AUTOLINK_PATTERN : RegExp :=
  mkRegExp
    (Cat (Chr "<") (Cat (Group 1 (Plus (fun c => negb (Ascii.eqb c ">")))) (Chr ">")))
    false.

Definition CODE_BLOCK_MARKER : string := "```".

Record ExtractionContext := mkExtractionContext {
  ctx_line : string;
  ctx_lineIndex : nat;
  ctx_inCodeBlock : bool
}.

Definition updateCodeBlockState (line : string) (currentState : bool) : bool :=
  if JS.startsWith (JS.trim line) CODE_BLOCK_MARKER
  then negb currentState else currentState.

Definition isInInlineCode (line : string) (index : nat) : bool :=
  let before := JS.substring0 line index in
  let backticks := JS.countChar JS.backtick before in
  (backticks mod 2 =? 1)%nat.

Definition createUrl (url : string) (context : ExtractionContext)
    (columnIndex : nat) : Url :=
  let components := extractUrlComponents url in
  mkUrl url (detectUrlProtocol url) None
        (truthy (UrlValidation.c_domain <$> components))
        (truthy (UrlValidation.c_path <$> components))
        (Some (mkPosition (ctx_lineIndex context + 1) (columnIndex + 1)))
        (Some (JS.trim (ctx_line context))).

Definition addUrlIfNew (url : string) (context : ExtractionContext)
    (matchIndex : nat) : M unit :=
  addIfNew url (createUrl url context matchIndex).

Definition extractMarkdownLinks (context : ExtractionContext) : M unit :=
  forOf (matchAll MARKDOWN_LINK_PATTERN (ctx_line context)) (fun m =>
    match truthy (group 2 (groups m)) with
    | None => ret tt
    | Some url =>
        if negb (isValidUrl url) then ret tt
        else if isInInlineCode (ctx_line context) (index m) then ret tt
        else addUrlIfNew url context (index m)
    end).

Definition extractAutolinks (context : ExtractionContext) : M unit :=
  forOf (matchAll MARKDOWN_AUTOLINK_PATTERN (ctx_line context)) (fun m =>
    match truthy (group 1 (groups m)) with
    | None => ret tt
    | Some url =>
        if negb (isValidUrl url) then ret tt
        else if isInInlineCode (ctx_line context) (index m) then ret tt
        else addUrlIfNew url context (index m)
    end).

(** [isUrlPattern] stands for the test [pattern === URL_PATTERN]. *)
Definition extractByPattern (pattern : RegExp) (isUrlPattern : bool)
    (context : ExtractionContext) : M unit :=
  forOf (matchAll pattern (ctx_line context)) (fun m =>
    match truthy (Some (text m)) with
    | None => ret tt
    | Some url =>
        if isInInlineCode (ctx_line context) (index m) then ret tt
        else if isUrlPattern && negb (isValidUrl url) then ret tt
        else addUrlIfNew url context (index m)
    end).

Definition extractPlainUrls (context : ExtractionContext) : M unit :=
  let patterns :=
    [ (URL_PATTERN, true); (FTP_PATTERN, false); (MAILTO_PATTERN, false);
      (TEL_PATTERN, false); (FILE_PATTERN, false) ] in
  forOf patterns (fun p => extractByPattern p.1 p.2 context).

Definition extractUrlsFromLine (context : ExtractionContext) : M unit :=
  try_catch
    (extractMarkdownLinks context ;;
     extractAutolinks context ;;
     extractPlainUrls context)
    (logExtractionError (ctx_lineIndex context)).

Definition setInCodeBlock (b : bool) : M unit :=
  modify (fun h => mkHeap (h_urls h) (h_extractedPositions h) b (h_console h)).

(** The callback of [lines.forEach]. *)
Definition eachLine (line : string) (lineIndex : nat) : M unit :=
  do current <- gets h_inCodeBlock;
  let inCodeBlock := updateCodeBlockState line current in
  setInCodeBlock inCodeBlock ;;
  if inCodeBlock then ret tt
  else extractUrlsFromLine (mkExtractionContext line lineIndex inCodeBlock).

Definition extractFromMarkdown (content : string) : Exc (list Url) :=
  scanner (forEach (JS.splitLines content) eachLine).

End WithPlatform.
End Markdown.

Module Html.
Section WithPlatform.
Import Regex Patterns.
Variable URL_new : string -> Exc URL.
Let isValidUrl := UrlValidation.isValidUrl URL_new.
Let detectUrlProtocol := UrlValidation.detectUrlProtocol URL_new.
Let extractUrlComponents := UrlValidation.extractUrlComponents URL_new.

Definition quote (c : ascii) : bool := Ascii.eqb c JS.dquote || Ascii.eqb c "'".

(** [/name\s*=\s*[\x22']([^\x22']+)[\x22']/gi] *)
Definition attributePattern (name : string) : RegExp :=
  mkRegExp
    (Cat (Lit name)
      (Cat (Star JS.isWhiteSpace)
        (Cat (Chr "=")
          (Cat (Star JS.isWhiteSpace)
            (Cat (Cls quote)
              (Cat (Group 1 (Plus (fun c => negb (quote c)))) (Cls quote)))))))
    true.

Definition HREF_PATTERN : RegExp := attributePattern "href".
Definition SRC_PATTERN : RegExp := attributePattern "src".
Definition ACTION_PATTERN : RegExp := attributePattern "action".

Record PatternConfig := mkPatternConfig {
  pattern : RegExp;
  requiresValidation : bool
}.

Definition ATTRIBUTE_PATTERNS : list PatternConfig :=
  [ mkPatternConfig HREF_PATTERN true;
    mkPatternConfig SRC_PATTERN true;
    mkPatternConfig ACTION_PATTERN true ].

Definition PLAIN_URL_PATTERNS : list RegExp :=
  [ URL_PATTERN; FTP_PATTERN; MAILTO_PATTERN; TEL_PATTERN; FILE_PATTERN ].

Definition isInComment (line : string) (index : nat) : bool :=
  let before := JS.substring0 line index in
  let commentStart := JS.lastIndexOf before "<!--" in
  let commentEnd := JS.lastIndexOf before "-->" in
  commentEnd <? commentStart.

Definition createUrl (url line : string) (lineIndex columnIndex : nat) : Url :=
  let components := extractUrlComponents url in
  mkUrl url (detectUrlProtocol url) None
        (truthy (UrlValidation.c_domain <$> components))
        (truthy (UrlValidation.c_path <$> components))
        (Some (mkPosition (lineIndex + 1) (columnIndex + 1)))
        (Some (JS.trim line)).

Definition addUrlIfNew (url line : string) (lineIndex columnIndex : nat) : M unit :=
  addIfNew url (createUrl url line lineIndex columnIndex).

Definition extractByAttributePattern (pattern : RegExp)
    (requiresValidation : bool) (line : string) (lineIndex : nat) : M unit :=
  forOf (matchAll pattern line) (fun m =>
    match truthy (group 1 (groups m)) with
    | None => ret tt
    | Some url =>
        if isInComment line (index m) then ret tt
        else if requiresValidation && negb (isValidUrl url) then ret tt
        else addUrlIfNew url line lineIndex (index m)
    end).

Definition extractFromAttributes (line : string) (lineIndex : nat) : M unit :=
  forOf ATTRIBUTE_PATTERNS (fun config =>
    extractByAttributePattern (pattern config) (requiresValidation config)
                              line lineIndex).

Definition extractByPlainPattern (pattern : RegExp) (line : string)
    (lineIndex : nat) : M unit :=
  forOf (matchAll pattern line) (fun m =>
    match truthy (Some (text m)) with
    | None => ret tt
    | Some url =>
        if isInComment line (index m) then ret tt
        else addUrlIfNew url line lineIndex (index m)
    end).

Definition extractPlainUrls (line : string) (lineIndex : nat) : M unit :=
  forOf PLAIN_URL_PATTERNS (fun pattern =>
    extractByPlainPattern pattern line lineIndex).

Definition extractUrlsFromLine (line : string) (lineIndex : nat) : M unit :=
  try_catch
    (extractFromAttributes line lineIndex ;;
     extractPlainUrls line lineIndex)
    (logExtractionError lineIndex).

Definition extractFromHtml (content : string) : Exc (list Url) :=
  scanner (forEach (JS.splitLines content) extractUrlsFromLine).

End WithPlatform.
End Html.

Module JavaScript.
Import Regex Patterns.

Definition stringQuote (c : ascii) : bool :=
  Ascii.eqb c "'" || Ascii.eqb c JS.dquote || Ascii.eqb c JS.backtick.

(** [/['\x22`]([^'\x22`]*?)['\x22`]/g] *)
Definition STRING_URL_PATTERN : RegExp :=
  mkRegExp
    (Cat (Cls stringQuote)
      (Cat (Group 1 (StarLazy (fun c => negb (stringQuote c)))) (Cls stringQuote)))
    false.

(** The scanner's own [isValidUrl]: [/^https?:\/\//.test(value) || ...] *)
Definition isValidUrl (v : string) : bool :=
  test (mkRegExp (Cat Start (Cat (Lit "http") (Cat (Opt (Chr "s")) (Lit "://")))) false) v
  || test (mkRegExp (Cat Start (Lit "ftp://")) false) v
  || test (mkRegExp (Cat Start (Lit "mailto:")) false) v
  || test (mkRegExp (Cat Start (Lit "tel:")) false) v
  || test (mkRegExp (Cat Start (Lit "file://")) false) v.

(** The scanner's own [detectUrlProtocol]. *)
Definition detectUrlProtocol (v : string) : UrlProtocol :=
  if JS.startsWith v "http://" then http
  else if JS.startsWith v "https://" then https
  else if JS.startsWith v "ftp://" then ftp
  else if JS.startsWith v "mailto:" then mailto
  else if JS.startsWith v "tel:" then tel
  else if JS.startsWith v "file://" then file
  else unknown.

(** One of the five plain-text loops. *)
Definition addEachMatch (pattern : RegExp) (line : string)
    (make : Match -> Url) : M unit :=
  forOf (matchAll pattern line) (fun m => addIfNew (text m) (make m)).

Definition processLine (line : string) (lineIndex : nat) : M unit :=
  forOf (matchAll STRING_URL_PATTERN line) (fun m =>
    match truthy (group 1 (groups m)) with
    | None => ret tt
    | Some stringValue =>
        if isValidUrl stringValue then
          addIfNew stringValue
            (mkUrl stringValue (detectUrlProtocol stringValue) None None None
                   (Some (positionOf lineIndex m)) (Some (JS.trim line)))
        else ret tt
    end) ;;
  addEachMatch URL_PATTERN line
    (fun m => plainUrl (httpOrHttps (text m)) line lineIndex m) ;;
  addEachMatch FTP_PATTERN line (plainUrl ftp line lineIndex) ;;
  addEachMatch MAILTO_PATTERN line (plainUrl mailto line lineIndex) ;;
  addEachMatch TEL_PATTERN line (plainUrl tel line lineIndex) ;;
  addEachMatch FILE_PATTERN line (plainUrl file line lineIndex).

Definition extractFromJavaScript (content : string) : Exc (list Url) :=
  scanLines processLine content.
End JavaScript.

(* ================================================================== *)
(** * The dispatcher ([extraction/extract.ts]) *)
(* ================================================================== *)

(** The ten format scanners the dispatcher imports. *)
Class Extractors := mkExtractors {
  extractFromCss : string -> Exc (list Url);
  extractFromHtml : string -> Exc (list Url);
  extractFromIni : string -> Exc (list Url);
  extractFromJavaScript : string -> Exc (list Url);
  extractFromJson : string -> Exc (list Url);
  extractFromMarkdown : string -> Exc (list Url);
  extractFromProperties : string -> Exc (list Url);
  extractFromToml : string -> Exc (list Url);
  extractFromXml : string -> Exc (list Url);
  extractFromYaml : string -> Exc (list Url)
}.

(** [vscode.CancellationToken] *)
Record CancellationToken := mkCancellationToken {
  isCancellationRequested : bool
}.

(** [content.length] as an integer. *)
Definition contentLength (content : string) : Z := Z.of_nat (JS.length content).

Module Extract.
Section WithScanners.
Context {extractors : Extractors}.
(** [Date.now()] *)
Variable now : Z.

Definition MAX_CONTENT_SIZE : Z := 10000000.
Definition MAX_URL_COUNT : Z := 50000.

Definition determineFileType (languageId : string) : FileType :=
  if String.eqb languageId "markdown" then markdown
  else if String.eqb languageId "html" then html
  else if String.eqb languageId "css" then css
  else if String.eqb languageId "javascript" then javascript
  else if String.eqb languageId "typescript" then typescript
  else if String.eqb languageId "json" then json
  else if String.eqb languageId "yaml" || String.eqb languageId "yml" then yaml
  else if String.eqb languageId "properties" then properties
  else if String.eqb languageId "toml" then toml
  else if String.eqb languageId "ini" then ini
  else if String.eqb languageId "xml" then xml
  else unknown_type.

Definition selectExtractor (fileType : FileType) : string -> Exc (list Url) :=
  match fileType with
  | markdown => extractFromMarkdown
  | html => extractFromHtml
  | css => extractFromCss
  | javascript | typescript => extractFromJavaScript
  | json => extractFromJson
  | yaml | yml => extractFromYaml
  | properties => extractFromProperties
  | toml => extractFromToml
  | ini => extractFromIni
  | xml => extractFromXml
  | unknown_type => extractFromMarkdown
  end.

(** [`Content too large (${content.length} characters), maximum size is 10MB`] *)
Definition contentTooLarge (content : string) : string :=
  "Content too large (" +:+ JS.showZ (contentLength content)
    +:+ " characters), maximum size is 10MB".


Definition createEmptyResult (fileType : FileType) : ExtractionResult :=
  mkExtractionResult false [] [] (Some fileType).

Definition createErrorResult (fileType : FileType) (msg : string)
    : ExtractionResult :=
  mkExtractionResult false []
    [mkParseError parsing warning msg true truncate now]
    (Some fileType).

Definition createTruncatedResult (urls : list Url) (fileType : FileType)
    (originalCount : nat) : ExtractionResult :=
  let truncatedUrls := take (Z.to_nat MAX_URL_COUNT) urls in
  mkExtractionResult true truncatedUrls
    [mkParseError parsing warning
       ("URL count (" +:+ JS.showNat originalCount +:+ ") exceeds limit ("
          +:+ JS.showZ MAX_URL_COUNT +:+ "), truncated results")
       true truncate now]
    (Some fileType).

Definition createSuccessResult (urls : list Url) (errors : list ParseError)
    (fileType : FileType) : ExtractionResult :=
  mkExtractionResult (bool_decide (length errors = 0%nat)) urls errors
                     (Some fileType).

Definition createParseError (e : Thrown) : ParseError :=
  mkParseError parsing warning
    (match e with
     | ErrorObject msg => msg
     | OtherValue _ => "Unknown parsing error"
     end)
    true skip now.

(** [try { urls.push(...selectExtractor(fileType)(content)) }
   catch (error) { errors.push(createParseError(error)) }] *)
Definition extractUrlsByFileType (content : string) (fileType : FileType)
    : Exc (list Url * list ParseError) :=
  tryE
    (bindE (selectExtractor fileType content) (fun extractedUrls =>
       Ok ([] ++ extractedUrls, [])))
    (fun error => Ok ([], [] ++ [createParseError error])).

(** [cancellationToken?.isCancellationRequested] *)
Definition cancellationRequested (cancellationToken : option CancellationToken)
    : bool :=
  match cancellationToken with
  | Some t => isCancellationRequested t
  | None => false
  end.

(** The body of the [async] function: [Ok r] is a promise fulfilled with
  [r], [Throw e] a promise rejected with [e]. *)
Definition extractUrls (content languageId : string)
    (cancellationToken : option CancellationToken) : Exc ExtractionResult :=
  if cancellationRequested cancellationToken then
    Ok (createEmptyResult unknown_type)
  else if MAX_CONTENT_SIZE <? contentLength content then
    Ok (createErrorResult unknown_type
          ("Content too large (" +:+ JS.showZ (contentLength content)
             +:+ " characters), maximum size is 10MB"))
  else
    let fileType := determineFileType languageId in
    if cancellationRequested cancellationToken then
      Ok (createEmptyResult fileType)
    else
      bindE (extractUrlsByFileType content fileType) (fun extractionResult =>
        if MAX_URL_COUNT <? Z.of_nat (length extractionResult.1) then
          Ok (createTruncatedResult extractionResult.1 fileType
                (length extractionResult.1))
        else
          Ok (createSuccessResult extractionResult.1 extractionResult.2
                fileType)).

End WithScanners.
End Extract.

(* ================================================================== *)
(** * Post-processing utilities ([extraction/collect.ts]) *)
(* ================================================================== *)

(** [array.sort(compare)]: ECMAScript requires the sort to be stable, and
    for a consistent comparator every stable sort returns the same array;
    insertion from the right is the reference. *)
Section ArraySort.
Context {A : Type}.
Variable compare : A -> A -> Z.

Fixpoint insertSorted (x : A) (l : list A) : list A :=
  match l with
  | [] => [x]
  | y :: l' => if 0 <? compare x y then y :: insertSorted x l' else x :: l
  end.

Fixpoint sortArray (l : list A) : list A :=
  match l with
  | [] => []
  | x :: l' => insertSorted x (sortArray l')
  end.
End ArraySort.

Module Collect.

Definition classifyUrlProtocol (url : string) : UrlProtocol :=
  let trimmed := JS.toLowerCase (JS.trim url) in
  if JS.startsWith trimmed "https://" then https
  else if JS.startsWith trimmed "http://" then http
  else if JS.startsWith trimmed "ftp://" then ftp
  else if JS.startsWith trimmed "file://" then file
  else if JS.startsWith trimmed "mailto:" then mailto
  else if JS.startsWith trimmed "tel:" then tel
  else unknown.





Inductive SortBy : Type := by_value | by_type | by_domain | by_length.

Section WithPlatform.
(** [a.localeCompare(b)] of the host platform. *)
Variable localeCompare : string -> string -> Z.
Variable URL_new : string -> Exc URL.

(** [a.type || 'unknown'] *)
Definition typeOf (u : Url) : string :=
  JS.orElse (default "" (type u)) "unknown".

Definition getDomain (url : Url) : string :=
  if bool_decide (type url = Some "http") || bool_decide (type url = Some "https")
  then match URL_new (value url) with
       | Ok parsed => URL_hostname parsed
       | Throw _ => value url
       end
  else value url.

Definition compareValue (a b : Url) : Z :=
  localeCompare (value a) (value b).

Definition compareType (a b : Url) : Z :=
  let typeCompare := localeCompare (typeOf a) (typeOf b) in
  if negb (typeCompare =? 0) then typeCompare
  else localeCompare (value a) (value b).

Definition compareDomain (a b : Url) : Z :=
  let domainCompare := localeCompare (getDomain a) (getDomain b) in
  if negb (domainCompare =? 0) then domainCompare
  else localeCompare (value a) (value b).

Definition compareLength (a b : Url) : Z :=
  let lengthCompare :=
    Z.of_nat (JS.length (value a)) - Z.of_nat (JS.length (value b)) in
  if negb (lengthCompare =? 0) then lengthCompare
  else localeCompare (value a) (value b).

Definition comparator (sortBy : SortBy) : Url -> Url -> Z :=
  match sortBy with
  | by_value => compareValue
  | by_type => compareType
  | by_domain => compareDomain
  | by_length => compareLength
  end.

Definition sortUrls (urls : list Url) (sortBy : SortBy) : list Url :=
  let sorted := urls in
  sortArray (comparator sortBy) sorted.

End WithPlatform.
End Collect.

(* ================================================================== *)
(** * The engine as it is linked, and the inputs of the worked examples *)
(* ================================================================== *)

Module Engine.
(** The dispatcher's imports, given the platform's [URL] constructor and
    the two third-party structural parsers. *)
Definition extractors (URL_new : string -> Exc URL)
    (parseToml parseIni : string -> Exc Value) : Extractors :=
  {| extractFromCss := Css.extractFromCss;
     extractFromHtml := Html.extractFromHtml URL_new;
     extractFromIni := Ini.extractFromIni parseIni;
     extractFromJavaScript := JavaScript.extractFromJavaScript;
     extractFromJson := Json.extractFromJson;
     extractFromMarkdown := Markdown.extractFromMarkdown URL_new;
     extractFromProperties := Properties.extractFromProperties;
     extractFromToml := Toml.extractFromToml parseToml;
     extractFromXml := Xml.extractFromXml;
     extractFromYaml := Yaml.extractFromYaml |}.
End Engine.

Module Examples.

(** A structural parser on a document it rejects. *)
Definition rejecting : string -> Exc Value :=
  fun _ => Throw (ErrorObject "Unexpected character").

(** The engine over the reference [URL] parser. *)
Definition engine : Extractors :=
  Engine.extractors ReferenceURL.URL_new rejecting rejecting.

(** Ten scanners that all end the same way, whatever the document. *)
Definition constantly (outcome : Exc (list Url)) : Extractors :=
  let f := fun _ : string => outcome in
  mkExtractors f f f f f f f f f f.



(** Comparison by code units, as a stand-in for [localeCompare]. *)
Definition codeUnitCompare (a b : string) : Z :=
  match String.compare a b with
  | Lt => -1
  | Eq => 0
  | Gt => 1
  end.

Definition cancelled : option CancellationToken :=
  Some (mkCancellationToken true).

(** A token with nothing but a value, a type and a context. *)
Definition token (v t c : string) : Url :=
  mkUrl v (Collect.classifyUrlProtocol v) (Some t) None None
        (Some (mkPosition 1 1)) (Some c).

Definition nl : string := String JS.newline EmptyString.

End Examples.

(* ================================================================== *)
(** * Vocabulary of the properties *)
(* ================================================================== *)

(** [steps R m]: running [m] takes a heap to one related to it by [R],
    whether [m] ends normally or by a throw. *)
Definition steps {A} (R : relation Heap) (m : M A) : Prop :=
  forall h, R h (m h).2.

(** [returns m]: [m] never ends by a throw. *)
Definition returns {A} (m : M A) : Prop :=
  forall h, exists a, (m h).1 = Ok a.


(** The invariant of the scanners that keep a seen-set: no value is in
    [urls] twice, and every value in [urls] is in [extractedPositions]. *)
Definition distinct (h : Heap) : Prop :=
  NoDup (value <$> h_urls h) /\
  forall u, u ∈ h_urls h -> value u ∈ h_extractedPositions h.

Definition keeps_distinct : relation Heap :=
  fun h h' => distinct h -> distinct h'.

(** [adds Q]: the run pushed tokens that satisfy [Q], removed none, and
    left the [inCodeBlock] flag alone. *)
Definition adds (Q : Url -> Prop) : relation Heap :=
  fun h h' =>
    h_inCodeBlock h' = h_inCodeBlock h /\
    exists new, h_urls h' = h_urls h ++ new /\ Forall Q new.





(** The values of a scanner's tokens; none when it threw. *)
Definition valuesOf (outcome : Exc (list Url)) : list string :=
  match outcome with
  | Ok urls => value <$> urls
  | Throw _ => []
  end.

(** The parse error of an oversized document, as [createErrorResult]
    builds it. *)
Definition sizeExceededError (now : Z) (content : string) : ParseError :=
  mkParseError parsing warning (Extract.contentTooLarge content) true truncate now.


(** The literal prefixes of the recognized schemes, in the order the
    classifier of [collect.ts] tries them. *)
Definition RECOGNIZED_PREFIXES : list (string * UrlProtocol) :=
  [ ("https://", https); ("http://", http); ("ftp://", ftp);
    ("file://", file); ("mailto:", mailto); ("tel:", tel) ].

(** [s] begins with the prefix [p], letter case aside. *)
Definition beginsWith (s p : string) : bool :=
  JS.startsWith (JS.toLowerCase s) p.

(** [s] begins with one of the recognized prefixes, letter case aside. *)
Definition beginsWithRecognizedPrefix (s : string) : bool :=
  existsb (fun entry => beginsWith s entry.1) RECOGNIZED_PREFIXES.


(** A consistent comparator, as [Array.prototype.sort] asks for and as
    [localeCompare] is specified to be: swapping the arguments swaps the
    sign, and [<= 0] is transitive.  It orders its arguments totally, up
    to the pairs it returns 0 for. *)
Record Consistent {A : Type} (compare : A -> A -> Z) : Prop := mkConsistent {
  consistent_sgn : forall a b, Z.sgn (compare b a) = - Z.sgn (compare a b);
  consistent_trans :
    forall a b c, compare a b <= 0 -> compare b c <= 0 -> compare a c <= 0
}.

(** [a] may stand before [b] in an array sorted with [compare]. *)
Definition precedes {A : Type} (compare : A -> A -> Z) : relation A :=
  fun a b => compare a b <= 0.

(** Shorter values first; values of equal length in [localeCompare]
    order. *)
Definition shorterThenByValue (localeCompare : string -> string -> Z)
    : relation Url :=
  fun a b =>
    (JS.length (value a) < JS.length (value b))%nat \/
    (JS.length (value a) = JS.length (value b) /\
     localeCompare (value a) (value b) <= 0).

(** Every character of [w] satisfies [p]. *)
Fixpoint allChars (p : ascii -> bool) (w : string) : bool :=
  match w with
  | String c r => p c && allChars p r
  | EmptyString => true
  end.

(** [Matches ignoreCase r w]: the word [w] belongs to the language of the
    pattern [r]; the anchor [^] takes no character. *)
Inductive Matches (ic : bool) : Regex.regex -> string -> Prop :=
  | MatchesEps : Matches ic Regex.Eps ""
  | MatchesStart : Matches ic Regex.Start ""
  | MatchesChr c a :
      Regex.canonicalize ic a = Regex.canonicalize ic c ->
      Matches ic (Regex.Chr c) (String a "")
  | MatchesCls (p : ascii -> bool) a :
      p a = true -> Matches ic (Regex.Cls p) (String a "")
  | MatchesCat r1 r2 w1 w2 :
      Matches ic r1 w1 -> Matches ic r2 w2 ->
      Matches ic (Regex.Cat r1 r2) (w1 +:+ w2)
  | MatchesAltL r1 r2 w : Matches ic r1 w -> Matches ic (Regex.Alt r1 r2) w
  | MatchesAltR r1 r2 w : Matches ic r2 w -> Matches ic (Regex.Alt r1 r2) w
  | MatchesOptSome r w : Matches ic r w -> Matches ic (Regex.Opt r) w
  | MatchesOptNone r : Matches ic (Regex.Opt r) ""
  | MatchesStar p w : allChars p w = true -> Matches ic (Regex.Star p) w
  | MatchesPlus p w :
      w <> "" -> allChars p w = true -> Matches ic (Regex.Plus p) w
  | MatchesStarLazy p w :
      allChars p w = true -> Matches ic (Regex.StarLazy p) w
  | MatchesGroup n r w : Matches ic r w -> Matches ic (Regex.Group n r) w.

(** The tokens of a scanner call; none when it threw. *)
Definition tokensOf (outcome : Exc (list Url)) : list Url :=
  match outcome with
  | Ok urls => urls
  | Throw _ => []
  end.

(** [pushes Q]: the run pushed tokens that satisfy [Q] and removed none. *)
Definition pushes (Q : Url -> Prop) : relation Heap :=
  fun h h' => exists new, h_urls h' = h_urls h ++ new /\ Forall Q new.

Definition nonEmpty (u : Url) : Prop := value u <> "".

(** A token whose value begins with a recognized prefix, in lower case as
    listed, carries the scheme of that prefix. *)
Definition labelledByPrefix (u : Url) : Prop :=
  forall entry, entry ∈ RECOGNIZED_PREFIXES ->
    JS.startsWith (value u) entry.1 = true -> protocol u = entry.2.

(** The label a scanner gives the matches of a pattern agrees with the
    recognized prefix the matched word begins with. *)
Definition labels (re : Regex.RegExp) (label : string -> UrlProtocol) : Prop :=
  forall w,
    Matches (Regex.ignoreCase re) (Regex.source re) w ->
    forall entry, entry ∈ RECOGNIZED_PREFIXES ->
      JS.startsWith w entry.1 = true -> label w = entry.2.

(** What holds of the tokens of the prefix-labelling scanners, and of the
    tokens of the scanners that ask the platform parser. *)
Definition wellLabelled (u : Url) : Prop := nonEmpty u /\ labelledByPrefix u.
Definition parserLabelled (URL_new : string -> Exc URL) (u : Url) : Prop :=
  nonEmpty u /\ protocol u = UrlValidation.detectUrlProtocol URL_new (value u).


(* ================================================================== *)
(** * Collecting from parsed data ([extraction/collect.ts], continued) *)
(* ================================================================== *)

Module CollectValues.
Import Regex.

Definition digit (c : ascii) : bool :=
  let n := nat_of_ascii c in ((48 <=? n) && (n <=? 57))%nat.
Definition alpha (c : ascii) : bool :=
  let n := nat_of_ascii c in
  ((65 <=? n) && (n <=? 90) || (97 <=? n) && (n <=? 122))%nat.
(** [[a-zA-Z0-9]] and [[a-zA-Z0-9-]] *)
Definition alnum (c : ascii) : bool := alpha c || digit c.
Definition alnumOrDash (c : ascii) : bool := alnum c || Ascii.eqb c "-".

(** A pattern that begins with [^]. *)
Definition anchored (r : regex) (ignoreCase : bool) : RegExp :=
  mkRegExp (Cat Start r) ignoreCase.

(** [/^[a-zA-Z0-9][a-zA-Z0-9-]*[a-zA-Z0-9]*\.[a-zA-Z]{2,}/] *)
Definition DOMAIN_PATTERN : RegExp :=
  anchored
    (Cat (Cls alnum)
      (Cat (Star alnumOrDash)
        (Cat (Star alnum)
          (Cat (Chr ".") (Cat (Cls alpha) (Plus alpha))))))
    false.

(** The [urlPatterns] array of [isUrlLike]:
    [/^https?:\/\//i, /^ftp:\/\//i, /^ftps:\/\//i, /^file:\/\//i,
     /^mailto:/i, /^tel:/i, /^data:/i, /^\/[^/]/, /^\.\.?\//] and the
    domain pattern. *)
Definition urlPatterns : list RegExp :=
  [ anchored (Cat (Lit "http") (Cat (Opt (Chr "s")) (Lit "://"))) true;
    anchored (Lit "ftp://") true;
    anchored (Lit "ftps://") true;
    anchored (Lit "file://") true;
    anchored (Lit "mailto:") true;
    anchored (Lit "tel:") true;
    anchored (Lit "data:") true;
    anchored (Cat (Chr "/") (Cls (fun c => negb (Ascii.eqb c "/")))) false;
    anchored (Cat (Chr ".") (Cat (Opt (Chr ".")) (Chr "/"))) false;
    DOMAIN_PATTERN ].

Definition isUrlLike (str : string) : bool :=
  if (JS.length str =? 0)%nat then false
  else
    let trimmed := JS.trim str in
    if (JS.length trimmed =? 0)%nat then false
    else existsb (fun pattern => test pattern trimmed) urlPatterns.

Definition classifyUrlType (url : string) : string :=
  let trimmed := JS.toLowerCase (JS.trim url) in
  if JS.startsWith trimmed "https://" then "https"
  else if JS.startsWith trimmed "http://" then "http"
  else if JS.startsWith trimmed "ftp://" then "ftp"
  else if JS.startsWith trimmed "ftps://" then "ftps"
  else if JS.startsWith trimmed "file://" then "file"
  else if JS.startsWith trimmed "mailto:" then "mailto"
  else if JS.startsWith trimmed "tel:" then "tel"
  else if JS.startsWith trimmed "data:" then "data"
  else if JS.startsWith trimmed "/" then "absolute-path"
  else if JS.startsWith trimmed "./" || JS.startsWith trimmed "../"
       then "relative-path"
  else if test DOMAIN_PATTERN trimmed then "domain"
  else "unknown".

(** [`${context}[${i}]`] and [`${context}.${key}`] *)
Definition indexContext (context : string) (i : nat) : string :=
  context +:+ "[" +:+ JS.showNat i +:+ "]".
Definition keyContext (context key : string) : string :=
  context +:+ "." +:+ key.

(** [collectUrls(obj, context)].  [null] and [undefined] are [VOther]
    values: the source skips them, and a call on them would return
    nothing. *)
Fixpoint collectUrls (obj : Value) (context : string) : list Url :=
  match obj with
  | VString s =>
      if isUrlLike s then
        [ mkUrl s (Collect.classifyUrlProtocol s) (Some (classifyUrlType s))
                None None (Some (mkPosition 1 1)) (Some context) ]
      else []
  | VArray items =>
      (fix each (i : nat) (items : list Value) : list Url :=
         match items with
         | [] => []
         | item :: rest =>
             collectUrls item (indexContext context i) ++ each (S i) rest
         end) 0%nat items
  | VObject entries =>
      (fix each (entries : list (string * Value)) : list Url :=
         match entries with
         | [] => []
         | (key, v) :: rest =>
             collectUrls v (keyContext context key) ++ each rest
         end) entries
  | VOther => []
  end.

(** The loop of [collectUrlsFromArray] from index [i] on. *)
Fixpoint collectUrlsFromArrayAt (i : nat) (items : list string)
    (context : string) : list Url :=
  match items with
  | [] => []
  | item :: rest =>
      (if isUrlLike item then
         [ mkUrl (JS.trim item) (Collect.classifyUrlProtocol item)
                 (Some (classifyUrlType item)) None None
                 (Some (mkPosition (i + 1) 1))
                 (Some (indexContext context i)) ]
       else [])
      ++ collectUrlsFromArrayAt (S i) rest context
  end.

Definition collectUrlsFromArray (items : list string) (context : string)
    : list Url :=
  collectUrlsFromArrayAt 0 items context.

(** [value.filter((item) => typeof item === 'string')] *)
Definition stringItems (items : list Value) : list string :=
  omap (fun item => match item with VString s => Some s | _ => None end) items.

(** [obj] is given by [Object.entries(obj)]. *)
Fixpoint collectUrlsFromKeyValue (obj : list (string * Value))
    (context : string) : list Url :=
  match obj with
  | [] => []
  | (key, v) :: rest =>
      match v with
      | VString s =>
          if isUrlLike s then
            [ mkUrl (JS.trim s) (Collect.classifyUrlProtocol s)
                    (Some (classifyUrlType s)) None None
                    (Some (mkPosition 1 1))
                    (Some (keyContext context key)) ]
          else []
      | VArray items =>
          collectUrlsFromArray (stringItems items) (keyContext context key)
      | VObject _ => collectUrls v (keyContext context key)
      | VOther => []
      end
      ++ collectUrlsFromKeyValue rest context
  end.

End CollectValues.

Module CollectGroups.

(** [url.type && types.includes(url.type)] *)
Definition hasTypeIn (types : list string) (url : Url) : bool :=
  match type url with
  | Some t => negb (String.eqb t "") && bool_decide (t ∈ types)
  | None => false
  end.

Definition filterUrlsByType (urls : list Url) (types : list string)
    : list Url :=
  List.filter (hasTypeIn types) urls.

(** A record of arrays that began as the literal [{}] is the map
    [gmap string (list Url)] of its own properties.  The order in which
    its keys are enumerated is not modelled. *)

(** The property names every object literal inherits from
    [Object.prototype]; reading one of them on [{}] gives a function (or,
    for [__proto__], the prototype object), which is truthy and has no
    [push]. *)
Definition OBJECT_PROTOTYPE_KEYS : list string :=
  [ "constructor"; "__defineGetter__"; "__defineSetter__"; "hasOwnProperty";
    "__lookupGetter__"; "__lookupSetter__"; "isPrototypeOf";
    "propertyIsEnumerable"; "toString"; "valueOf"; "__proto__";
    "toLocaleString" ].

(** [if (!groups[key]) { groups[key] = [] } groups[key].push(url)] *)
Definition pushToGroup (groups : gmap string (list Url)) (key : string)
    (url : Url) : Exc (gmap string (list Url)) :=
  match groups !! key with
  | Some group => Ok (<[key := group ++ [url]]> groups)
  | None =>
      if bool_decide (key ∈ OBJECT_PROTOTYPE_KEYS)
      then Throw (ErrorObject "groups[type].push is not a function")
      else Ok (<[key := [url]]> groups)
  end.

(** The loop of [groupUrlsByType] over what is left of [urls]. *)
Fixpoint groupByTypeLoop (urls : list Url) (groups : gmap string (list Url))
    : Exc (gmap string (list Url)) :=
  match urls with
  | [] => Ok groups
  | url :: rest =>
      bindE (pushToGroup groups (Collect.typeOf url) url) (groupByTypeLoop rest)
  end.

Definition groupUrlsByType (urls : list Url) : Exc (gmap string (list Url)) :=
  groupByTypeLoop urls ∅.

Section WithPlatform.
Variable URL_new : string -> Exc URL.

(** One round of the loop of [groupUrlsByDomain]. *)
Definition groupByDomainStep (groups : gmap string (list Url)) (url : Url)
    : Exc (gmap string (list Url)) :=
  if bool_decide (type url = Some "http") || bool_decide (type url = Some "https")
  then
    tryE
      (bindE (URL_new (value url)) (fun urlObj =>
         pushToGroup groups (URL_hostname urlObj) url))
      (fun _ => pushToGroup groups "invalid" url)
  else pushToGroup groups (Collect.typeOf url) url.

Fixpoint groupByDomainLoop (urls : list Url)
    (groups : gmap string (list Url)) : Exc (gmap string (list Url)) :=
  match urls with
  | [] => Ok groups
  | url :: rest => bindE (groupByDomainStep groups url) (groupByDomainLoop rest)
  end.

Definition groupUrlsByDomain (urls : list Url) : Exc (gmap string (list Url)) :=
  groupByDomainLoop urls ∅.

End WithPlatform.
End CollectGroups.

(* ================================================================== *)
(** * Screening and validation ([utils/urlValidation.ts], continued) *)
(* ================================================================== *)

Inductive ValidationStatus : Type :=
  status_valid | status_invalid | status_timeout | status_error.

Global Instance ValidationStatus_eq_dec : EqDecision ValidationStatus.
Proof. solve_decision. Defined.

Record ValidationResult := mkValidationResult {
  vr_url : string;
  vr_status : ValidationStatus;
  vr_statusCode : option Z;
  vr_redirects : option (list string);
  vr_error : option string
}.

Module UrlScreening.
Import Regex.

(** A pattern that is one literal word, with the [i] flag. *)
Definition word (w : string) : RegExp := mkRegExp (Lit w) true.

(** [.]: any character but a line terminator. *)
Definition notLineTerminator (c : ascii) : bool :=
  negb (Ascii.eqb c "010" || Ascii.eqb c "013").

(** [/first.*second/i] *)
Definition wordsApart (first second : string) : RegExp :=
  mkRegExp (Cat (Lit first) (Cat (Star notLineTerminator) (Lit second))) true.

Definition SUSPICIOUS_URL_WORDS : list string :=
  [ "bit.ly"; "tinyurl"; "short.link"; "t.co"; "goo.gl"; "ow.ly"; "is.gd";
    "v.gd"; "cli.gs"; "tr.im"; "adf.ly"; "sh.st"; "bc.vc"; "u.to"; "j.mp";
    "bit.do"; "rebrand.ly"; "short.ly"; "link.to"; "url.short" ].

(** [/bit\.ly/i, /tinyurl/i, ...] *)
Definition SUSPICIOUS_URL_PATTERNS : list RegExp :=
  word <$> SUSPICIOUS_URL_WORDS.

(** [/expired/i, /domain.*expired/i, /parked/i, /for.*sale/i,
     /buy.*domain/i] *)
Definition EXPIRED_DOMAIN_PATTERNS : list RegExp :=
  [ word "expired"; wordsApart "domain" "expired"; word "parked";
    wordsApart "for" "sale"; wordsApart "buy" "domain" ].

Definition INACCESSIBLE_URL_WORDS : list string :=
  [ "javascript:"; "data:"; "blob:"; "about:"; "chrome:"; "edge:";
    "moz-extension:"; "chrome-extension:" ].

(** [/javascript:/i, /data:/i, ...] *)
Definition INACCESSIBLE_URL_PATTERNS : list RegExp :=
  word <$> INACCESSIBLE_URL_WORDS.

Definition matchesAnyPattern (text : string) (patterns : list RegExp) : bool :=
  existsb (fun pattern => test pattern text) patterns.

Definition isSuspiciousUrl (url : string) : bool :=
  matchesAnyPattern url SUSPICIOUS_URL_PATTERNS.

Definition isExpiredDomain (domain : string) : bool :=
  matchesAnyPattern domain EXPIRED_DOMAIN_PATTERNS.

Definition isAccessibleUrl (url : string) : bool :=
  negb (matchesAnyPattern url INACCESSIBLE_URL_PATTERNS).

Section WithPlatform.
Variable URL_new : string -> Exc URL.
(** [localize(key, defaultMessage)] of [vscode-nls]. *)
Variable localize : string -> string -> string.

Definition isSecureUrl (url : string) : bool :=
  match UrlValidation.parseUrl URL_new url with
  | None => false
  | Some parsed => String.eqb (URL_protocol parsed) "https:"
  end.

Definition isWebProtocol (protocol : string) : bool :=
  bool_decide (protocol ∈ UrlValidation.WEB_PROTOCOLS).

(** [null] is [None]. *)
Definition getDomainFromUrl (url : string) : option string :=
  match UrlValidation.parseUrl URL_new url with
  | None => None
  | Some parsed =>
      if negb (isWebProtocol (URL_protocol parsed)) then None
      else truthy (Some (URL_hostname parsed))
  end.

Definition createInvalidResult (url error : string) : ValidationResult :=
  mkValidationResult url status_invalid None None (Some error).
Definition createErrorResult (url error : string) : ValidationResult :=
  mkValidationResult url status_error None None (Some error).
Definition createValidResult (url : string) : ValidationResult :=
  mkValidationResult url status_valid (Some 200) None None.

(** The body of the [async] function [validateUrl(url, _config)]. *)
Definition validateUrl (url : string) : Exc ValidationResult :=
  if negb (UrlValidation.isValidUrl URL_new url) then
    Ok (createInvalidResult url
          (localize "runtime.validation.invalid-format" "Invalid URL format"))
  else if isSuspiciousUrl url then
    Ok (createErrorResult url
          (localize "runtime.validation.suspicious-url" "Suspicious URL detected"))
  else Ok (createValidResult url).

(** [validateUrls(urls, _config)] of [utils/validation.ts]: the loop over
    what is left of [urls], with the [results] array built so far. *)
Fixpoint validateUrlsLoop (urls : list string) (results : list ValidationResult)
    : Exc (list ValidationResult) :=
  match urls with
  | [] => Ok results
  | url :: rest =>
      bindE
        (tryE
           (bindE (validateUrl url) (fun result => Ok (results ++ [result])))
           (fun error =>
              Ok (results ++
                    [ mkValidationResult url status_error None None
                        (Some match error with
                              | ErrorObject msg => msg
                              | OtherValue _ => "Unknown error"
                              end) ])))
        (validateUrlsLoop rest)
  end.

Definition validateUrls (urls : list string) : Exc (list ValidationResult) :=
  validateUrlsLoop urls [].

End WithPlatform.
End UrlScreening.

(** [calculateValidationStats] of [utils/validation.ts]. *)
Module ValidationStats.

Record Stats := mkStats {
  total : nat;
  valid : nat;
  invalid : nat;
  errors : nat;
  timeouts : nat;
  duration : Z
}.

(** The callback of [results.reduce]. *)
Definition count (acc : Stats) (result : ValidationResult) : Stats :=
  let acc := mkStats (S (total acc)) (valid acc) (invalid acc) (errors acc)
                     (timeouts acc) (duration acc) in
  match vr_status result with
  | status_valid =>
      mkStats (total acc) (S (valid acc)) (invalid acc) (errors acc)
              (timeouts acc) (duration acc)
  | status_invalid =>
      mkStats (total acc) (valid acc) (S (invalid acc)) (errors acc)
              (timeouts acc) (duration acc)
  | status_error =>
      mkStats (total acc) (valid acc) (invalid acc) (S (errors acc))
              (timeouts acc) (duration acc)
  | status_timeout =>
      mkStats (total acc) (valid acc) (invalid acc) (errors acc)
              (S (timeouts acc)) (duration acc)
  end.

(** [now] is [Date.now()] at the time of the call. *)
Definition calculateValidationStats (now : Z)
    (results : list ValidationResult) (startTime : Z) : Stats :=
  let stats := foldl count (mkStats 0 0 0 0 0 0) results in
  mkStats (total stats) (valid stats) (invalid stats) (errors stats)
          (timeouts stats) (now - startTime).

End ValidationStats.

(* ================================================================== *)
(** * Analysis ([utils/analysis.ts]) *)
(* ================================================================== *)

Inductive IssueSeverity : Type := issue_warning | issue_error.

Record Issue := mkIssue {
  issue_url : string;
  issue_text : string;
  issue_severity : IssueSeverity
}.

Record SecurityAnalysis := mkSecurityAnalysis {
  secure : nat;
  insecure : nat;
  suspicious : nat;
  security_issues : list Issue
}.

Record AccessibilityAnalysis := mkAccessibilityAnalysis {
  accessible : nat;
  inaccessible : Z;
  accessibility_issues : list Issue
}.

Module Analysis.
Section WithPlatform.
Variable URL_new : string -> Exc URL.
Variable localize : string -> string -> string.
(** The result type and the function [analyzeDomains], which are not
    embedded. *)
Variable DomainAnalysis : Type.
Variable analyzeDomains : list string -> DomainAnalysis.

(** [urls.filter(p).length] *)
Definition countWhere (p : string -> bool) (urls : list string) : nat :=
  length (List.filter p urls).

(** The callback of the [forEach] of [analyzeSecurity]; its [try] block
    calls nothing that throws. *)
Definition securityIssuesOf (url : string) : list Issue :=
  if UrlScreening.isSuspiciousUrl url then
    [ mkIssue url
        (localize "runtime.analysis.suspicious-url" "Suspicious URL detected")
        issue_warning ]
  else if JS.startsWith url "http://" then
    [ mkIssue url
        (localize "runtime.analysis.insecure-http" "Insecure HTTP protocol")
        issue_warning ]
  else [].

Definition analyzeSecurity (urls : list string) : SecurityAnalysis :=
  mkSecurityAnalysis
    (countWhere (UrlScreening.isSecureUrl URL_new) urls)
    (countWhere (fun url => JS.startsWith url "http://") urls)
    (countWhere UrlScreening.isSuspiciousUrl urls)
    (concat (securityIssuesOf <$> urls)).

Definition accessibilityIssuesOf (url : string) : list Issue :=
  if negb (UrlScreening.isAccessibleUrl url) then
    [ mkIssue url
        (localize "runtime.analysis.url-not-accessible" "URL may not be accessible")
        issue_warning ]
  else [].

Definition analyzeAccessibility (urls : list string) : AccessibilityAnalysis :=
  let accessible := countWhere UrlScreening.isAccessibleUrl urls in
  mkAccessibilityAnalysis accessible
    (Z.of_nat (length urls) - Z.of_nat accessible)
    (concat (accessibilityIssuesOf <$> urls)).

(** [Record<UrlProtocol, number>], with [protocols[protocol]++]. *)
Definition ProtocolCounts : Type := UrlProtocol -> nat.
Definition noProtocols : ProtocolCounts := fun _ => 0%nat.
Definition increment (protocols : ProtocolCounts) (protocol : UrlProtocol)
    : ProtocolCounts :=
  fun p => if decide (p = protocol) then S (protocols p) else protocols p.

Record AnalysisResult := mkAnalysisResult {
  count : nat;
  protocols : ProtocolCounts;
  unique : nat;
  duplicates : Z;
  security : SecurityAnalysis;
  accessibility : AccessibilityAnalysis;
  domains : DomainAnalysis
}.

Definition analyzeUrls (lines : list string) : AnalysisResult :=
  let urls :=
    List.filter (fun line => (0 <? JS.length (JS.trim line))%nat) lines in
  let uniqueUrls : gset string := list_to_set urls in
  let protocols :=
    foldl (fun protocols url =>
             increment protocols (UrlValidation.detectUrlProtocol URL_new url))
          noProtocols urls in
  mkAnalysisResult
    (length urls)
    protocols
    (size uniqueUrls)
    (Z.of_nat (length urls) - Z.of_nat (size uniqueUrls))
    (analyzeSecurity urls)
    (analyzeAccessibility urls)
    (analyzeDomains urls).

End WithPlatform.
End Analysis.

(* ================================================================== *)
(** * The post-processing commands ([commands/dedupe.ts],
      [commands/sort.ts]) *)
(* ================================================================== *)

Module DedupeCommand.

(** [document.getText().split('\n').map((line) => line.trim())] *)
Definition extractLines (text : string) : list string :=
  JS.trim <$> JS.splitLines text.





End DedupeCommand.

Module SortCommand.

Inductive SortOrder : Type :=
  asc | desc | domain_order | length_asc | length_desc.

Inductive Direction : Type := ascending | descending.

Section WithPlatform.
Variable localeCompare : string -> string -> Z.
Variable URL_new : string -> Exc URL.

(** [.split('\n').map((line) => line.trim()).filter((line) => line.length > 0)] *)
Definition extractNonEmptyLines (text : string) : list string :=
  List.filter (fun line => (0 <? JS.length line)%nat)
              (JS.trim <$> JS.splitLines text).

Definition extractDomain (url : string) : string :=
  match URL_new url with
  | Ok parsed => URL_hostname parsed
  | Throw _ => url
  end.

Definition compareDomains (a b : string) : Z :=
  localeCompare (extractDomain a) (extractDomain b).

Definition compareLengths (order : Direction) (a b : string) : Z :=
  match order with
  | ascending => Z.of_nat (JS.length a) - Z.of_nat (JS.length b)
  | descending => Z.of_nat (JS.length b) - Z.of_nat (JS.length a)
  end.

Definition compareAlphabetically (order : Direction) (a b : string) : Z :=
  match order with
  | ascending => localeCompare a b
  | descending => localeCompare b a
  end.

Definition sortByDomain (lines : list string) : list string :=
  sortArray compareDomains lines.
Definition sortByLength (lines : list string) (order : Direction) : list string :=
  sortArray (compareLengths order) lines.
Definition sortAlphabetically (lines : list string) (order : Direction)
    : list string :=
  sortArray (compareAlphabetically order) lines.

Definition sortLines (lines : list string) (order : SortOrder) : list string :=
  match order with
  | domain_order => sortByDomain lines
  | length_asc => sortByLength lines ascending
  | length_desc => sortByLength lines descending
  | asc => sortAlphabetically lines ascending
  | desc => sortAlphabetically lines descending
  end.

(** The comparator [sortLines] sorts with. *)
Definition lineComparator (order : SortOrder) : string -> string -> Z :=
  match order with
  | domain_order => compareDomains
  | length_asc => compareLengths ascending
  | length_desc => compareLengths descending
  | asc => compareAlphabetically ascending
  | desc => compareAlphabetically descending
  end.

(** The text [performSort] writes back over the whole document. *)
Definition sortedText (text : string) (order : SortOrder) : string :=
  JS.joinLines (sortLines (extractNonEmptyLines text) order).

End WithPlatform.
End SortCommand.

(* ================================================================== *)
(** * The extract command ([commands/extract.ts], [utils/safety.ts]) *)
(* ================================================================== *)

Record Configuration := mkConfiguration {
  copyToClipboardEnabled : bool;
  dedupeEnabled : bool;
  notificationsLevel : string;
  postProcessOpenInNewFile : bool;
  openResultsSideBySide : bool;
  safetyEnabled : bool;
  safetyFileSizeWarnBytes : Z;
  safetyLargeOutputLinesThreshold : Z;
  safetyManyDocumentsThreshold : Z;
  showParseErrors : bool;
  statusBarEnabled : bool;
  telemetryEnabled : bool
}.

Module Safety.

Record SafetyResult := mkSafetyResult {
  proceed : bool;
  safety_message : string
}.

Definition createSafeResult : SafetyResult := mkSafetyResult true "".

Definition createUnsafeResult (actualSize threshold : Z) : SafetyResult :=
  mkSafetyResult false
    ("File size (" +:+ JS.showZ actualSize
       +:+ " bytes) exceeds safety threshold (" +:+ JS.showZ threshold
       +:+ " bytes)").

(** [text] is [document.getText()]. *)
Definition getContentSize (text : string) : Z := contentLength text.

Definition handleSafetyChecks (text : string) (config : Configuration)
    : SafetyResult :=
  if negb (safetyEnabled config) then createSafeResult
  else
    let contentSize := getContentSize text in
    let exceedsLimit := safetyFileSizeWarnBytes config <? contentSize in
    if exceedsLimit
    then createUnsafeResult contentSize (safetyFileSizeWarnBytes config)
    else createSafeResult.

End Safety.

Module ExtractCommand.

(** [result.urls.filter((url) => url?.value && typeof url.value ===
    'string').map((url) => url.value)] *)
Definition formatUrls (result : ExtractionResult) : list string :=
  value <$> List.filter (fun url => negb (String.eqb (value url) "")) (urls result).


End ExtractCommand.

(* ================================================================== *)
(** * Vocabulary of the further properties *)
(* ================================================================== *)

(** The first character, if any, is not white space. *)
Definition headKept (s : string) : Prop :=
  match s with
  | String c _ => JS.isWhiteSpace c = false
  | EmptyString => True
  end.

Definition notNewline (c : ascii) : bool := negb (Ascii.eqb c JS.newline).

(** The line number a token carries; 0 when it carries no position. *)
Definition lineOf (u : Url) : nat :=
  match position u with
  | Some p => line p
  | None => 0%nat
  end.

(** The token carries a position on the line [l], of index [i] (counted
    from 0), at a column inside the line, and the trimmed line as its
    context. *)
Definition locatedOn (l : string) (i : nat) (u : Url) : Prop :=
  exists col,
    position u = Some (mkPosition (i + 1) (col + 1)) /\
    (col < JS.length l)%nat /\
    context u = Some (JS.trim l).

(** The token's position points at its value: the text of the line [l]
    from the token's column on begins with the value. *)
Definition standsAt (l : string) (i : nat) (u : Url) : Prop :=
  exists col,
    position u = Some (mkPosition (i + 1) (col + 1)) /\
    JS.substring0 (JS.substringFrom l col) (JS.length (value u)) = value u /\
    context u = Some (JS.trim l).

(** The line is one the properties scanner skips. *)
Definition isSkippedProperty (l : string) : bool :=
  JS.startsWith (JS.trim l) "#" || JS.startsWith (JS.trim l) "!"
  || String.eqb (JS.trim l) "".

(** The string a protocol is in the source. *)
Definition protocolName (p : UrlProtocol) : string :=
  match p with
  | http => "http"
  | https => "https"
  | ftp => "ftp"
  | file => "file"
  | mailto => "mailto"
  | tel => "tel"
  | unknown => "unknown"
  end.


(** The protocol and the type of a token are the classifications of its
    value. *)
Definition classifiedByValue (u : Url) : Prop :=
  protocol u = Collect.classifyUrlProtocol (value u) /\
  type u = Some (CollectValues.classifyUrlType (value u)).

(** The array a record of groups holds under a key; empty when it holds
    none. *)
Definition groupOf (groups : gmap string (list Url)) (key : string)
    : list Url :=
  default [] (groups !! key).

(** The key [groupUrlsByDomain] files a token under; [None] when filing
    it throws. *)
Definition domainKey (URL_new : string -> Exc URL) (u : Url) : option string :=
  if bool_decide (type u = Some "http") || bool_decide (type u = Some "https")
  then
    match URL_new (value u) with
    | Ok parsed =>
        if bool_decide (URL_hostname parsed ∈ CollectGroups.OBJECT_PROTOTYPE_KEYS)
        then Some "invalid"
        else Some (URL_hostname parsed)
    | Throw _ => Some "invalid"
    end
  else if bool_decide (Collect.typeOf u ∈ CollectGroups.OBJECT_PROTOTYPE_KEYS)
       then None
       else Some (Collect.typeOf u).

(** No key of the record is a property name of [Object.prototype]. *)
Definition cleanKeys (groups : gmap string (list Url)) : Prop :=
  forall k, k ∈ CollectGroups.OBJECT_PROTOTYPE_KEYS -> groups !! k = None.

(** The key [groupUrlsByType] files a token under; [None] when filing it
    throws. *)
Definition typeKey (u : Url) : option string :=
  if bool_decide (Collect.typeOf u ∈ CollectGroups.OBJECT_PROTOTYPE_KEYS)
  then None
  else Some (Collect.typeOf u).

(** Under the [i] flag a character matches the pattern character [c]
    exactly when its lower-case form is [c]: checked on every code unit. *)
Definition foldsLikeLower (c : ascii) : bool :=
  forallb
    (fun n =>
       let a := ascii_of_nat n in
       Bool.eqb (Ascii.eqb (Regex.canonicalize true a) (Regex.canonicalize true c))
                (Ascii.eqb c (JS.lowerChar a)))
    (seq 0 256).



(** The number of results that carry the status. *)
Definition withStatus (st : ValidationStatus)
    (results : list ValidationResult) : nat :=
  length (filter (fun r => vr_status r = st) results).

(** The seven protocols of the [protocols] record. *)
Definition ALL_PROTOCOLS : list UrlProtocol :=
  [http; https; ftp; file; mailto; tel; unknown].

(** The protocol is one of the web protocols. *)
Definition isWeb (p : UrlProtocol) : Prop := p ∈ [http; https; ftp].

(** A character class holds the lower-case form of each of its members:
    checked on every code unit. *)
Definition lowerClosedClass (p : ascii -> bool) : bool :=
  forallb
    (fun n =>
       let a := ascii_of_nat n in implb (p a) (p (JS.lowerChar a)))
    (seq 0 256).

(** A pattern whose literal characters are not capital letters and whose
    classes are closed under lower-casing. *)
Fixpoint lowerClosed (r : Regex.regex) : bool :=
  match r with
  | Regex.Eps | Regex.Start => true
  | Regex.Chr c => Ascii.eqb (JS.lowerChar c) c
  | Regex.Cls p | Regex.Star p | Regex.Plus p | Regex.StarLazy p =>
      lowerClosedClass p
  | Regex.Cat r1 r2 | Regex.Alt r1 r2 => lowerClosed r1 && lowerClosed r2
  | Regex.Opt r1 | Regex.Group _ r1 => lowerClosed r1
  end.
(* ================================================================== *)
(** * Properties: the matching loop terminates *)
(* ================================================================== *)

Module RegexFacts.
Import Regex.

Lemma substringFrom_length s n :
  String.length (JS.substringFrom s n) = (String.length s - n)%nat.
Proof.
  revert n. induction s as [|c s IH]; intros [|n]; simpl; auto.
Qed.

Lemma substringFrom_add s n m :
  JS.substringFrom (JS.substringFrom s n) m = JS.substringFrom s (n + m).
Proof.
  revert n. induction s as [|c s IH]; intros [|n]; simpl; auto.
  by destruct m.
Qed.

Lemma substring0_add s n m :
  JS.substring0 s (n + m)
    = JS.substring0 s n +:+ JS.substring0 (JS.substringFrom s n) m.
Proof.
  revert n. induction s as [|c s IH]; intros [|n]; simpl; auto.
  - by destruct m.
  - change (String c (JS.substring0 s (n + m)) =
            String c (JS.substring0 s n
                        +:+ JS.substring0 (JS.substringFrom s n) m)).
    by rewrite IH.
Qed.

Lemma substring0_nonempty s n :
  JS.substring0 s n <> "" -> (0 < n)%nat.
Proof. destruct n; [by destruct s|lia]. Qed.

Lemma starGreedy_spec {A} p s pos (k : string -> nat -> option A) x :
  starGreedy p s pos k = Some x ->
  exists n, (n <= String.length s)%nat /\
            allChars p (JS.substring0 s n) = true /\
            k (JS.substringFrom s n) (pos + n)%nat = Some x.
Proof.
  revert pos. induction s as [|c s IH]; intros pos; simpl.
  - intros H. exists 0%nat. by rewrite Nat.add_0_r.
  - destruct (p c) eqn:Hc.
    + destruct (starGreedy p s (S pos) k) eqn:E.
      * intros [= ->]. apply IH in E as (n & Hn & Hall & Hk).
        exists (S n). split; [lia|]. simpl. rewrite Hc, Hall.
        by replace (pos + S n)%nat with (S pos + n)%nat by lia.
      * intros H. exists 0%nat. rewrite Nat.add_0_r. split; [lia|done].
    + intros H. exists 0%nat. rewrite Nat.add_0_r. split; [lia|done].
Qed.

Lemma starLazy_spec {A} p s pos (k : string -> nat -> option A) x :
  starLazy p s pos k = Some x ->
  exists n, (n <= String.length s)%nat /\
            allChars p (JS.substring0 s n) = true /\
            k (JS.substringFrom s n) (pos + n)%nat = Some x.
Proof.
  revert pos. induction s as [|c s IH]; intros pos; simpl.
  - destruct (k "" pos) eqn:E; [|done].
    intros [= ->]. exists 0%nat. by rewrite Nat.add_0_r.
  - destruct (k (String c s) pos) eqn:E.
    + intros [= ->]. exists 0%nat. rewrite Nat.add_0_r. split; [lia|done].
    + destruct (p c) eqn:Hc; [|done]. intros (n & Hn & Hall & Hk)%IH.
      exists (S n). split; [lia|]. simpl. rewrite Hc, Hall.
      by replace (pos + S n)%nat with (S pos + n)%nat by lia.
Qed.

(** The matcher is sound: whatever [run] returns was returned by its
    continuation, called on the text left after a prefix that belongs to
    the language of the pattern. *)
Lemma run_spec {A} ic r :
  forall s pos caps (k : string -> nat -> captures -> option A) x,
    run ic r s pos caps k = Some x ->
    exists n caps',
      (n <= String.length s)%nat /\
      Matches ic r (JS.substring0 s n) /\
      k (JS.substringFrom s n) (pos + n)%nat caps' = Some x.
Proof.
  induction r as [| |c|p|r1 IH1 r2 IH2|r1 IH1 r2 IH2|r1 IH1|p|p|p|g r1 IH1];
    intros s pos caps k x; simpl.
  - intros H. exists 0%nat, caps. rewrite Nat.add_0_r.
    split; [lia|]. destruct s; (split; [constructor|done]).
  - destruct (pos =? 0)%nat; [|done].
    intros H. exists 0%nat, caps. rewrite Nat.add_0_r.
    split; [lia|]. destruct s; (split; [constructor|done]).
  - destruct s as [|a s]; [done|].
    destruct (Ascii.eqb_spec (canonicalize ic a) (canonicalize ic c)); [|done].
    intros H. exists 1%nat, caps. simpl.
    replace (pos + 1)%nat with (S pos) by lia.
    split; [lia|]. destruct s; (split; [by constructor|done]).
  - destruct s as [|a s]; [done|].
    destruct (p a) eqn:Hp; [|done].
    intros H. exists 1%nat, caps. simpl.
    replace (pos + 1)%nat with (S pos) by lia.
    split; [lia|]. destruct s; (split; [by constructor|done]).
  - intros (n1 & c1 & Hn1 & Hm1 & H2)%IH1.
    apply IH2 in H2 as (n2 & c2 & Hn2 & Hm2 & Hk).
    rewrite substringFrom_length in Hn2. rewrite substringFrom_add in Hk.
    exists (n1 + n2)%nat, c2. split; [lia|]. split.
    + rewrite substring0_add. by constructor.
    + by replace (pos + (n1 + n2))%nat with (pos + n1 + n2)%nat by lia.
  - destruct (run ic r1 s pos caps k) eqn:E.
    + intros [= ->]. apply IH1 in E as (n & c' & ? & ? & ?).
      exists n, c'. split; [done|]. split; [by apply MatchesAltL|done].
    + intros (n & c' & ? & ? & ?)%IH2.
      exists n, c'. split; [done|]. split; [by apply MatchesAltR|done].
  - destruct (run ic r1 s pos caps k) eqn:E.
    + intros [= ->]. apply IH1 in E as (n & c' & ? & ? & ?).
      exists n, c'. split; [done|]. split; [by apply MatchesOptSome|done].
    + intros H. exists 0%nat, caps. rewrite Nat.add_0_r.
      split; [lia|]. destruct s; (split; [apply MatchesOptNone|done]).
  - intros (n & Hn & Hall & Hk)%starGreedy_spec. exists n, caps.
    split; [done|]. split; [by constructor|done].
  - destruct s as [|a s]; [done|].
    destruct (p a) eqn:Hp; [|done].
    intros (n & Hn & Hall & Hk)%starGreedy_spec. exists (S n), caps. simpl.
    replace (pos + S n)%nat with (S pos + n)%nat by lia.
    split; [lia|]. split; [|done].
    constructor; [done|]. simpl. by rewrite Hp, Hall.
  - intros (n & Hn & Hall & Hk)%starLazy_spec. exists n, caps.
    split; [done|]. split; [by constructor|done].
  - intros (n & c' & ? & ? & ?)%IH1. exists n. eexists.
    split; [done|]. split; [by constructor|done].
Qed.

(** A pattern that is not nullable matches no empty word. *)
Lemma Matches_nonempty ic r w :
  Matches ic r w -> nullable r = false -> w <> "".
Proof.
  induction 1 as [| |c a|p a|r1 r2 w1 w2 _ IH1 _ IH2|r1 r2 w _ IH|r1 r2 w _ IH
                  |r w _ IH|r|p w|p w|p w|n r w _ IH]; simpl; try done.
  - intros Hnull Heq. destruct w1 as [|c1 w1]; [|discriminate Heq].
    change (w2 = "") in Heq.
    apply andb_false_iff in Hnull as [?|?]; [by apply IH1|by apply IH2].
  - intros [? _]%orb_false_iff. auto.
  - intros [_ ?]%orb_false_iff. auto.
Qed.

Lemma matchAt_spec re s pos m :
  matchAt re s pos = Some m ->
  index m = pos /\ (pos <= stop m <= pos + String.length s)%nat /\
  Matches (ignoreCase re) (source re) (text m) /\
  (nullable (source re) = false -> (pos < stop m)%nat).
Proof.
  unfold matchAt. intros (n & c' & Hn & Hm & [= <-])%run_spec. simpl.
  replace (pos + n - pos)%nat with n by lia.
  split; [done|]. split; [lia|]. split; [done|].
  intros Hnull. pose proof (Matches_nonempty _ _ _ Hm Hnull) as Hne.
  apply substring0_nonempty in Hne. lia.
Qed.

Lemma search_spec re s pos m :
  search re s pos = Some m ->
  (pos <= index m <= stop m)%nat /\ (stop m <= pos + String.length s)%nat /\
  Matches (ignoreCase re) (source re) (text m) /\
  (nullable (source re) = false -> (index m < stop m)%nat).
Proof.
  revert pos. induction s as [|c s IH]; intros pos; simpl.
  - destruct (matchAt re "" pos) eqn:E; [|done].
    intros [= ->]. apply matchAt_spec in E as (-> & ? & ? & Hnull).
    split; [lia|]. split; [simpl in *; lia|done].
  - destruct (matchAt re (String c s) pos) eqn:E.
    + intros [= ->]. apply matchAt_spec in E as (-> & ? & ? & Hnull).
      split; [lia|]. split; [simpl in *; lia|done].
    + intros (? & ? & ? & Hnull)%IH. split; [lia|]. split; [simpl; lia|done].
Qed.

Lemma exec_spec re str lastIndex m :
  exec re str lastIndex = Some m ->
  (lastIndex <= index m <= stop m)%nat /\ (stop m <= String.length str)%nat /\
  Matches (ignoreCase re) (source re) (text m) /\
  (nullable (source re) = false -> (lastIndex < stop m)%nat).
Proof.
  unfold exec, JS.length.
  destruct (Nat.ltb_spec (String.length str) lastIndex); [done|].
  intros (? & Hstop & ? & Hnull)%search_spec.
  rewrite substringFrom_length in Hstop.
  split; [done|]. split; [lia|]. split; [done|]. intros ?%Hnull. lia.
Qed.

(** A pattern that cannot match the empty string moves [lastIndex]
    forward in every round, so the loop ends within the fuel it is given. *)
Lemma execLoop_terminates re str :
  nullable (source re) = false ->
  forall fuel lastIndex,
    (String.length str + 1 - lastIndex < fuel)%nat ->
    is_Some (execLoop fuel re str lastIndex).
Proof.
  intros Hnull. induction fuel as [|fuel IH]; intros lastIndex Hfuel; [lia|].
  simpl. destruct (exec re str lastIndex) as [m|] eqn:E; [|by eexists].
  apply exec_spec in E as (? & ? & _ & Hlt). specialize (Hlt Hnull).
  destruct (IH (stop m)) as [ms Hms]; [lia|]. rewrite Hms. by eexists.
Qed.

Lemma execLoop_enough_fuel re str :
  nullable (source re) = false ->
  execLoop (2 + JS.length str) re str 0 = Some (matchAll re str).
Proof.
  intros Hnull. unfold matchAll.
  destruct (execLoop_terminates re str Hnull (2 + JS.length str) 0) as [ms ->];
    [unfold JS.length; lia|done].
Qed.

Lemma execLoop_Matches re str fuel :
  forall lastIndex ms,
    execLoop fuel re str lastIndex = Some ms ->
    Forall (fun m => Matches (ignoreCase re) (source re) (text m)) ms.
Proof.
  induction fuel as [|fuel IH]; intros lastIndex ms; simpl; [done|].
  destruct (exec re str lastIndex) as [m|] eqn:E.
  - destruct (execLoop fuel re str (stop m)) as [ms'|] eqn:E'; [|done].
    intros [= <-]. constructor; [|by eapply IH].
    by apply exec_spec in E as (_ & _ & ? & _).
  - intros [= <-]. constructor.
Qed.

(** Every match the loop body sees belongs to the language of the
    pattern. *)
Lemma matchAll_Matches re str :
  Forall (fun m => Matches (ignoreCase re) (source re) (text m))
         (matchAll re str).
Proof.
  unfold matchAll.
  destruct (execLoop (2 + JS.length str) re str 0) as [ms|] eqn:E; simpl.
  - by eapply execLoop_Matches.
  - constructor.
Qed.

Lemma matchAll_nonempty re str :
  nullable (source re) = false ->
  Forall (fun m => text m <> "") (matchAll re str).
Proof.
  intros Hnull. eapply Forall_impl; [apply matchAll_Matches|].
  intros m Hm. exact (Matches_nonempty _ _ _ Hm Hnull).
Qed.

(** Every pattern of the scanners consumes at least one character. *)
Lemma scanner_patterns_not_nullable :
  Forall (fun re => nullable (source re) = false)
    [ Patterns.URL_PATTERN; Patterns.FTP_PATTERN; Patterns.MAILTO_PATTERN;
      Patterns.TEL_PATTERN; Patterns.FILE_PATTERN;
      Xml.URL_ATTRIBUTES; JavaScript.STRING_URL_PATTERN;
      Markdown.MARKDOWN_LINK_PATTERN; Markdown.MARKDOWN_AUTOLINK_PATTERN;
      Html.HREF_PATTERN; Html.SRC_PATTERN; Html.ACTION_PATTERN ].
Proof. repeat constructor. Qed.

End RegexFacts.

(* ================================================================== *)
(** * Properties: reasoning about one scan *)
(* ================================================================== *)

Module ScanFacts.
Section Steps.
Context (R : relation Heap) `{!PreOrder R}.

Lemma steps_ret {A} (a : A) : steps R (ret a).
Proof. intros h. simpl. reflexivity. Qed.

Lemma steps_throw {A} e : steps R (@throw A e).
Proof. intros h. simpl. reflexivity. Qed.

Lemma steps_gets {A} (f : Heap -> A) : steps R (gets f).
Proof. intros h. simpl. reflexivity. Qed.

Lemma steps_bind {A B} (m : M A) (f : A -> M B) :
  steps R m -> (forall a, steps R (f a)) -> steps R (bind m f).
Proof.
  intros Hm Hf h. unfold bind. specialize (Hm h).
  destruct (m h) as [[a|e] h']; simpl in *; [|done].
  etrans; [exact Hm|apply Hf].
Qed.

Lemma steps_try_catch {A} (m : M A) (handler : Thrown -> M A) :
  steps R m -> (forall e, steps R (handler e)) -> steps R (try_catch m handler).
Proof.
  intros Hm Hf h. unfold try_catch. specialize (Hm h).
  destruct (m h) as [[a|e] h']; simpl in *; [done|].
  etrans; [exact Hm|apply Hf].
Qed.

Lemma steps_forOf {A} (xs : list A) (body : A -> M unit) :
  (forall x, steps R (body x)) -> steps R (forOf xs body).
Proof.
  intros Hb. induction xs as [|x xs IH]; simpl.
  - apply steps_ret.
  - apply steps_bind; [apply Hb|]. intros _. apply IH.
Qed.

Lemma steps_forEachFrom {A} i (xs : list A) (body : A -> nat -> M unit) :
  (forall x j, steps R (body x j)) -> steps R (forEachFrom i xs body).
Proof.
  intros Hb. revert i. induction xs as [|x xs IH]; intros i; simpl.
  - apply steps_ret.
  - apply steps_bind; [apply Hb|]. intros _. apply IH.
Qed.
End Steps.

Lemma returns_ret {A} (a : A) : returns (ret a).
Proof. intros h. by eexists. Qed.

Lemma returns_modify f : returns (modify f).
Proof. intros h. by eexists. Qed.

Lemma returns_gets {A} (f : Heap -> A) : returns (gets f).
Proof. intros h. by eexists. Qed.

Lemma returns_bind {A B} (m : M A) (f : A -> M B) :
  returns m -> (forall a, returns (f a)) -> returns (bind m f).
Proof.
  intros Hm Hf h. unfold bind. destruct (Hm h) as [a Ha].
  destruct (m h) as [[a'|e] h']; simpl in *; [apply Hf|done].
Qed.

(** A [try] whose handler returns, returns: whatever the body does. *)
Lemma returns_try_catch {A} (m : M A) (handler : Thrown -> M A) :
  (forall e, returns (handler e)) -> returns (try_catch m handler).
Proof.
  intros Hf h. unfold try_catch.
  destruct (m h) as [[a|e] h']; simpl; [by eexists|apply Hf].
Qed.

Lemma returns_forOf {A} (xs : list A) (body : A -> M unit) :
  (forall x, returns (body x)) -> returns (forOf xs body).
Proof.
  intros Hb. induction xs as [|x xs IH]; simpl.
  - apply returns_ret.
  - apply returns_bind; [apply Hb|]. intros _. apply IH.
Qed.

Lemma returns_forEachFrom {A} i (xs : list A) (body : A -> nat -> M unit) :
  (forall x j, returns (body x j)) -> returns (forEachFrom i xs body).
Proof.
  intros Hb. revert i. induction xs as [|x xs IH]; intros i; simpl.
  - apply returns_ret.
  - apply returns_bind; [apply Hb|]. intros _. apply IH.
Qed.

Lemma returns_logExtractionError i e : returns (logExtractionError i e).
Proof. apply returns_modify. Qed.

Lemma returns_guardedLine processLine line i :
  returns (guardedLine processLine line i).
Proof. apply returns_try_catch, returns_logExtractionError. Qed.

(** A scanner whose body returns, returns the array its body leaves. *)
Lemma scanner_returns (body : M unit) :
  returns body -> scanner body = Ok (h_urls (body emptyHeap).2).
Proof.
  intros Hb. unfold scanner. destruct (Hb emptyHeap) as [a Ha].
  destruct (body emptyHeap) as [[?|?] ?]; simpl in *; [done|discriminate].
Qed.

(** What [addIfNew] does to the heap. *)
Lemma addIfNew_run key u h :
  addIfNew key u h =
    (Ok tt,
     if bool_decide (key ∈ h_extractedPositions h) then h
     else mkHeap (h_urls h ++ [u]) ({[ key ]} ∪ h_extractedPositions h)
                 (h_inCodeBlock h) (h_console h)).
Proof.
  unfold addIfNew, bind, seen, gets, markSeen, push, modify, ret. simpl.
  by case_bool_decide.
Qed.

End ScanFacts.

(** One step of the tactic that walks a scanner body. *)
Ltac scan_step R :=
  lazymatch goal with
  | |- steps _ (bind _ _) => apply (ScanFacts.steps_bind R); [|intros ?]
  | |- steps _ (ret _) => apply (ScanFacts.steps_ret R)
  | |- steps _ (gets _) => apply (ScanFacts.steps_gets R)
  | |- steps _ (forOf _ _) => apply (ScanFacts.steps_forOf R); intros ?
  | |- steps _ (forEachFrom _ _ _) => apply (ScanFacts.steps_forEachFrom R); intros ? ?
  | |- steps _ (try_catch _ _) => apply (ScanFacts.steps_try_catch R); [|intros ?]
  | |- steps _ (match ?x with _ => _ end) => destruct x eqn:?
  end.

(* ================================================================== *)
(** * Properties: the seen-set *)
(* ================================================================== *)

Module SeenSetFacts.

Global Instance keeps_distinct_preorder : PreOrder keeps_distinct.
Proof. split; unfold keeps_distinct; [intros ?|intros ? ? ?]; auto. Qed.

Lemma distinct_empty : distinct emptyHeap.
Proof. split; simpl; [constructor|]. by intros u ?%elem_of_nil. Qed.

Lemma addIfNew_distinct key u :
  value u = key -> steps keeps_distinct (addIfNew key u).
Proof.
  intros <- h [Hnd Hin]. rewrite ScanFacts.addIfNew_run. simpl.
  case_bool_decide as Hseen; [done|]. split; simpl.
  - rewrite fmap_app. apply NoDup_app. split; [done|]. split.
    + intros v (w & -> & Hw)%list_elem_of_fmap Heq%list_elem_of_singleton.
      apply Hin in Hw. by rewrite Heq in Hw.
    + apply NoDup_singleton.
  - intros w [Hw| ->%list_elem_of_singleton]%elem_of_app.
    + apply Hin in Hw. set_solver.
    + set_solver.
Qed.

Lemma console_warn_distinct text e : steps keeps_distinct (console_warn text e).
Proof. by intros h [? ?]. Qed.

Lemma logExtractionError_distinct i e :
  steps keeps_distinct (logExtractionError i e).
Proof. apply console_warn_distinct. Qed.

Ltac walk :=
  repeat first
    [ apply logExtractionError_distinct
    | apply addIfNew_distinct; reflexivity
    | scan_step keeps_distinct ].

Lemma markdown_line_distinct URL_new line i :
  steps keeps_distinct (Markdown.eachLine URL_new line i).
Proof.
  unfold Markdown.eachLine. scan_step keeps_distinct; [walk|].
  scan_step keeps_distinct; [by intros h [? ?]|].
  unfold Markdown.extractUrlsFromLine, Markdown.extractMarkdownLinks,
    Markdown.extractAutolinks, Markdown.extractPlainUrls,
    Markdown.extractByPattern, Markdown.addUrlIfNew.
  walk.
Qed.

Lemma html_line_distinct URL_new line i :
  steps keeps_distinct (Html.extractUrlsFromLine URL_new line i).
Proof.
  unfold Html.extractUrlsFromLine, Html.extractFromAttributes,
    Html.extractPlainUrls, Html.extractByAttributePattern,
    Html.extractByPlainPattern, Html.addUrlIfNew.
  walk.
Qed.

Lemma javascript_line_distinct line i :
  steps keeps_distinct (guardedLine JavaScript.processLine line i).
Proof.
  unfold guardedLine, JavaScript.processLine, JavaScript.addEachMatch.
  walk.
Qed.

Lemma markdown_line_returns URL_new line i :
  returns (Markdown.eachLine URL_new line i).
Proof.
  unfold Markdown.eachLine.
  apply ScanFacts.returns_bind; [apply ScanFacts.returns_gets|]. intros b.
  apply ScanFacts.returns_bind; [apply ScanFacts.returns_modify|]. intros _.
  destruct (Markdown.updateCodeBlockState line b); [apply ScanFacts.returns_ret|].
  apply ScanFacts.returns_try_catch, ScanFacts.returns_logExtractionError.
Qed.

Lemma html_line_returns URL_new line i :
  returns (Html.extractUrlsFromLine URL_new line i).
Proof. apply ScanFacts.returns_try_catch, ScanFacts.returns_logExtractionError. Qed.

(** A scanner whose lines return and keep the invariant returns an array
    without a repeated value. *)
Lemma distinct_scan (eachLine : string -> nat -> M unit) content :
  (forall line i, returns (eachLine line i)) ->
  (forall line i, steps keeps_distinct (eachLine line i)) ->
  exists urls,
    scanner (forEach (JS.splitLines content) eachLine) = Ok urls /\
    NoDup (value <$> urls).
Proof.
  intros Hret Hkeep. eexists. split.
  - apply ScanFacts.scanner_returns, ScanFacts.returns_forEachFrom, Hret.
  - apply (ScanFacts.steps_forEachFrom keeps_distinct 0 _ _ Hkeep emptyHeap),
      distinct_empty.
Qed.

End SeenSetFacts.

(** C4 — the Markdown, HTML and JavaScript scanners, which keep a
    seen-set, return a token list in which no exact value string occurs
    twice, for every document (and every platform URL parser). *)
Theorem seen_set_scanners_emit_each_value_once
    (URL_new : string -> Exc URL) (content : string) :
  (exists urls, Markdown.extractFromMarkdown URL_new content = Ok urls /\
                NoDup (value <$> urls)) /\
  (exists urls, Html.extractFromHtml URL_new content = Ok urls /\
                NoDup (value <$> urls)) /\
  (exists urls, JavaScript.extractFromJavaScript content = Ok urls /\
                NoDup (value <$> urls)).
Proof.
  split; [|split].
  - apply SeenSetFacts.distinct_scan.
    + apply SeenSetFacts.markdown_line_returns.
    + apply SeenSetFacts.markdown_line_distinct.
  - apply SeenSetFacts.distinct_scan.
    + apply SeenSetFacts.html_line_returns.
    + apply SeenSetFacts.html_line_distinct.
  - apply SeenSetFacts.distinct_scan.
    + apply ScanFacts.returns_guardedLine.
    + apply SeenSetFacts.javascript_line_distinct.
Qed.

(** C4, as stated, fails: the YAML scanner keeps no seen-set and emits the
    same value once per line it occurs on. *)
Lemma yaml_emits_a_value_twice :
  valuesOf (Yaml.extractFromYaml
              ("a: https://a.com" +:+ Examples.nl +:+ "b: https://a.com"))
    = ["https://a.com"; "https://a.com"] /\
  ~ NoDup (valuesOf (Yaml.extractFromYaml
              ("a: https://a.com" +:+ Examples.nl +:+ "b: https://a.com"))).
Proof.
  assert (E : valuesOf (Yaml.extractFromYaml
              ("a: https://a.com" +:+ Examples.nl +:+ "b: https://a.com"))
    = ["https://a.com"; "https://a.com"]) by (vm_compute; reflexivity).
  split; [exact E|]. rewrite E.
  intros Hnd. apply NoDup_cons in Hnd as [Hnot _]. apply Hnot. by left.
Qed.

(* ================================================================== *)
(** * Properties: suppressed regions *)
(* ================================================================== *)

Module SuppressionFacts.

Global Instance adds_preorder Q : PreOrder (adds Q).
Proof.
  split.
  - intros h. split; [done|]. exists []. by rewrite app_nil_r.
  - intros h1 h2 h3 (E1 & n1 & U1 & F1) (E2 & n2 & U2 & F2).
    split; [congruence|]. exists (n1 ++ n2).
    rewrite U2, U1, <- app_assoc. split; [done|]. by apply Forall_app.
Qed.


Lemma logExtractionError_adds Q i e : steps (adds Q) (logExtractionError i e).
Proof. intros h. split; [done|]. exists []. by rewrite app_nil_r. Qed.

Lemma adds_Forall Q h h' :
  adds Q h h' -> Forall Q (h_urls h) -> Forall Q (h_urls h').
Proof. intros (_ & new & -> & Hnew) Hold. by apply Forall_app. Qed.

Ltac walk Q :=
  repeat first
    [ apply logExtractionError_adds
    | scan_step (adds Q) ].







End SuppressionFacts.




(* ================================================================== *)
(** * Properties: the dispatcher *)
(* ================================================================== *)

Module DispatchFacts.
Import Extract.

Lemma repeatOnto_length c n acc :
  String.length (JS.repeatOnto c n acc)
    = (Pos.to_nat n + String.length acc)%nat.
Proof.
  revert acc.
  induction n as [n IH|n IH|]; intros acc;
    cbn [JS.repeatOnto String.length];
    rewrite ?IH, ?Pos2Nat.inj_xI, ?Pos2Nat.inj_xO, ?Pos2Nat.inj_1; lia.
Qed.

Lemma repeatChar_length c n : contentLength (JS.repeatChar c n) = Z.pos n.
Proof.
  unfold contentLength, JS.length, JS.repeatChar.
  rewrite repeatOnto_length. simpl. lia.
Qed.

Section WithScanners.
Context {extractors : Extractors}.
Variable now : Z.

(** [extractUrlsByFileType] never throws: it returns what the scanner
    returned, or the scanner's exception as one parse error. *)
Lemma extractUrlsByFileType_returns content fileType :
  extractUrlsByFileType now content fileType =
    match selectExtractor fileType content with
    | Ok extracted => Ok (extracted, [])
    | Throw e => Ok ([], [createParseError now e])
    end.
Proof.
  unfold extractUrlsByFileType.
  by destruct (selectExtractor fileType content).
Qed.

(** Past the two guards, the dispatcher runs the selected scanner and
    packages what [extractUrlsByFileType] returns. *)
Lemma extractUrls_scans content languageId token :
  cancellationRequested token = false ->
  contentLength content <= MAX_CONTENT_SIZE ->
  extractUrls now content languageId token =
    bindE (extractUrlsByFileType now content (determineFileType languageId))
      (fun r =>
         if MAX_URL_COUNT <? Z.of_nat (length r.1)
         then Ok (createTruncatedResult now r.1 (determineFileType languageId)
                    (length r.1))
         else Ok (createSuccessResult r.1 r.2 (determineFileType languageId))).
Proof.
  intros Hc Hsize. unfold extractUrls. rewrite Hc.
  by rewrite (proj2 (Z.ltb_ge _ _) Hsize).
Qed.

Lemma truncated_length (urls : list Url) :
  MAX_URL_COUNT < Z.of_nat (length urls) ->
  Z.of_nat (length (take (Z.to_nat MAX_URL_COUNT) urls)) = MAX_URL_COUNT.
Proof. unfold MAX_URL_COUNT. rewrite length_take. lia. Qed.

End WithScanners.
End DispatchFacts.

(** C1 — for a document within the size ceiling and any format tag the
    dispatcher returns a result and throws nothing, whatever the scanners
    do; an exception raised by the selected scanner comes back as the one
    parse error of an unsuccessful result without tokens. *)
Theorem extractUrls_never_throws
    (extractors : Extractors) (now : Z) (content languageId : string)
    (token : option CancellationToken) :
  contentLength content <= Extract.MAX_CONTENT_SIZE ->
  (exists r, Extract.extractUrls now content languageId token = Ok r) /\
  (forall e,
     Extract.cancellationRequested token = false ->
     Extract.selectExtractor (Extract.determineFileType languageId) content
       = Throw e ->
     Extract.extractUrls now content languageId token =
       Ok (mkExtractionResult false [] [Extract.createParseError now e]
             (Some (Extract.determineFileType languageId)))).
Proof.
  intros Hsize. split.
  - destruct (Extract.cancellationRequested token) eqn:Hc.
    + unfold Extract.extractUrls. rewrite Hc. by eexists.
    + rewrite (DispatchFacts.extractUrls_scans now) by done.
      rewrite DispatchFacts.extractUrlsByFileType_returns.
      destruct (Extract.selectExtractor _ content); simpl;
        [destruct (_ <? _)|]; by eexists.
  - intros e Hc Hthrow.
    rewrite (DispatchFacts.extractUrls_scans now) by done.
    rewrite DispatchFacts.extractUrlsByFileType_returns, Hthrow. done.
Qed.

(** C1 at ten scanners that all throw. *)
Lemma extractUrls_never_throws_witness :
  (exists r,
     Extract.extractUrls
       (extractors := Examples.constantly (Throw (ErrorObject "out of memory")))
       0 "a: https://a.com" "yaml" None = Ok r) /\
  Extract.extractUrls
    (extractors := Examples.constantly (Throw (ErrorObject "out of memory")))
    0 "a: https://a.com" "yaml" None =
    Ok (mkExtractionResult false []
          [mkParseError parsing warning "out of memory" true skip 0]
          (Some yaml)).
Proof.
  pose proof (extractUrls_never_throws
                (Examples.constantly (Throw (ErrorObject "out of memory")))
                0 "a: https://a.com" "yaml" None) as H.
  destruct H as [Hr He]; [vm_compute; discriminate|].
  split; [exact Hr|]. apply (He (ErrorObject "out of memory")); reflexivity.
Defined.



(** C3 — unless cancellation was requested beforehand, a document of more
    than 10,000,000 characters gets an unsuccessful result with no tokens
    and exactly one parse error, recoverable, whose message states the
    content size; no scanner runs (the result is the same whatever the
    scanners are).  A document of at most 10,000,000 characters, so one of
    exactly that size, never gets that error. *)
Theorem extractUrls_rejects_oversized_content
    (extractors : Extractors) (now : Z) (content languageId : string)
    (token : option CancellationToken) :
  Extract.cancellationRequested token = false ->
  (Extract.MAX_CONTENT_SIZE < contentLength content ->
     Extract.extractUrls now content languageId token =
       Ok (mkExtractionResult false [] [sizeExceededError now content]
             (Some unknown_type)) /\
     recoverable (sizeExceededError now content) = true /\
     message (sizeExceededError now content) =
       "Content too large (" +:+ JS.showZ (contentLength content)
         +:+ " characters), maximum size is 10MB" /\
     forall others : Extractors,
       Extract.extractUrls (extractors := others) now content languageId token
         = Extract.extractUrls now content languageId token) /\
  (contentLength content <= Extract.MAX_CONTENT_SIZE ->
     exists r,
       Extract.extractUrls now content languageId token = Ok r /\
       sizeExceededError now content ∉ errors r).
Proof.
  intros Hc. split.
  - intros Hbig. unfold Extract.extractUrls. rewrite Hc.
    rewrite (proj2 (Z.ltb_lt _ _) Hbig). done.
  - intros Hsize. rewrite (DispatchFacts.extractUrls_scans now) by done.
    rewrite DispatchFacts.extractUrlsByFileType_returns.
    destruct (Extract.selectExtractor _ content) as [scanned|e]; simpl.
    + destruct (_ <? _); eexists; (split; [reflexivity|]); simpl.
      * intros [=]%list_elem_of_singleton.
      * by intros ?%elem_of_nil.
    + eexists. split; [reflexivity|]. simpl.
      intros [=]%list_elem_of_singleton.
Qed.

(** C3 at documents of 10,000,001 and of exactly 10,000,000 characters. *)
Lemma extractUrls_rejects_oversized_content_witness :
  Extract.extractUrls (extractors := Examples.engine) 0
      (JS.repeatChar "a" 10000001) "markdown" None =
    Ok (mkExtractionResult false []
          [sizeExceededError 0 (JS.repeatChar "a" 10000001)]
          (Some unknown_type)) /\
  message (sizeExceededError 0 (JS.repeatChar "a" 10000001)) =
    "Content too large (10000001 characters), maximum size is 10MB" /\
  exists r,
    Extract.extractUrls (extractors := Examples.engine) 0
      (JS.repeatChar "a" 10000000) "markdown" None = Ok r /\
    sizeExceededError 0 (JS.repeatChar "a" 10000000) ∉ errors r.
Proof.
  pose proof (extractUrls_rejects_oversized_content Examples.engine 0
                (JS.repeatChar "a" 10000001) "markdown" None eq_refl)
    as [Hbig _].
  pose proof (extractUrls_rejects_oversized_content Examples.engine 0
                (JS.repeatChar "a" 10000000) "markdown" None eq_refl)
    as [_ Hfits].
  rewrite DispatchFacts.repeatChar_length in Hbig, Hfits.
  destruct Hbig as (Hr & _ & Hmsg & _); [unfold Extract.MAX_CONTENT_SIZE; lia|].
  split; [exact Hr|]. split.
  - rewrite Hmsg. reflexivity.
  - apply Hfits. unfold Extract.MAX_CONTENT_SIZE. lia.
Defined.

(** C3, as stated, fails: cancellation is looked at before the size, so
    an oversized document handed over with a cancelled token gets the empty
    result, which carries no parse error. *)
Lemma oversized_content_with_cancelled_token :
  contentLength (JS.repeatChar "a" 10000001) = 10000001 /\
  Extract.extractUrls (extractors := Examples.engine) 0
      (JS.repeatChar "a" 10000001) "markdown" Examples.cancelled =
    Ok (mkExtractionResult false [] [] (Some unknown_type)).
Proof. split; [apply DispatchFacts.repeatChar_length|reflexivity]. Qed.

(* ================================================================== *)
(** * Properties: exceptions on a line *)
(* ================================================================== *)




(* ================================================================== *)
(** * Properties: values and scheme labels *)
(* ================================================================== *)

Module LabelFacts.
Import Regex Patterns.

(** ** Words of the patterns *)

Lemma Matches_Lit p w : Matches false (Lit p) w -> w = p.
Proof.
  revert w. induction p as [|c p IH]; intros w; simpl.
  - by inversion 1.
  - destruct p as [|c' p].
    + inversion 1 as [| |c0 a Ha| | | | | | | | | |]; subst. simpl in Ha. by subst.
    + inversion 1 as [| | | |r1 r2 w1 w2 H1 H2| | | | | | | |]; subst.
      apply IH in H2 as ->.
      inversion H1 as [| |c0 a Ha| | | | | | | | | |]; subst.
      simpl in Ha. by subst.
Qed.

(** A word of the pattern [(prefix rest)] begins with the prefix. *)
Lemma Matches_prefixed n p r w :
  Matches false (Group n (Cat (Lit p) r)) w ->
  exists rest, w = p +:+ rest /\ Matches false r rest.
Proof.
  inversion 1 as [| | | | | | | | | | | |n0 r0 w0 Hcat]; subst.
  inversion Hcat as [| | | |r1 r2 w1 w2 H1 H2| | | | | | | |]; subst.
  apply Matches_Lit in H1 as ->. by eexists.
Qed.

Lemma Matches_URL_PATTERN w :
  Matches false (source URL_PATTERN) w ->
  exists rest, w = "http://" +:+ rest \/ w = "https://" +:+ rest.
Proof.
  unfold URL_PATTERN. cbn [source].
  intros (rest & -> & Hrest)%Matches_prefixed.
  inversion Hrest as [| | | |r1 r2 w1 w2 H1 H2| | | | | | | |]; subst.
  inversion H2 as [| | | |r1' r2' w1' w2' H1' H2'| | | | | | | |]; subst.
  apply (Matches_Lit "://") in H1' as ->.
  inversion H1 as [| | | | | | |r0 w0 Hs|r0| | | |]; subst.
  - inversion Hs as [| |c0 a Ha| | | | | | | | | |]; subst. simpl in Ha. subst.
    exists w2'. by right.
  - exists w2'. by left.
Qed.

(** Decide a goal about the label of a word with a known literal prefix
    by running through the six recognized prefixes. *)
Ltac by_prefix Hentry Hstart :=
  unfold RECOGNIZED_PREFIXES in Hentry;
  repeat (apply elem_of_cons in Hentry as [->|Hentry]);
  try (by apply elem_of_nil in Hentry);
  vm_compute in Hstart; try discriminate Hstart; reflexivity.

Lemma labels_URL_PATTERN : labels URL_PATTERN httpOrHttps.
Proof.
  intros w [rest [-> | ->]]%Matches_URL_PATTERN entry Hentry Hstart;
    by_prefix Hentry Hstart.
Qed.

Lemma labels_FTP_PATTERN : labels FTP_PATTERN (fun _ => ftp).
Proof.
  intros w (rest & -> & _)%Matches_prefixed entry Hentry Hstart.
  by_prefix Hentry Hstart.
Qed.

Lemma labels_MAILTO_PATTERN : labels MAILTO_PATTERN (fun _ => mailto).
Proof.
  intros w (rest & -> & _)%Matches_prefixed entry Hentry Hstart.
  by_prefix Hentry Hstart.
Qed.

Lemma labels_TEL_PATTERN : labels TEL_PATTERN (fun _ => tel).
Proof.
  intros w (rest & -> & _)%Matches_prefixed entry Hentry Hstart.
  by_prefix Hentry Hstart.
Qed.

Lemma labels_FILE_PATTERN : labels FILE_PATTERN (fun _ => file).
Proof.
  intros w (rest & -> & _)%Matches_prefixed entry Hentry Hstart.
  by_prefix Hentry Hstart.
Qed.

(** ** The prefix tests of the XML and JavaScript scanners *)

Lemma startsWith_append v p :
  JS.startsWith v p = true -> exists rest, v = p +:+ rest.
Proof.
  revert v. induction p as [|a p IH]; intros v.
  - intros _. by exists v.
  - destruct v as [|b v]; [discriminate|].
    change (JS.startsWith (String b v) (String a p))
      with (if Ascii.eqb a b then JS.startsWith v p else false).
    destruct (Ascii.eqb a b) eqn:E; [|discriminate].
    apply Ascii.eqb_eq in E as ->.
    intros (rest & ->)%IH. by exists rest.
Qed.

Lemma determineProtocol_labelled v entry :
  entry ∈ RECOGNIZED_PREFIXES ->
  JS.startsWith v entry.1 = true ->
  Xml.determineProtocol v = entry.2.
Proof.
  intros Hentry Hstart.
  destruct (startsWith_append _ _ Hstart) as [rest ->]. clear Hstart.
  unfold RECOGNIZED_PREFIXES in Hentry.
  repeat (apply elem_of_cons in Hentry as [->|Hentry]);
    try (by apply elem_of_nil in Hentry); reflexivity.
Qed.

Lemma detectUrlProtocol_labelled v entry :
  entry ∈ RECOGNIZED_PREFIXES ->
  JS.startsWith v entry.1 = true ->
  JavaScript.detectUrlProtocol v = entry.2.
Proof.
  intros Hentry Hstart.
  destruct (startsWith_append _ _ Hstart) as [rest ->]. clear Hstart.
  unfold RECOGNIZED_PREFIXES in Hentry.
  repeat (apply elem_of_cons in Hentry as [->|Hentry]);
    try (by apply elem_of_nil in Hentry); reflexivity.
Qed.

Lemma truthy_nonempty x s : truthy x = Some s -> s <> "".
Proof. destruct x as [[|]|]; simpl; intros [= <-]; done. Qed.

(** ** Tokens built from a match *)

Lemma plainUrl_nonEmpty re protocol line i :
  nullable (source re) = false ->
  Forall (fun m => nonEmpty (plainUrl protocol line i m)) (matchAll re line).
Proof. apply RegexFacts.matchAll_nonempty. Qed.

Lemma plainUrl_wellLabelled re label line i :
  nullable (source re) = false -> labels re label ->
  Forall (fun m => wellLabelled (plainUrl (label (text m)) line i m))
         (matchAll re line).
Proof.
  intros Hnull Hlabel.
  pose proof (RegexFacts.matchAll_Matches re line) as Hm.
  eapply Forall_impl; [exact Hm|]. intros m Hw. split.
  - exact (RegexFacts.Matches_nonempty _ _ _ Hw Hnull).
  - intros entry Hentry Hstart. by apply Hlabel.
Qed.

Lemma textUrl_wellLabelled re label text context :
  nullable (source re) = false -> labels re label ->
  Forall (fun m => wellLabelled
            (StructuredText.textUrl (label (Regex.text m)) text context m))
         (matchAll re text).
Proof.
  intros Hnull Hlabel.
  pose proof (RegexFacts.matchAll_Matches re text) as Hm.
  eapply Forall_impl; [exact Hm|]. intros m Hw. split.
  - exact (RegexFacts.Matches_nonempty _ _ _ Hw Hnull).
  - intros entry Hentry Hstart. by apply Hlabel.
Qed.

(** ** Runs that push tokens *)

Global Instance pushes_preorder Q : PreOrder (pushes Q).
Proof.
  split.
  - intros h. exists []. by rewrite app_nil_r.
  - intros h1 h2 h3 (n1 & U1 & F1) (n2 & U2 & F2). exists (n1 ++ n2).
    rewrite U2, U1, <- app_assoc. split; [done|]. by apply Forall_app.
Qed.

Lemma push_pushes (Q : Url -> Prop) u : Q u -> steps (pushes Q) (push u).
Proof. intros Hu h. exists [u]. split; [done|]. by constructor. Qed.

Lemma addIfNew_pushes (Q : Url -> Prop) key u :
  Q u -> steps (pushes Q) (addIfNew key u).
Proof.
  intros Hu h. rewrite ScanFacts.addIfNew_run. simpl.
  case_bool_decide; [reflexivity|]. exists [u]. split; [done|]. by constructor.
Qed.

Lemma quiet_pushes (Q : Url -> Prop) (f : Heap -> Heap) :
  (forall h, h_urls (f h) = h_urls h) -> steps (pushes Q) (modify f).
Proof. intros Hf h. exists []. simpl. by rewrite Hf, app_nil_r. Qed.

Lemma logExtractionError_pushes Q i e : steps (pushes Q) (logExtractionError i e).
Proof. by apply quiet_pushes. Qed.

Lemma steps_forOf_Forall {A} (R : relation Heap) `{!PreOrder R}
    (xs : list A) (body : A -> M unit) :
  Forall (fun x => steps R (body x)) xs -> steps R (forOf xs body).
Proof.
  induction 1 as [|x xs Hx _ IH]; simpl.
  - apply (ScanFacts.steps_ret R).
  - apply (ScanFacts.steps_bind R); [done|]. by intros _.
Qed.

Lemma pushEachMatch_pushes (Q : Url -> Prop) re line make :
  Forall (fun m => Q (make m)) (matchAll re line) ->
  steps (pushes Q) (pushEachMatch re line make).
Proof.
  intros H. apply (steps_forOf_Forall (pushes Q)).
  eapply Forall_impl; [exact H|]. intros m. apply push_pushes.
Qed.

Lemma addEachMatch_pushes (Q : Url -> Prop) re line make :
  Forall (fun m => Q (make m)) (matchAll re line) ->
  steps (pushes Q) (JavaScript.addEachMatch re line make).
Proof.
  intros H. apply (steps_forOf_Forall (pushes Q)).
  eapply Forall_impl; [exact H|]. intros m. apply addIfNew_pushes.
Qed.

(** The tokens of a scan whose lines push tokens that satisfy [Q]. *)
Lemma scan_pushes (Q : Url -> Prop) (eachLine : string -> nat -> M unit) lines :
  (forall line i, steps (pushes Q) (eachLine line i)) ->
  Forall Q (tokensOf (scanner (forEach lines eachLine))).
Proof.
  intros Hline. unfold scanner.
  pose proof (ScanFacts.steps_forEachFrom (pushes Q) 0 lines eachLine Hline
                emptyHeap) as (new & Hurls & Hnew).
  unfold forEach. destruct (forEachFrom 0 lines eachLine emptyHeap) as [[[]|e] h];
    simpl in *; [|constructor].
  by rewrite Hurls.
Qed.

(** ** The scanners, line by line *)

Ltac leaf tac :=
  first
    [ apply logExtractionError_pushes
    | apply pushEachMatch_pushes; tac
    | apply addEachMatch_pushes; tac ].

Ltac walk Q tac := repeat first [ leaf tac | scan_step (pushes Q) ].

Ltac nonempty_match := apply plainUrl_nonEmpty; reflexivity.

Ltac labelled_match :=
  first
    [ apply (plainUrl_wellLabelled URL_PATTERN httpOrHttps);
        [reflexivity|apply labels_URL_PATTERN]
    | apply (plainUrl_wellLabelled FTP_PATTERN (fun _ => ftp));
        [reflexivity|apply labels_FTP_PATTERN]
    | apply (plainUrl_wellLabelled MAILTO_PATTERN (fun _ => mailto));
        [reflexivity|apply labels_MAILTO_PATTERN]
    | apply (plainUrl_wellLabelled TEL_PATTERN (fun _ => tel));
        [reflexivity|apply labels_TEL_PATTERN]
    | apply (plainUrl_wellLabelled FILE_PATTERN (fun _ => file));
        [reflexivity|apply labels_FILE_PATTERN] ].

Lemma yaml_line line i :
  steps (pushes nonEmpty) (guardedLine Yaml.processLine line i).
Proof. unfold guardedLine, Yaml.processLine. walk nonEmpty nonempty_match. Qed.

Lemma css_line line i :
  steps (pushes nonEmpty) (guardedLine Css.processLine line i).
Proof. unfold guardedLine, Css.processLine. walk nonEmpty nonempty_match. Qed.

Lemma json_line line i :
  steps (pushes nonEmpty) (Json.extractUrlsFromLine line i).
Proof.
  unfold Json.extractUrlsFromLine, Json.extractUrlsByPattern, Json.createUrl.
  apply (ScanFacts.steps_try_catch (pushes nonEmpty));
    [|intros e; apply logExtractionError_pushes].
  apply (steps_forOf_Forall (pushes nonEmpty)).
  repeat constructor; apply pushEachMatch_pushes;
    apply RegexFacts.matchAll_nonempty; reflexivity.
Qed.

Lemma properties_line line i :
  steps (pushes wellLabelled) (guardedLine Properties.processLine line i).
Proof.
  unfold guardedLine, Properties.processLine.
  walk wellLabelled labelled_match.
Qed.

Lemma xml_line line i :
  steps (pushes wellLabelled) (guardedLine Xml.processLine line i).
Proof.
  unfold guardedLine, Xml.processLine.
  walk wellLabelled labelled_match.
  apply push_pushes. split.
  - by eapply truthy_nonempty.
  - intros entry. apply determineProtocol_labelled.
Qed.

Lemma javascript_line line i :
  steps (pushes wellLabelled) (guardedLine JavaScript.processLine line i).
Proof.
  unfold guardedLine, JavaScript.processLine.
  walk wellLabelled labelled_match.
  apply addIfNew_pushes. split.
  - by eapply truthy_nonempty.
  - intros entry. apply detectUrlProtocol_labelled.
Qed.

Lemma markdown_line URL_new line i :
  steps (pushes (parserLabelled URL_new)) (Markdown.eachLine URL_new line i).
Proof.
  unfold Markdown.eachLine, Markdown.setInCodeBlock,
    Markdown.extractUrlsFromLine, Markdown.extractMarkdownLinks,
    Markdown.extractAutolinks, Markdown.extractPlainUrls,
    Markdown.extractByPattern, Markdown.addUrlIfNew.
  repeat first
    [ apply logExtractionError_pushes
    | by apply quiet_pushes
    | apply addIfNew_pushes; split; [by eapply truthy_nonempty|reflexivity]
    | scan_step (pushes (parserLabelled URL_new)) ].
Qed.

Lemma html_line URL_new line i :
  steps (pushes (parserLabelled URL_new)) (Html.extractUrlsFromLine URL_new line i).
Proof.
  unfold Html.extractUrlsFromLine, Html.extractFromAttributes,
    Html.extractPlainUrls, Html.extractByAttributePattern,
    Html.extractByPlainPattern, Html.addUrlIfNew.
  repeat first
    [ apply logExtractionError_pushes
    | apply addIfNew_pushes; split; [by eapply truthy_nonempty|reflexivity]
    | scan_step (pushes (parserLabelled URL_new)) ].
Qed.

(** ** The structured scanners *)

Lemma extractUrlsFromText_wellLabelled text context :
  Forall wellLabelled (StructuredText.extractUrlsFromText text context).
Proof.
  unfold StructuredText.extractUrlsFromText.
  rewrite !Forall_app, !Forall_fmap. repeat split.
  - apply (textUrl_wellLabelled URL_PATTERN httpOrHttps);
      [reflexivity|apply labels_URL_PATTERN].
  - apply (textUrl_wellLabelled FTP_PATTERN (fun _ => ftp));
      [reflexivity|apply labels_FTP_PATTERN].
  - apply (textUrl_wellLabelled MAILTO_PATTERN (fun _ => mailto));
      [reflexivity|apply labels_MAILTO_PATTERN].
  - apply (textUrl_wellLabelled TEL_PATTERN (fun _ => tel));
      [reflexivity|apply labels_TEL_PATTERN].
  - apply (textUrl_wellLabelled FILE_PATTERN (fun _ => file));
      [reflexivity|apply labels_FILE_PATTERN].
Qed.

Lemma collectUrls_wellLabelled childContext :
  forall obj context,
    Forall wellLabelled (StructuredText.collectUrls childContext obj context).
Proof.
  fix IH 1. intros [s|items|entries|] context; simpl.
  - apply extractUrlsFromText_wellLabelled.
  - induction items as [|item items IHitems]; [constructor|].
    apply Forall_app. split; [apply IH|apply IHitems].
  - induction entries as [|[key v] entries IHentries]; [constructor|].
    apply Forall_app. split; [apply IH|apply IHentries].
  - constructor.
Qed.

Lemma extractStructured_wellLabelled parse childContext content :
  Forall wellLabelled
    (tokensOf (StructuredText.extractStructured parse childContext content)).
Proof.
  unfold StructuredText.extractStructured.
  destruct (parse content) as [parsed|e]; simpl.
  - apply collectUrls_wellLabelled.
  - apply extractUrlsFromText_wellLabelled.
Qed.

End LabelFacts.

(** The YAML scanner labels every match of its [https?://] pattern
    [https]: a token whose value begins with [http://] carries the
    secure-web scheme, although both classifiers, and the properties
    scanner on the same line, say [http].  The CSS and JSON scanners do the
    same. *)
Lemma yaml_labels_http_as_https :
  Yaml.extractFromYaml "url: http://example.com" =
    Ok [ mkUrl "http://example.com" https None None None
               (Some (mkPosition 1 6)) (Some "url: http://example.com") ] /\
  valuesOf (Css.extractFromCss "url: http://example.com")
    = ["http://example.com"] /\
  protocol <$> tokensOf (Css.extractFromCss "url: http://example.com")
    = [https] /\
  protocol <$> tokensOf (Json.extractFromJson "url: http://example.com")
    = [https] /\
  Collect.classifyUrlProtocol "http://example.com" = http /\
  UrlValidation.detectUrlProtocol ReferenceURL.URL_new "http://example.com" = http /\
  Properties.extractFromProperties "url: http://example.com" =
    Ok [ mkUrl "http://example.com" http None None None
               (Some (mkPosition 1 6)) (Some "url: http://example.com") ].
Proof. repeat split; vm_compute; reflexivity. Qed.



(* ================================================================== *)
(** * Properties: the classifier *)
(* ================================================================== *)

Module ClassifierFacts.

Lemma classifyUrlProtocol_find candidate :
  Collect.classifyUrlProtocol candidate =
    match find (fun entry => beginsWith (JS.trim candidate) entry.1)
               RECOGNIZED_PREFIXES with
    | Some entry => entry.2
    | None => unknown
    end.
Proof.
  unfold Collect.classifyUrlProtocol, beginsWith. simpl.
  repeat (destruct (JS.startsWith _ _); [reflexivity|]). reflexivity.
Qed.

Lemma supported_protocol_mapped protocol :
  UrlValidation.mapProtocolToType protocol <> unknown <->
  protocol ∈ UrlValidation.SUPPORTED_PROTOCOLS.
Proof.
  unfold UrlValidation.mapProtocolToType, UrlValidation.SUPPORTED_PROTOCOLS.
  rewrite !elem_of_cons, elem_of_nil.
  do 6 (match goal with
        | |- context [String.eqb protocol ?s] =>
            destruct (String.eqb_spec protocol s) as [->|?];
            [split; [intros _; auto 10|intros _; discriminate]|]
        end).
  split; [intros H; by contradiction H|].
  intros [?|[?|[?|[?|[?|[?|[]]]]]]]; congruence.
Qed.

End ClassifierFacts.

(** C8 — the prefix classifier returns the scheme of the first recognized
    prefix the trimmed candidate begins with, letter case aside, and
    [unknown] when it begins with none.  The parser-backed classifier
    never throws: it returns the scheme of the protocol the platform parser
    reports, so it recognizes a candidate exactly when the parser accepts
    it with one of the six supported protocols; a candidate the parser
    reads with protocol [javascript:] is [unknown], and one it reads with
    protocol [https:] and host [a.com] is [https] with domain [a.com]. *)
Theorem classifier_recognizes_the_six_schemes
    (URL_new : string -> Exc URL) (candidate : string) :
  Collect.classifyUrlProtocol candidate =
    match find (fun entry => beginsWith (JS.trim candidate) entry.1)
               RECOGNIZED_PREFIXES with
    | Some entry => entry.2
    | None => unknown
    end /\
  (Collect.classifyUrlProtocol candidate <> unknown <->
   beginsWithRecognizedPrefix (JS.trim candidate) = true) /\
  (UrlValidation.detectUrlProtocol URL_new candidate <> unknown <->
   exists parsed, URL_new candidate = Ok parsed /\
                  URL_protocol parsed ∈ UrlValidation.SUPPORTED_PROTOCOLS) /\
  (forall e, URL_new candidate = Throw e ->
     UrlValidation.detectUrlProtocol URL_new candidate = unknown /\
     UrlValidation.extractUrlComponents URL_new candidate = None) /\
  (forall parsed, URL_new candidate = Ok parsed ->
     (URL_protocol parsed = "javascript:" ->
        UrlValidation.detectUrlProtocol URL_new candidate = unknown) /\
     (URL_protocol parsed = "https:" ->
        UrlValidation.detectUrlProtocol URL_new candidate = https /\
        UrlValidation.c_domain <$> UrlValidation.extractUrlComponents URL_new candidate
          = Some (URL_hostname parsed))).
Proof.
  split; [apply ClassifierFacts.classifyUrlProtocol_find|].
  split; [|split; [|split]].
  - rewrite ClassifierFacts.classifyUrlProtocol_find.
    unfold beginsWithRecognizedPrefix, RECOGNIZED_PREFIXES. simpl.
    repeat (destruct (beginsWith _ _); [by split|]). by split.
  - unfold UrlValidation.detectUrlProtocol, UrlValidation.parseUrl.
    destruct (URL_new candidate) as [parsed|e].
    + rewrite ClassifierFacts.supported_protocol_mapped. split.
      * intros ?. by exists parsed.
      * by intros (? & [= <-] & ?).
    + split; [done|]. by intros (? & [=] & _).
  - intros e He.
    unfold UrlValidation.detectUrlProtocol, UrlValidation.extractUrlComponents,
      UrlValidation.parseUrl. by rewrite He.
  - intros parsed Hp.
    unfold UrlValidation.detectUrlProtocol, UrlValidation.extractUrlComponents,
      UrlValidation.parseUrl. rewrite Hp. split; by intros ->.
Qed.

(** C8 at [javascript:x] and [https://a.com] under the reference parser. *)
Lemma classifier_recognizes_the_six_schemes_witness :
  UrlValidation.detectUrlProtocol ReferenceURL.URL_new "javascript:x" = unknown /\
  UrlValidation.detectUrlProtocol ReferenceURL.URL_new "https://a.com" = https /\
  UrlValidation.c_domain
    <$> UrlValidation.extractUrlComponents ReferenceURL.URL_new "https://a.com"
    = Some "a.com" /\
  Collect.classifyUrlProtocol "javascript:x" = unknown /\
  Collect.classifyUrlProtocol "HTTPS://a.com" = https.
Proof.
  pose proof (classifier_recognizes_the_six_schemes ReferenceURL.URL_new
                "javascript:x") as (_ & _ & _ & _ & Hjs).
  pose proof (classifier_recognizes_the_six_schemes ReferenceURL.URL_new
                "https://a.com") as (_ & _ & _ & _ & Hweb).
  pose proof (classifier_recognizes_the_six_schemes ReferenceURL.URL_new
                "HTTPS://a.com") as (Hupper & _).
  destruct (Hjs (mkURL "javascript:" "" "x" "" "") eq_refl) as [Hunknown _].
  destruct (Hweb (mkURL "https:" "a.com" "/" "" "") eq_refl) as [_ Hhttps].
  destruct (Hhttps eq_refl) as [Hscheme Hdomain].
  split; [exact (Hunknown eq_refl)|].
  split; [exact Hscheme|].
  split; [exact Hdomain|].
  split; [reflexivity|].
  rewrite Hupper. reflexivity.
Defined.

(** C8, as stated, fails in both directions: a candidate that begins with
    a recognized prefix is [unknown] when the platform parser rejects it
    (the bare prefix [https://] has no host), and the prefix classifier
    recognizes a candidate that begins with a space, since it trims
    first. *)
Lemma classifier_is_not_a_prefix_test :
  beginsWithRecognizedPrefix "https://" = true /\
  UrlValidation.detectUrlProtocol ReferenceURL.URL_new "https://" = unknown /\
  beginsWithRecognizedPrefix " tel:5" = false /\
  Collect.classifyUrlProtocol " tel:5" = tel.
Proof. repeat split; vm_compute; reflexivity. Qed.

(* ================================================================== *)
(** * Properties: sorting *)
(* ================================================================== *)

Module SortFacts.

Section Comparators.
Context {A : Type}.

Lemma consistent_flip (compare : A -> A -> Z) a b :
  Consistent compare ->
  (compare a b < 0 <-> 0 < compare b a) /\
  (compare a b = 0 <-> compare b a = 0).
Proof.
  intros [Hsgn _]. specialize (Hsgn a b).
  destruct (Z.sgn_spec (compare a b)) as [[? ?]|[[? ?]|[? ?]]],
           (Z.sgn_spec (compare b a)) as [[? ?]|[[? ?]|[? ?]]]; lia.
Qed.

Lemma consistent_total (compare : A -> A -> Z) a b :
  Consistent compare -> compare a b <= 0 \/ compare b a <= 0.
Proof. intros H. pose proof (consistent_flip compare a b H). lia. Qed.

(** A comparator read through a key. *)
Lemma consistent_on {K : Type} (compare : K -> K -> Z) (key : A -> K) :
  Consistent compare -> Consistent (fun a b => compare (key a) (key b)).
Proof.
  intros [Hsgn Htrans]. split; [intros a b; apply Hsgn|].
  intros a b c. apply Htrans.
Qed.

(** [first !== 0 ? first : second]: a comparator with a tie-break. *)
Lemma consistent_tie_break (first second : A -> A -> Z) :
  Consistent first -> Consistent second ->
  Consistent (fun a b => if negb (first a b =? 0) then first a b else second a b).
Proof.
  intros Hf Hs. split.
  - intros a b. pose proof (consistent_flip first a b Hf) as [_ Hzero].
    destruct (Z.eqb_spec (first a b) 0) as [E|E],
             (Z.eqb_spec (first b a) 0) as [E'|E']; simpl;
      [apply Hs|tauto|tauto|apply Hf].
  - intros a b c.
    pose proof (consistent_flip first a b Hf).
    pose proof (consistent_flip first b c Hf).
    pose proof (consistent_flip first a c Hf).
    pose proof (consistent_trans first Hf a b c).
    pose proof (consistent_trans first Hf c a b).
    pose proof (consistent_trans first Hf b c a).
    pose proof (consistent_trans second Hs a b c).
    destruct (Z.eqb_spec (first a b) 0), (Z.eqb_spec (first b c) 0),
             (Z.eqb_spec (first a c) 0); simpl; lia.
Qed.
End Comparators.

Lemma consistent_length_difference :
  Consistent (fun a b : Url =>
    Z.of_nat (JS.length (value a)) - Z.of_nat (JS.length (value b))).
Proof.
  split; [|intros a b c; lia].
  intros a b. rewrite <- Z.sgn_opp. f_equal. lia.
Qed.

Section WithPlatform.
Variable localeCompare : string -> string -> Z.
Variable URL_new : string -> Exc URL.
Hypothesis localeCompare_consistent : Consistent localeCompare.

Lemma comparator_consistent sortBy :
  Consistent (Collect.comparator localeCompare URL_new sortBy).
Proof.
  pose proof (consistent_on localeCompare value localeCompare_consistent)
    as Hvalue.
  destruct sortBy; simpl.
  - exact Hvalue.
  - apply (consistent_tie_break
             (fun a b => localeCompare (Collect.typeOf a) (Collect.typeOf b))
             (fun a b => localeCompare (value a) (value b)));
      [|exact Hvalue].
    exact (consistent_on localeCompare Collect.typeOf localeCompare_consistent).
  - apply (consistent_tie_break
             (fun a b => localeCompare (Collect.getDomain URL_new a)
                                       (Collect.getDomain URL_new b))
             (fun a b => localeCompare (value a) (value b)));
      [|exact Hvalue].
    exact (consistent_on localeCompare (Collect.getDomain URL_new)
             localeCompare_consistent).
  - apply (consistent_tie_break
             (fun a b => Z.of_nat (JS.length (value a))
                         - Z.of_nat (JS.length (value b)))
             (fun a b => localeCompare (value a) (value b)));
      [apply consistent_length_difference|exact Hvalue].
Qed.

(** Every mode falls back on the values: a tie of the comparator is a tie
    of [localeCompare] on the values. *)
Lemma comparator_tie sortBy a b :
  Collect.comparator localeCompare URL_new sortBy a b = 0 ->
  localeCompare (value a) (value b) = 0.
Proof.
  destruct sortBy; simpl;
    unfold Collect.compareValue, Collect.compareType, Collect.compareDomain,
      Collect.compareLength; [done|..];
    match goal with
    | |- context [negb (?x =? 0)] => destruct (Z.eqb_spec x 0); simpl; [done|lia]
    end.
Qed.

Lemma compareLength_precedes a b :
  precedes (Collect.compareLength localeCompare) a b ->
  shorterThenByValue localeCompare a b.
Proof.
  unfold precedes, Collect.compareLength, shorterThenByValue.
  destruct (Z.eqb_spec
              (Z.of_nat (JS.length (value a)) - Z.of_nat (JS.length (value b))) 0);
    simpl; intros ?; [right|left]; lia.
Qed.
End WithPlatform.

Section Sorting.
Context {A : Type}.
Variable compare : A -> A -> Z.
Hypothesis compare_consistent : Consistent compare.

Lemma insertSorted_Permutation x l : insertSorted compare x l ≡ₚ x :: l.
Proof.
  induction l as [|y l IH]; simpl; [done|].
  destruct (0 <? compare x y); [|done].
  rewrite IH. apply Permutation_swap.
Qed.

Lemma sortArray_Permutation l : sortArray compare l ≡ₚ l.
Proof.
  induction l as [|x l IH]; simpl; [done|].
  by rewrite insertSorted_Permutation, IH.
Qed.

Lemma insertSorted_sorted x l :
  StronglySorted (precedes compare) l ->
  StronglySorted (precedes compare) (insertSorted compare x l).
Proof.
  induction l as [|y l IH]; simpl; intros Hl.
  - repeat constructor.
  - apply StronglySorted_inv in Hl as [Hl Hy].
    destruct (Z.ltb_spec 0 (compare x y)) as [Hgt|Hle].
    + constructor; [by apply IH|].
      rewrite insertSorted_Permutation. constructor; [|done].
      unfold precedes.
      pose proof (consistent_flip compare y x compare_consistent). lia.
    + constructor; [by constructor|].
      constructor; [done|].
      eapply Forall_impl; [exact Hy|]. intros z Hz.
      by apply (consistent_trans compare compare_consistent x y z).
Qed.

Lemma sortArray_sorted l : StronglySorted (precedes compare) (sortArray compare l).
Proof.
  induction l as [|x l IH]; simpl; [constructor|]. by apply insertSorted_sorted.
Qed.

(** Sorting leaves a sorted array as it is. *)
Lemma sortArray_of_sorted l :
  StronglySorted (precedes compare) l -> sortArray compare l = l.
Proof.
  induction l as [|x l IH]; simpl; [done|].
  intros [Hl Hx]%StronglySorted_inv. rewrite IH by done.
  destruct l as [|y l]; simpl; [done|].
  apply Forall_cons in Hx as [Hxy _]. unfold precedes in Hxy.
  by rewrite (proj2 (Z.ltb_ge _ _) Hxy).
Qed.

Lemma sortArray_idempotent l :
  sortArray compare (sortArray compare l) = sortArray compare l.
Proof. apply sortArray_of_sorted, sortArray_sorted. Qed.
End Sorting.

Lemma StronglySorted_weaken {A} (R R' : relation A) l :
  (forall a b, R a b -> R' a b) -> StronglySorted R l -> StronglySorted R' l.
Proof.
  intros HR. induction 1 as [|x l Hl IH Hx]; constructor; [done|].
  eapply Forall_impl; [exact Hx|]. intros y. apply HR.
Qed.

(** Comparison by code units is consistent. *)
Lemma codeUnitCompare_consistent : Consistent Examples.codeUnitCompare.
Proof.
  assert (Hle : forall a b,
            Examples.codeUnitCompare a b <= 0 <-> String.le a b).
  { intros a b. unfold Examples.codeUnitCompare, String.le, String.leb.
    destruct (String.compare a b); simpl; split; (lia || done). }
  split.
  - intros a b. unfold Examples.codeUnitCompare.
    rewrite (String.compare_antisym a b).
    by destruct (String.compare b a).
  - intros a b c. rewrite !Hle. apply transitivity.
Qed.

End SortFacts.

(** C10 — for a consistent [localeCompare], every sort mode compares
    consistently (a total order up to ties), a tie of any mode is a tie of
    the values, and [sortUrls] returns a permutation of its input sorted by
    the mode's comparator; sorting the result again in the same mode
    returns it unchanged.  Sorted by length, the value lengths never
    decrease and values of equal length stand in [localeCompare] order. *)
Theorem sortUrls_orders_totally_and_is_idempotent
    (localeCompare : string -> string -> Z) (URL_new : string -> Exc URL)
    (urls : list Url) (sortBy : Collect.SortBy) :
  Consistent localeCompare ->
  Consistent (Collect.comparator localeCompare URL_new sortBy) /\
  (forall a b,
     Collect.comparator localeCompare URL_new sortBy a b <= 0 \/
     Collect.comparator localeCompare URL_new sortBy b a <= 0) /\
  (forall a b,
     Collect.comparator localeCompare URL_new sortBy a b = 0 ->
     localeCompare (value a) (value b) = 0) /\
  Collect.sortUrls localeCompare URL_new urls sortBy ≡ₚ urls /\
  StronglySorted (precedes (Collect.comparator localeCompare URL_new sortBy))
    (Collect.sortUrls localeCompare URL_new urls sortBy) /\
  Collect.sortUrls localeCompare URL_new
      (Collect.sortUrls localeCompare URL_new urls sortBy) sortBy
    = Collect.sortUrls localeCompare URL_new urls sortBy /\
  StronglySorted (shorterThenByValue localeCompare)
    (Collect.sortUrls localeCompare URL_new urls Collect.by_length) /\
  Collect.sortUrls localeCompare URL_new
      (Collect.sortUrls localeCompare URL_new urls Collect.by_value)
      Collect.by_value
    = Collect.sortUrls localeCompare URL_new urls Collect.by_value.
Proof.
  intros Hlc.
  pose proof (SortFacts.comparator_consistent localeCompare URL_new Hlc) as Hcmp.
  unfold Collect.sortUrls. repeat split.
  - apply Hcmp.
  - apply Hcmp.
  - intros a b. by apply SortFacts.consistent_total.
  - apply SortFacts.comparator_tie.
  - apply SortFacts.sortArray_Permutation.
  - by apply SortFacts.sortArray_sorted.
  - by apply SortFacts.sortArray_idempotent.
  - eapply SortFacts.StronglySorted_weaken;
      [|apply SortFacts.sortArray_sorted, Hcmp].
    apply SortFacts.compareLength_precedes.
  - by apply SortFacts.sortArray_idempotent.
Qed.

(** C10 at three tokens compared by code units. *)
Lemma sortUrls_orders_totally_and_is_idempotent_witness :
  let a := Examples.token "https://bb.com" "https" "first" in
  let b := Examples.token "tel:5" "tel" "second" in
  let c := Examples.token "http://a.com" "http" "third" in
  let sorted :=
    Collect.sortUrls Examples.codeUnitCompare ReferenceURL.URL_new [a; b; c]
      Collect.by_length in
  sorted = [b; c; a] /\
  Collect.sortUrls Examples.codeUnitCompare ReferenceURL.URL_new sorted
    Collect.by_length = sorted /\
  StronglySorted (shorterThenByValue Examples.codeUnitCompare) sorted.
Proof.
  intros a b c sorted.
  pose proof (sortUrls_orders_totally_and_is_idempotent
                Examples.codeUnitCompare ReferenceURL.URL_new [a; b; c]
                Collect.by_length SortFacts.codeUnitCompare_consistent)
    as (_ & _ & _ & _ & _ & Hidem & Hlen & _).
  split; [vm_compute; reflexivity|]. split; [exact Hidem|exact Hlen].
Defined.

(* ================================================================== *)
(** * Properties: deduplication *)
(* ================================================================== *)

Module DedupFacts.
Import Collect.







End DedupFacts.


(* ================================================================== *)
(** * Properties: strings and lines *)
(* ================================================================== *)

Module StringFacts.

Lemma startsWith_nil s : JS.startsWith s "" = true.
Proof. by destruct s. Qed.

Lemma startsWith_cons a p b s :
  JS.startsWith (String b s) (String a p)
    = (if Ascii.eqb a b then JS.startsWith s p else false).
Proof. reflexivity. Qed.

Lemma startsWith_empty a p : JS.startsWith "" (String a p) = false.
Proof. reflexivity. Qed.


Lemma append_cons x (a b : string) : String x a +:+ b = String x (a +:+ b).
Proof. reflexivity. Qed.



Lemma length_append (a b : string) :
  String.length (a +:+ b) = (String.length a + String.length b)%nat.
Proof.
  induction a as [|x a IH]; [done|]. rewrite append_cons. simpl. by rewrite IH.
Qed.

Lemma allChars_app p a b :
  allChars p (a +:+ b) = allChars p a && allChars p b.
Proof.
  induction a as [|c a IH]; [done|].
  change (p c && allChars p (a +:+ b) = p c && allChars p a && allChars p b).
  by rewrite IH, andb_assoc.
Qed.

(** ** [trim] *)

Lemma trimStart_headKept s : headKept (JS.trimStart s).
Proof.
  induction s as [|c s IH]; simpl; [done|].
  destruct (JS.isWhiteSpace c) eqn:E; [done|]. exact E.
Qed.

Lemma trimStart_of_headKept s : headKept s -> JS.trimStart s = s.
Proof. destruct s as [|c s]; simpl; [done|]. by intros ->. Qed.

Lemma trimEnd_headKept s : headKept s -> headKept (JS.trimEnd s).
Proof.
  destruct s as [|c s]; simpl; [done|]. intros Hc.
  destruct (JS.trimEnd s); simpl; [by rewrite Hc|done].
Qed.

Lemma trimEnd_idempotent s : JS.trimEnd (JS.trimEnd s) = JS.trimEnd s.
Proof.
  induction s as [|c s IH]; simpl; [done|].
  destruct (JS.trimEnd s) as [|c' r'] eqn:E.
  - destruct (JS.isWhiteSpace c) eqn:Hc; simpl; [done|]. by rewrite Hc.
  - simpl. simpl in IH. by rewrite IH.
Qed.

Lemma trim_idempotent s : JS.trim (JS.trim s) = JS.trim s.
Proof.
  unfold JS.trim.
  rewrite (trimStart_of_headKept (JS.trimEnd (JS.trimStart s)))
    by apply trimEnd_headKept, trimStart_headKept.
  apply trimEnd_idempotent.
Qed.

Lemma allChars_trimStart p s :
  allChars p s = true -> allChars p (JS.trimStart s) = true.
Proof.
  induction s as [|c s IH]; simpl; [done|].
  intros [Hc Hs]%andb_true_iff.
  destruct (JS.isWhiteSpace c); [by apply IH|]. simpl. by rewrite Hc, Hs.
Qed.

Lemma allChars_trimEnd p s :
  allChars p s = true -> allChars p (JS.trimEnd s) = true.
Proof.
  induction s as [|c s IH]; simpl; [done|].
  intros [Hc Hs]%andb_true_iff. specialize (IH Hs).
  destruct (JS.trimEnd s) as [|c' r'].
  - destruct (JS.isWhiteSpace c); simpl; [done|]. by rewrite Hc.
  - simpl in *. by rewrite Hc, IH.
Qed.

Lemma allChars_trim p s : allChars p s = true -> allChars p (JS.trim s) = true.
Proof. intros H. by apply allChars_trimEnd, allChars_trimStart. Qed.

(** ** Lines *)

Lemma splitLines_nonempty s : JS.splitLines s <> [].
Proof.
  induction s as [|c s IH]; simpl; [done|].
  destruct (Ascii.eqb c JS.newline); [done|].
  by destruct (JS.splitLines s).
Qed.

(** No line of [split('\n')] holds a newline. *)
Lemma splitLines_notNewline s :
  Forall (fun l => allChars notNewline l = true) (JS.splitLines s).
Proof.
  induction s as [|c s IH]; simpl; [by repeat constructor|].
  destruct (Ascii.eqb c JS.newline) eqn:E; [by constructor|].
  destruct (JS.splitLines s) as [|l ls]; [by repeat constructor; simpl;
    unfold notNewline; rewrite E|].
  apply Forall_cons in IH as [Hl Hls]. constructor; [|done].
  simpl. unfold notNewline at 1. by rewrite E, Hl.
Qed.

Lemma splitLines_line l :
  allChars notNewline l = true -> JS.splitLines l = [l].
Proof.
  induction l as [|c l IH]; simpl; [done|].
  unfold notNewline at 1. intros [Hc Hl]%andb_true_iff.
  apply negb_true_iff in Hc. rewrite Hc, IH by done. done.
Qed.

Lemma splitLines_cons l rest :
  allChars notNewline l = true ->
  JS.splitLines (l +:+ String JS.newline rest) = l :: JS.splitLines rest.
Proof.
  induction l as [|c l IH]; simpl.
  - done.
  - unfold notNewline at 1. intros [Hc Hl]%andb_true_iff.
    apply negb_true_iff in Hc.
    change (String c l +:+ String JS.newline rest)
      with (String c (l +:+ String JS.newline rest)).
    simpl. rewrite Hc, IH by done. done.
Qed.

(** [lines.join('\n').split('\n')] gives the lines back, when there is at
    least one and none holds a newline. *)
Lemma splitLines_joinLines ls :
  ls <> [] -> Forall (fun l => allChars notNewline l = true) ls ->
  JS.splitLines (JS.joinLines ls) = ls.
Proof.
  induction ls as [|l ls IH]; [done|]. intros _ [Hl Hls]%Forall_cons.
  destruct ls as [|l' ls].
  - simpl. by apply splitLines_line.
  - change (JS.joinLines (l :: l' :: ls))
      with (l +:+ String JS.newline (JS.joinLines (l' :: ls))).
    rewrite splitLines_cons by done. by rewrite IH.
Qed.

(** [text.split('\n').join('\n')] gives the text back. *)
Lemma joinLines_splitLines s : JS.joinLines (JS.splitLines s) = s.
Proof.
  induction s as [|c s IH]; simpl; [done|].
  destruct (Ascii.eqb_spec c JS.newline) as [->|Hc].
  - pose proof (splitLines_nonempty s) as Hne.
    destruct (JS.splitLines s) as [|l ls]; [done|].
    change (JS.joinLines ("" :: l :: ls))
      with (String JS.newline (JS.joinLines (l :: ls))).
    by rewrite IH.
  - pose proof (splitLines_nonempty s) as Hne.
    destruct (JS.splitLines s) as [|l ls]; [done|].
    destruct ls as [|l' ls]; simpl in *; by rewrite <- IH.
Qed.

End StringFacts.

(* ================================================================== *)
(** * Properties: the deduplicate command *)
(* ================================================================== *)

Module DedupeCommandFacts.
Import DedupeCommand.





(** Every line of [extractLines] is trimmed and holds no newline. *)
Lemma extractLines_trimmed text :
  Forall (fun l => JS.trim l = l /\ allChars notNewline l = true)
         (extractLines text).
Proof.
  unfold extractLines. apply Forall_fmap.
  eapply Forall_impl; [apply StringFacts.splitLines_notNewline|].
  intros l Hl. simpl. split.
  - apply StringFacts.trim_idempotent.
  - by apply StringFacts.allChars_trim.
Qed.

Lemma fmap_fixed {A} (f : A -> A) (l : list A) :
  Forall (fun x => f x = x) l -> f <$> l = l.
Proof. induction 1 as [|x l Hx _ IH]; csimpl; [done|]. by rewrite Hx, IH. Qed.


End DedupeCommandFacts.


(* ================================================================== *)
(** * Properties: the sort command *)
(* ================================================================== *)

Module SortCommandFacts.
Import SortCommand.

Section Comparators.
Context {A : Type}.

(** [(a, b) => compare(b, a)]: the reverse of a consistent comparator. *)
Lemma consistent_reversed (compare : A -> A -> Z) :
  Consistent compare -> Consistent (fun a b => compare b a).
Proof.
  intros [Hsgn Htrans]. split.
  - intros a b. apply Hsgn.
  - intros a b c Hab Hbc. by apply (Htrans c b a).
Qed.

(** Two ties of one element are a tie of each other. *)
Lemma ties_precede (compare : A -> A -> Z) a x y :
  Consistent compare ->
  compare a x = 0 -> compare a y = 0 -> compare x y <= 0.
Proof.
  intros Hc Hx Hy.
  apply (consistent_trans compare Hc x a y); [|lia].
  pose proof (SortFacts.consistent_flip compare a x Hc). lia.
Qed.
End Comparators.

Lemma consistent_lengths :
  Consistent (fun a b : string =>
    Z.of_nat (JS.length a) - Z.of_nat (JS.length b)).
Proof.
  split; [|intros a b c; lia].
  intros a b. rewrite <- Z.sgn_opp. f_equal. lia.
Qed.

Section Stability.
Context {A : Type}.
Variable compare : A -> A -> Z.

(** Insertion does not move the new element past an element it ties
    with. *)
Lemma insertSorted_filter (P : A -> bool) x l :
  (forall y, P x = true -> P y = true -> compare x y <= 0) ->
  List.filter P (insertSorted compare x l) = List.filter P (x :: l).
Proof.
  intros Hties. induction l as [|y l IH]; [done|].
  cbn [insertSorted]. destruct (Z.ltb_spec 0 (compare x y)) as [Hgt|Hle]; [|done].
  cbn [List.filter] in *. rewrite IH.
  destruct (P x) eqn:Hx; [|done].
  destruct (P y) eqn:Hy; [|done].
  specialize (Hties y eq_refl Hy). lia.
Qed.

(** The sort is stable: it keeps the order of the elements of a class
    whose members tie with one another. *)
Lemma sortArray_filter (P : A -> bool) l :
  (forall x y, P x = true -> P y = true -> compare x y <= 0) ->
  List.filter P (sortArray compare l) = List.filter P l.
Proof.
  intros Hties. induction l as [|x l IH]; [done|].
  cbn [sortArray]. rewrite insertSorted_filter by (intros y; apply Hties).
  cbn [List.filter]. by rewrite IH.
Qed.
End Stability.

Section WithPlatform.
Variable localeCompare : string -> string -> Z.
Variable URL_new : string -> Exc URL.
Hypothesis localeCompare_consistent : Consistent localeCompare.

Lemma sortLines_sortArray lines order :
  sortLines localeCompare URL_new lines order
    = sortArray (lineComparator localeCompare URL_new order) lines.
Proof. by destruct order. Qed.

Lemma lineComparator_consistent order :
  Consistent (lineComparator localeCompare URL_new order).
Proof.
  destruct order; simpl.
  - exact localeCompare_consistent.
  - exact (consistent_reversed localeCompare localeCompare_consistent).
  - exact (SortFacts.consistent_on localeCompare (extractDomain URL_new)
             localeCompare_consistent).
  - exact consistent_lengths.
  - exact (consistent_reversed _ consistent_lengths).
Qed.

(** Every line of [extractNonEmptyLines] is trimmed, not empty and holds
    no newline. *)
Lemma extractNonEmptyLines_kept text :
  Forall (fun l => JS.trim l = l /\ l <> "" /\ allChars notNewline l = true)
         (extractNonEmptyLines text).
Proof.
  unfold extractNonEmptyLines. apply Forall_forall. intros l Hl.
  apply list_elem_of_In, filter_In in Hl as [Hl Hlen].
  apply list_elem_of_In in Hl.
  pose proof (DedupeCommandFacts.extractLines_trimmed text) as Hall.
  rewrite Forall_forall in Hall. destruct (Hall l Hl) as [? ?].
  split; [done|]. split; [|done].
  intros ->. discriminate Hlen.
Qed.

Lemma filter_all {A} (p : A -> bool) l :
  Forall (fun x => p x = true) l -> List.filter p l = l.
Proof. induction 1 as [|x l Hx _ IH]; simpl; [done|]. by rewrite Hx, IH. Qed.

(** Reading back lines that were kept gives them back. *)
Lemma extractNonEmptyLines_written ls :
  Forall (fun l => JS.trim l = l /\ l <> "" /\ allChars notNewline l = true) ls ->
  extractNonEmptyLines (JS.joinLines ls) = ls.
Proof.
  intros Hls. destruct ls as [|l0 ls0] eqn:E; [done|]. rewrite <- E in *.
  assert (Hne : ls <> []) by (by rewrite E).
  unfold extractNonEmptyLines.
  rewrite StringFacts.splitLines_joinLines; [|done|].
  - rewrite DedupeCommandFacts.fmap_fixed.
    + apply filter_all. eapply Forall_impl; [exact Hls|].
      intros l (_ & Hl & _). by destruct l.
    + eapply Forall_impl; [exact Hls|]. by intros l (? & _).
  - eapply Forall_impl; [exact Hls|]. by intros l (_ & _ & ?).
Qed.

End WithPlatform.
End SortCommandFacts.

(** X2 — the sort command, for a consistent [localeCompare].  In each of the
    five orders the sorted lines are a permutation of the lines, in the
    order of the comparator, and lines the comparator ties keep their
    original relative order: nothing breaks a tie, so sorting by length
    leaves lines of equal length as they stood.  Sorting a second time,
    lines or document, changes nothing. *)
Theorem sort_command_is_stable_and_idempotent
    (localeCompare : string -> string -> Z) (URL_new : string -> Exc URL)
    (lines : list string) (order : SortCommand.SortOrder) :
  Consistent localeCompare ->
  let compare := SortCommand.lineComparator localeCompare URL_new order in
  let sorted := SortCommand.sortLines localeCompare URL_new lines order in
  sorted ≡ₚ lines /\
  StronglySorted (precedes compare) sorted /\
  (forall a, List.filter (fun x => compare a x =? 0) sorted
             = List.filter (fun x => compare a x =? 0) lines) /\
  (forall n,
     List.filter (fun x => (JS.length x =? n)%nat)
       (SortCommand.sortLines localeCompare URL_new lines SortCommand.length_asc)
     = List.filter (fun x => (JS.length x =? n)%nat) lines) /\
  SortCommand.sortLines localeCompare URL_new sorted order = sorted /\
  (forall text,
     SortCommand.sortedText localeCompare URL_new
       (SortCommand.sortedText localeCompare URL_new text order) order
     = SortCommand.sortedText localeCompare URL_new text order).
Proof.
  intros Hlc compare sorted.
  pose proof (SortCommandFacts.lineComparator_consistent localeCompare URL_new
                Hlc order) as Hcmp.
  unfold sorted. rewrite !SortCommandFacts.sortLines_sortArray. fold compare.
  split; [apply SortFacts.sortArray_Permutation|].
  split; [by apply SortFacts.sortArray_sorted|].
  split.
  { intros a. apply SortCommandFacts.sortArray_filter.
    intros x y Hx%Z.eqb_eq Hy%Z.eqb_eq.
    by apply (SortCommandFacts.ties_precede compare a). }
  split.
  { intros n. simpl. apply SortCommandFacts.sortArray_filter.
    intros x y Hx%Nat.eqb_eq Hy%Nat.eqb_eq. simpl. lia. }
  split; [by apply SortFacts.sortArray_idempotent|].
  intros text. unfold SortCommand.sortedText.
  rewrite SortCommandFacts.extractNonEmptyLines_written.
  - rewrite !SortCommandFacts.sortLines_sortArray. fold compare.
    by rewrite SortFacts.sortArray_idempotent.
  - rewrite SortCommandFacts.sortLines_sortArray.
    apply Forall_forall. intros l Hl.
    rewrite SortFacts.sortArray_Permutation in Hl.
    pose proof (SortCommandFacts.extractNonEmptyLines_kept text) as Hall.
    rewrite Forall_forall in Hall. by apply Hall.
Qed.

(** X2 at five lines, sorted by length, under comparison by
    code units. *)
Lemma sort_command_is_stable_and_idempotent_witness :
  let lines := ["ccc"; "a"; "bb"; "aa"; "c"] in
  let sorted :=
    SortCommand.sortLines Examples.codeUnitCompare ReferenceURL.URL_new lines
      SortCommand.length_asc in
  sorted = ["a"; "c"; "bb"; "aa"; "ccc"] /\
  sorted ≡ₚ lines /\
  SortCommand.sortLines Examples.codeUnitCompare ReferenceURL.URL_new sorted
    SortCommand.length_asc = sorted.
Proof.
  intros lines sorted.
  pose proof (sort_command_is_stable_and_idempotent
                Examples.codeUnitCompare ReferenceURL.URL_new lines
                SortCommand.length_asc SortFacts.codeUnitCompare_consistent)
    as (Hperm & _ & _ & _ & Hidem & _).
  split; [vm_compute; reflexivity|]. split; [exact Hperm|exact Hidem].
Defined.

(* ================================================================== *)
(** * Properties: where a match stands *)
(* ================================================================== *)

Module MatchFacts.
Import Regex.

Lemma substring0_length s n :
  (n <= String.length s)%nat -> String.length (JS.substring0 s n) = n.
Proof.
  revert n. induction s as [|c s IH]; intros [|n] Hn; simpl in *; try lia.
  rewrite IH; lia.
Qed.

Lemma matchAt_text re s pos m :
  matchAt re s pos = Some m ->
  index m = pos /\
  exists n, (n <= String.length s)%nat /\ text m = JS.substring0 s n.
Proof.
  unfold matchAt. intros (n & c' & Hn & _ & [= <-])%RegexFacts.run_spec. simpl.
  split; [done|]. exists n. split; [done|]. f_equal. lia.
Qed.

Lemma search_text re s pos m :
  search re s pos = Some m ->
  exists j n, index m = (pos + j)%nat /\ (j + n <= String.length s)%nat /\
              text m = JS.substring0 (JS.substringFrom s j) n.
Proof.
  revert pos. induction s as [|c s IH]; intros pos; simpl.
  - destruct (matchAt re "" pos) eqn:E; [|done]. intros [= ->].
    apply matchAt_text in E as (-> & n & Hn & Ht).
    exists 0%nat, n. split; [lia|]. split; [done|]. by destruct n.
  - destruct (matchAt re (String c s) pos) eqn:E.
    + intros [= ->]. apply matchAt_text in E as (-> & n & Hn & Ht).
      exists 0%nat, n. split; [lia|]. split; [done|]. done.
    + intros (j & n & Hi & Hn & Ht)%IH.
      exists (S j), n. split; [lia|]. split; [lia|done].
Qed.

Lemma exec_text re str lastIndex m :
  exec re str lastIndex = Some m ->
  exists n, (index m + n <= String.length str)%nat /\
            text m = JS.substring0 (JS.substringFrom str (index m)) n.
Proof.
  unfold exec, JS.length.
  destruct (Nat.ltb_spec (String.length str) lastIndex); [done|].
  intros (j & n & Hi & Hn & Ht)%search_text.
  rewrite RegexFacts.substringFrom_length in Hn.
  rewrite RegexFacts.substringFrom_add in Ht.
  exists n. rewrite Hi. split; [lia|done].
Qed.

(** A match is the text of the string at the index of the match, and a
    match that is not empty begins inside the string. *)
Lemma exec_stands re str lastIndex m :
  exec re str lastIndex = Some m ->
  JS.substring0 (JS.substringFrom str (index m)) (JS.length (text m)) = text m /\
  (text m <> "" -> (index m < JS.length str)%nat).
Proof.
  intros (n & Hn & Ht)%exec_text.
  assert (Hlen : JS.length (text m) = n).
  { rewrite Ht. apply substring0_length.
    rewrite RegexFacts.substringFrom_length. lia. }
  rewrite Hlen. split; [done|].
  intros Hne. unfold JS.length.
  destruct n; [|lia]. rewrite Ht in Hne. by destruct (JS.substringFrom _ _).
Qed.

Lemma execLoop_stands re str fuel :
  forall lastIndex ms,
    execLoop fuel re str lastIndex = Some ms ->
    Forall (fun m =>
      JS.substring0 (JS.substringFrom str (index m)) (JS.length (text m)) = text m /\
      (text m <> "" -> (index m < JS.length str)%nat)) ms.
Proof.
  induction fuel as [|fuel IH]; intros lastIndex ms; simpl; [done|].
  destruct (exec re str lastIndex) as [m|] eqn:E.
  - destruct (execLoop fuel re str (stop m)) as [ms'|] eqn:E'; [|done].
    intros [= <-]. constructor; [by eapply exec_stands|by eapply IH].
  - intros [= <-]. constructor.
Qed.

(** What the loop body knows of each match of a pattern that matches no
    empty string. *)
Lemma matchAll_stands re str :
  nullable (source re) = false ->
  Forall (fun m =>
    text m <> "" /\
    (index m < JS.length str)%nat /\
    JS.substring0 (JS.substringFrom str (index m)) (JS.length (text m)) = text m)
    (matchAll re str).
Proof.
  intros Hnull.
  pose proof (RegexFacts.matchAll_nonempty re str Hnull) as Hne.
  assert (Hst : Forall (fun m =>
      JS.substring0 (JS.substringFrom str (index m)) (JS.length (text m)) = text m /\
      (text m <> "" -> (index m < JS.length str)%nat)) (matchAll re str)).
  { unfold matchAll.
    destruct (execLoop (2 + JS.length str) re str 0) as [ms|] eqn:E; simpl.
    - by eapply execLoop_stands.
    - constructor. }
  rewrite Forall_forall in *. intros m Hm.
  destruct (Hst m Hm) as [? Hidx]. specialize (Hne m Hm). auto.
Qed.

End MatchFacts.

(* ================================================================== *)
(** * Properties: the positions of the tokens *)
(* ================================================================== *)

Module PositionFacts.
Import Regex Patterns.

Lemma pushes_impl (Q Q' : Url -> Prop) {A} (m : M A) :
  (forall u, Q u -> Q' u) -> steps (pushes Q) m -> steps (pushes Q') m.
Proof.
  intros HQ Hm h. destruct (Hm h) as (new & Hurls & Hnew).
  exists new. split; [done|]. by eapply Forall_impl.
Qed.

(** A scan whose line of index [i] pushes tokens that satisfy [Q line i]
    returns tokens that each satisfy it for one of the lines. *)
Lemma forEachFrom_lines (Q : string -> nat -> Url -> Prop) (P : Url -> Prop)
    (eachLine : string -> nat -> M unit) :
  (forall l i, steps (pushes (Q l i)) (eachLine l i)) ->
  forall (rest before : list string) (h : Heap),
    (forall i l u, (before ++ rest) !! i = Some l -> Q l i u -> P u) ->
    Forall P (h_urls h) ->
    Forall P (h_urls (forEachFrom (length before) rest eachLine h).2).
Proof.
  intros Hline. induction rest as [|l rest IH]; intros before h HP Hold; [done|].
  cbn [forEachFrom]. unfold bind.
  destruct (Hline l (length before) h) as (new & Hurls & Hnew).
  assert (Hnow : Forall P (h_urls (eachLine l (length before) h).2)).
  { rewrite Hurls. apply Forall_app. split; [done|].
    eapply Forall_impl; [exact Hnew|]. intros u. apply HP.
    by rewrite lookup_app_r, Nat.sub_diag by lia. }
  destruct (eachLine l (length before) h) as [[[]|e] h1]; simpl in *; [|done].
  replace (S (length before)) with (length (before ++ [l]))
    by (rewrite length_app; simpl; lia).
  apply IH; [|done]. intros i l' u. rewrite <- app_assoc. apply HP.
Qed.

Lemma scan_lines (Q : string -> nat -> Url -> Prop)
    (eachLine : string -> nat -> M unit) lines :
  (forall l i, steps (pushes (Q l i)) (eachLine l i)) ->
  Forall (fun u => exists i l, lines !! i = Some l /\ Q l i u)
         (tokensOf (scanner (forEach lines eachLine))).
Proof.
  intros Hline. unfold scanner, forEach.
  pose proof (forEachFrom_lines Q
                (fun u => exists i l, lines !! i = Some l /\ Q l i u)
                eachLine Hline lines [] emptyHeap) as H.
  simpl in H.
  destruct (forEachFrom 0 lines eachLine emptyHeap) as [[[]|e] h]; simpl in *;
    [|constructor].
  apply H; [|constructor]. intros i l u ? ?. by exists i, l.
Qed.

Lemma StronglySorted_le_app (l1 l2 : list nat) (n : nat) :
  StronglySorted le l1 -> Forall (fun x => x <= n)%nat l1 ->
  Forall (fun x => x = S n) l2 ->
  StronglySorted le (l1 ++ l2).
Proof.
  intros Hs Hle Hnew. induction Hs as [|x l1 Hs IH Hx]; simpl.
  - induction Hnew as [|y l2 -> Hnew IH]; constructor; [done|].
    eapply Forall_impl; [exact Hnew|]. intros ? ->. lia.
  - apply Forall_cons in Hle as [Hxn Hle].
    constructor; [by apply IH|].
    apply Forall_app. split; [done|].
    eapply Forall_impl; [exact Hnew|]. intros ? ->. lia.
Qed.

(** The tokens of such a scan stand in the order of their lines. *)
Lemma forEachFrom_sorted (eachLine : string -> nat -> M unit) :
  (forall l i, steps (pushes (fun u => lineOf u = S i)) (eachLine l i)) ->
  forall (rest : list string) (i : nat) (h : Heap),
    Forall (fun u => lineOf u <= i)%nat (h_urls h) ->
    StronglySorted le (lineOf <$> h_urls h) ->
    StronglySorted le
      (lineOf <$> h_urls (forEachFrom i rest eachLine h).2).
Proof.
  intros Hline. induction rest as [|l rest IH]; intros i h Hle Hs; [done|].
  cbn [forEachFrom]. unfold bind.
  destruct (Hline l i h) as (new & Hurls & Hnew).
  assert (Hnow : StronglySorted le (lineOf <$> h_urls (eachLine l i h).2) /\
                 Forall (fun u => lineOf u <= S i)%nat (h_urls (eachLine l i h).2)).
  { rewrite Hurls. split.
    - rewrite fmap_app. apply (StronglySorted_le_app _ _ i).
      + done.
      + by apply Forall_fmap.
      + by apply Forall_fmap.
    - apply Forall_app. split.
      + eapply Forall_impl; [exact Hle|]. intros u ?. simpl in *. lia.
      + eapply Forall_impl; [exact Hnew|]. intros u Hu. simpl in *. lia. }
  destruct Hnow as [Hs' Hle'].
  destruct (eachLine l i h) as [[[]|e] h1]; simpl in *; [|done].
  by apply IH.
Qed.

Lemma scan_sorted (eachLine : string -> nat -> M unit) lines :
  (forall l i, steps (pushes (locatedOn l i)) (eachLine l i)) ->
  StronglySorted le (lineOf <$> tokensOf (scanner (forEach lines eachLine))).
Proof.
  intros Hline. unfold scanner, forEach.
  assert (Hline' : forall l i,
            steps (pushes (fun u => lineOf u = S i)) (eachLine l i)).
  { intros l i. eapply pushes_impl; [|apply Hline].
    intros u (col & Hpos & _). unfold lineOf. rewrite Hpos. simpl. lia. }
  pose proof (forEachFrom_sorted eachLine Hline' lines 0 emptyHeap) as H.
  destruct (forEachFrom 0 lines eachLine emptyHeap) as [[[]|e] h]; simpl in *;
    [|constructor].
  apply H; constructor.
Qed.

(** ** Tokens built from a match *)

Lemma plainUrl_located re (label : string -> UrlProtocol) line i :
  nullable (source re) = false ->
  Forall (fun m => locatedOn line i (plainUrl (label (text m)) line i m) /\
                   standsAt line i (plainUrl (label (text m)) line i m))
         (matchAll re line).
Proof.
  intros Hnull. eapply Forall_impl; [by apply MatchFacts.matchAll_stands|].
  intros m (_ & Hidx & Htext). split; exists (index m); by repeat split.
Qed.

(** The loop over the matches of a pattern, given what is known of each
    match. *)
Lemma forOf_matches (Q : Url -> Prop) re line (body : Match -> M unit) :
  nullable (source re) = false ->
  (forall m, text m <> "" -> (index m < JS.length line)%nat ->
             JS.substring0 (JS.substringFrom line (index m)) (JS.length (text m))
               = text m ->
             steps (pushes Q) (body m)) ->
  steps (pushes Q) (forOf (matchAll re line) body).
Proof.
  intros Hnull Hbody. apply (LabelFacts.steps_forOf_Forall (pushes Q)).
  eapply Forall_impl; [by apply MatchFacts.matchAll_stands|].
  intros m (? & ? & ?). by apply Hbody.
Qed.

(** A token built from a match satisfies [locatedOn] and [standsAt] by
    what is known of the match. *)
Ltac token :=
  first [ apply LabelFacts.push_pushes | apply LabelFacts.addIfNew_pushes ];
  eexists; split; [reflexivity|split; [eassumption|reflexivity]].

Ltac walk Q :=
  repeat first
    [ apply LabelFacts.logExtractionError_pushes
    | by apply LabelFacts.quiet_pushes
    | apply (forOf_matches Q); [reflexivity|intros ? ? ? ?]
    | lazymatch goal with
      | |- steps _ (forOf (cons _ _) _) =>
          apply (LabelFacts.steps_forOf_Forall (pushes Q));
          repeat first [ apply Forall_nil_2 | apply Forall_cons; split ];
          cbn [fst snd Html.pattern Html.requiresValidation]
      end
    | token
    | scan_step (pushes Q) ].

Lemma yaml_located line i :
  steps (pushes (locatedOn line i)) (guardedLine Yaml.processLine line i).
Proof.
  unfold guardedLine, Yaml.processLine, pushEachMatch, plainUrl, positionOf.
  walk (locatedOn line i).
Qed.

Lemma yaml_stands line i :
  steps (pushes (standsAt line i)) (guardedLine Yaml.processLine line i).
Proof.
  unfold guardedLine, Yaml.processLine, pushEachMatch, plainUrl, positionOf.
  walk (standsAt line i).
Qed.

Lemma css_located line i :
  steps (pushes (locatedOn line i)) (guardedLine Css.processLine line i).
Proof.
  unfold guardedLine, Css.processLine, pushEachMatch, plainUrl, positionOf.
  walk (locatedOn line i).
Qed.

Lemma css_stands line i :
  steps (pushes (standsAt line i)) (guardedLine Css.processLine line i).
Proof.
  unfold guardedLine, Css.processLine, pushEachMatch, plainUrl, positionOf.
  walk (standsAt line i).
Qed.

Lemma json_patterns (Q : Url -> Prop) line i :
  (forall config, config ∈ Json.PATTERNS ->
     steps (pushes Q) (Json.extractUrlsByPattern line i config)) ->
  steps (pushes Q) (Json.extractUrlsFromLine line i).
Proof.
  intros H. unfold Json.extractUrlsFromLine.
  apply (ScanFacts.steps_try_catch (pushes Q));
    [|intros e; apply LabelFacts.logExtractionError_pushes].
  apply (LabelFacts.steps_forOf_Forall (pushes Q)).
  by apply Forall_forall.
Qed.

Lemma json_located line i :
  steps (pushes (locatedOn line i)) (Json.extractUrlsFromLine line i).
Proof.
  apply json_patterns. intros config Hconfig.
  unfold Json.PATTERNS in Hconfig.
  repeat (apply elem_of_cons in Hconfig as [->|Hconfig]);
    try (by apply elem_of_nil in Hconfig);
    unfold Json.extractUrlsByPattern, Json.createUrl, pushEachMatch; simpl;
    walk (locatedOn line i).
Qed.

Lemma json_stands line i :
  steps (pushes (standsAt line i)) (Json.extractUrlsFromLine line i).
Proof.
  apply json_patterns. intros config Hconfig.
  unfold Json.PATTERNS in Hconfig.
  repeat (apply elem_of_cons in Hconfig as [->|Hconfig]);
    try (by apply elem_of_nil in Hconfig);
    unfold Json.extractUrlsByPattern, Json.createUrl, pushEachMatch; simpl;
    walk (standsAt line i).
Qed.

Lemma properties_located line i :
  steps (pushes (locatedOn line i)) (guardedLine Properties.processLine line i).
Proof.
  unfold guardedLine, Properties.processLine, pushEachMatch, plainUrl,
    positionOf.
  walk (locatedOn line i).
Qed.

(** A token of the properties scanner also comes from a line that is not
    skipped. *)
Lemma properties_stands line i :
  steps (pushes (fun u => standsAt line i u /\ isSkippedProperty line = false))
        (guardedLine Properties.processLine line i).
Proof.
  unfold guardedLine, Properties.processLine, isSkippedProperty.
  destruct (JS.startsWith (JS.trim line) "#" || JS.startsWith (JS.trim line) "!"
            || String.eqb (JS.trim line) "") eqn:E.
  - apply (ScanFacts.steps_try_catch (pushes _));
      [apply (ScanFacts.steps_ret (pushes _))
      |intros e; apply LabelFacts.logExtractionError_pushes].
  - eapply pushes_impl; [intros u Hu; split; [exact Hu|reflexivity]|].
    unfold pushEachMatch, plainUrl, positionOf.
    walk (standsAt line i).
Qed.

Lemma xml_located line i :
  steps (pushes (locatedOn line i)) (guardedLine Xml.processLine line i).
Proof.
  unfold guardedLine, Xml.processLine, pushEachMatch, plainUrl, positionOf.
  walk (locatedOn line i).
Qed.

Lemma javascript_located line i :
  steps (pushes (locatedOn line i)) (guardedLine JavaScript.processLine line i).
Proof.
  unfold guardedLine, JavaScript.processLine, JavaScript.addEachMatch,
    plainUrl, positionOf.
  walk (locatedOn line i).
Qed.

Lemma markdown_located URL_new line i :
  steps (pushes (locatedOn line i)) (Markdown.eachLine URL_new line i).
Proof.
  unfold Markdown.eachLine, Markdown.setInCodeBlock,
    Markdown.extractUrlsFromLine, Markdown.extractMarkdownLinks,
    Markdown.extractAutolinks, Markdown.extractPlainUrls,
    Markdown.extractByPattern, Markdown.addUrlIfNew, Markdown.createUrl.
  cbv zeta. walk (locatedOn line i).
Qed.

Lemma html_located URL_new line i :
  steps (pushes (locatedOn line i)) (Html.extractUrlsFromLine URL_new line i).
Proof.
  unfold Html.extractUrlsFromLine, Html.extractFromAttributes,
    Html.extractPlainUrls, Html.extractByAttributePattern,
    Html.extractByPlainPattern, Html.addUrlIfNew, Html.createUrl,
    Html.ATTRIBUTE_PATTERNS, Html.PLAIN_URL_PATTERNS.
  walk (locatedOn line i).
Qed.

End PositionFacts.

(** X3 — every token of the eight line-oriented scanners carries a position
    inside the document: its line is one of the lines of the document,
    its column lies inside that line, and its context is that line,
    trimmed.  The tokens come out in the order of their lines. *)
Theorem line_scanners_locate_their_tokens
    (URL_new : string -> Exc URL) (content : string) :
  Forall
    (fun scan =>
       Forall (fun u => exists i l,
                 JS.splitLines content !! i = Some l /\ locatedOn l i u)
              (tokensOf scan) /\
       StronglySorted le (lineOf <$> tokensOf scan))
    [ Yaml.extractFromYaml content;
      Css.extractFromCss content;
      Json.extractFromJson content;
      Properties.extractFromProperties content;
      Xml.extractFromXml content;
      JavaScript.extractFromJavaScript content;
      Markdown.extractFromMarkdown URL_new content;
      Html.extractFromHtml URL_new content ].
Proof.
  repeat (apply Forall_cons; split); [..|apply Forall_nil_2];
    (split; [apply PositionFacts.scan_lines|apply PositionFacts.scan_sorted]);
    intros l i;
    first [ apply PositionFacts.yaml_located
          | apply PositionFacts.css_located
          | apply PositionFacts.json_located
          | apply PositionFacts.properties_located
          | apply PositionFacts.xml_located
          | apply PositionFacts.javascript_located
          | apply PositionFacts.markdown_located
          | apply PositionFacts.html_located ].
Qed.

(** X4 — the position of a token of the YAML, CSS, JSON or properties scanner
    points at its value: the text of the token's line from the token's
    column on begins with the value.  The properties scanner takes no
    token from a line it skips (a comment or a blank line). *)
Theorem plain_scanners_point_at_the_value (content : string) :
  Forall
    (fun scan =>
       Forall (fun u => exists i l,
                 JS.splitLines content !! i = Some l /\ standsAt l i u)
              (tokensOf scan))
    [ Yaml.extractFromYaml content;
      Css.extractFromCss content;
      Json.extractFromJson content;
      Properties.extractFromProperties content ] /\
  Forall (fun u => exists i l,
            JS.splitLines content !! i = Some l /\ standsAt l i u /\
            isSkippedProperty l = false)
         (tokensOf (Properties.extractFromProperties content)).
Proof.
  split.
  - repeat (apply Forall_cons; split); [..|apply Forall_nil_2];
      apply PositionFacts.scan_lines; intros l i;
      first [ apply PositionFacts.yaml_stands
            | apply PositionFacts.css_stands
            | apply PositionFacts.json_stands
            | eapply PositionFacts.pushes_impl;
                [|apply PositionFacts.properties_stands];
                by intros u [? _] ].
  - eapply Forall_impl;
      [apply (PositionFacts.scan_lines
                (fun l i u => standsAt l i u /\ isSkippedProperty l = false));
       intros l i; apply PositionFacts.properties_stands|].
    intros u (i & l & ? & ? & ?). by exists i, l.
Qed.

(* ================================================================== *)
(** * Properties: the dispatcher and the extract command *)
(* ================================================================== *)

Module CommandFacts.
Import Extract.

(** No scanner of the engine emits a token with an empty value. *)
Lemma engine_tokens_nonEmpty URL_new parseToml parseIni fileType content :
  Forall nonEmpty
    (tokensOf (selectExtractor
                 (extractors := Engine.extractors URL_new parseToml parseIni)
                 fileType content)).
Proof.
  assert (Hweb : forall u, parserLabelled URL_new u -> nonEmpty u)
    by (by intros u [? _]).
  assert (Hwell : forall u, wellLabelled u -> nonEmpty u)
    by (by intros u [? _]).
  destruct fileType;
    unfold selectExtractor, Engine.extractors;
    cbn [extractFromCss extractFromHtml extractFromIni extractFromJavaScript
         extractFromJson extractFromMarkdown extractFromProperties
         extractFromToml extractFromXml extractFromYaml];
    first
      [ apply LabelFacts.scan_pushes;
          first [ apply LabelFacts.yaml_line | apply LabelFacts.css_line
                | apply LabelFacts.json_line ]
      | eapply Forall_impl; [|exact Hweb]; apply LabelFacts.scan_pushes;
          first [ apply LabelFacts.markdown_line | apply LabelFacts.html_line ]
      | eapply Forall_impl; [|exact Hwell];
          first [ apply LabelFacts.scan_pushes;
                    first [ apply LabelFacts.properties_line
                          | apply LabelFacts.xml_line
                          | apply LabelFacts.javascript_line ]
                | apply LabelFacts.extractStructured_wellLabelled ] ].
Qed.

Lemma Forall_take {A} (P : A -> Prop) n l : Forall P l -> Forall P (take n l).
Proof.
  intros H. revert n. induction H as [|x l Hx _ IH]; intros [|n]; simpl;
    constructor; auto.
Qed.

Lemma formatUrls_all urls success errors fileType :
  Forall nonEmpty urls ->
  ExtractCommand.formatUrls (mkExtractionResult success urls errors fileType)
    = value <$> urls.
Proof.
  unfold ExtractCommand.formatUrls. simpl. intros H. f_equal.
  induction H as [|u urls Hu _ IH]; simpl; [done|].
  destruct (String.eqb_spec (value u) ""); [done|]. simpl. by rewrite IH.
Qed.

End CommandFacts.



(** X6 — the safety check of the extract command stands before the size
    ceiling of the dispatcher: when the check is enabled with a threshold
    of at most 10,000,000 and lets a document pass, the dispatcher does not
    answer with the size-exceeded error.  A document of exactly the
    threshold's size passes; a document refused is refused with a message
    that names its size and the threshold. *)
Theorem safety_check_stands_before_the_size_ceiling
    (extractors : Extractors) (now : Z) (text languageId : string)
    (token : option CancellationToken) (config : Configuration) :
  safetyEnabled config = true ->
  safetyFileSizeWarnBytes config <= Extract.MAX_CONTENT_SIZE ->
  (contentLength text <= safetyFileSizeWarnBytes config <->
   Safety.proceed (Safety.handleSafetyChecks text config) = true) /\
  (Safety.proceed (Safety.handleSafetyChecks text config) = true ->
   exists r,
     Extract.extractUrls now text languageId token = Ok r /\
     sizeExceededError now text ∉ errors r) /\
  (Safety.proceed (Safety.handleSafetyChecks text config) = false ->
   Safety.safety_message (Safety.handleSafetyChecks text config)
     = "File size (" +:+ JS.showZ (contentLength text)
         +:+ " bytes) exceeds safety threshold ("
         +:+ JS.showZ (safetyFileSizeWarnBytes config) +:+ " bytes)").
Proof.
  intros Hon Hth. unfold Safety.handleSafetyChecks, Safety.getContentSize.
  rewrite Hon. simpl.
  destruct (Z.ltb_spec (safetyFileSizeWarnBytes config) (contentLength text))
    as [Hbig|Hfits]; simpl.
  - split; [split; [lia|discriminate]|]. split; [discriminate|done].
  - split; [done|]. split; [|discriminate]. intros _.
    unfold Extract.extractUrls.
    destruct (Extract.cancellationRequested token).
    { eexists. split; [reflexivity|]. simpl. by intros ?%elem_of_nil. }
    rewrite (proj2 (Z.ltb_ge _ _)) by lia.
    rewrite DispatchFacts.extractUrlsByFileType_returns.
    destruct (Extract.selectExtractor _ text) as [scanned|e]; simpl.
    + destruct (_ <? _); eexists; (split; [reflexivity|]); simpl.
      * intros [=]%list_elem_of_singleton.
      * by intros ?%elem_of_nil.
    + eexists. split; [reflexivity|]. simpl.
      intros [=]%list_elem_of_singleton.
Qed.

(** X6 at the default threshold of 1,000,000. *)
Lemma safety_check_stands_before_the_size_ceiling_witness :
  let config :=
    mkConfiguration false false "silent" false false true 1000000 50000 8
                    false true false in
  Safety.proceed (Safety.handleSafetyChecks "a: https://a.com" config) = true /\
  exists r,
    Extract.extractUrls (extractors := Examples.engine) 0
      "a: https://a.com" "yaml" None = Ok r /\
    sizeExceededError 0 "a: https://a.com" ∉ errors r.
Proof.
  intros config.
  pose proof (safety_check_stands_before_the_size_ceiling Examples.engine 0
                "a: https://a.com" "yaml" None config eq_refl)
    as (_ & Hpass & _).
  - unfold Extract.MAX_CONTENT_SIZE. simpl. lia.
  - split; [reflexivity|]. apply Hpass. reflexivity.
Defined.

(** X7 — what the extract command lists.  For every document, language id and
    platform, the lines it displays are the values of all the tokens of
    the result, none dropped, and there are at most 50,000 of them. *)
Theorem extract_command_lists_every_token
    (URL_new : string -> Exc URL) (parseToml parseIni : string -> Exc Value)
    (now : Z) (content languageId : string) (token : option CancellationToken) :
  exists r,
    Extract.extractUrls
      (extractors := Engine.extractors URL_new parseToml parseIni)
      now content languageId token = Ok r /\
    ExtractCommand.formatUrls r = value <$> urls r /\
    Z.of_nat (length (ExtractCommand.formatUrls r)) <= Extract.MAX_URL_COUNT.
Proof.
  unfold Extract.extractUrls.
  destruct (Extract.cancellationRequested token).
  { eexists. split; [reflexivity|]. split; [done|]. simpl.
    unfold Extract.MAX_URL_COUNT. lia. }
  destruct (_ <? _).
  { eexists. split; [reflexivity|]. split; [done|]. simpl.
    unfold Extract.MAX_URL_COUNT. lia. }
  rewrite DispatchFacts.extractUrlsByFileType_returns.
  pose proof (CommandFacts.engine_tokens_nonEmpty URL_new parseToml parseIni
                (Extract.determineFileType languageId) content) as Hne.
  destruct (Extract.selectExtractor _ content) as [scanned|e]; simpl in *.
  - destruct (Z.ltb_spec Extract.MAX_URL_COUNT (Z.of_nat (length scanned)));
      eexists; (split; [reflexivity|]).
    + unfold Extract.createTruncatedResult.
      rewrite CommandFacts.formatUrls_all by by apply CommandFacts.Forall_take.
      split; [done|]. rewrite length_fmap.
      rewrite DispatchFacts.truncated_length by done. lia.
    + unfold Extract.createSuccessResult.
      rewrite CommandFacts.formatUrls_all by done.
      split; [done|]. by rewrite length_fmap.
  - eexists. split; [reflexivity|]. split; [done|]. simpl.
    unfold Extract.MAX_URL_COUNT. lia.
Qed.


(* ================================================================== *)
(** * Properties: collecting from parsed data *)
(* ================================================================== *)

Module CollectFacts.
Import CollectValues.


(** Both classifiers first trim, so they do not tell a string from its
    trimmed text. *)
Lemma classifyUrlProtocol_trim s :
  Collect.classifyUrlProtocol (JS.trim s) = Collect.classifyUrlProtocol s.
Proof. unfold Collect.classifyUrlProtocol. by rewrite StringFacts.trim_idempotent. Qed.

Lemma classifyUrlType_trim s : classifyUrlType (JS.trim s) = classifyUrlType s.
Proof. unfold classifyUrlType. by rewrite StringFacts.trim_idempotent. Qed.

Lemma isUrlLike_trim s : isUrlLike (JS.trim s) = isUrlLike s.
Proof.
  unfold isUrlLike. rewrite StringFacts.trim_idempotent.
  destruct (JS.length s =? 0)%nat eqn:Es.
  - apply Nat.eqb_eq in Es. by destruct s.
  - destruct (JS.length (JS.trim s) =? 0)%nat; done.
Qed.

(** The token the collectors build for a URL-like string [s], whether
    they store it as it is or trimmed. *)
Lemma token_classified s v pos ctx :
  v = s \/ v = JS.trim s ->
  isUrlLike s = true ->
  let u := mkUrl v (Collect.classifyUrlProtocol s) (Some (classifyUrlType s))
                 None None pos ctx in
  isUrlLike (value u) = true /\ classifiedByValue u.
Proof.
  intros [-> | ->] Hs; simpl; unfold classifiedByValue; simpl.
  - done.
  - by rewrite isUrlLike_trim, classifyUrlProtocol_trim, classifyUrlType_trim.
Qed.

Lemma collectUrls_classified :
  forall obj ctx,
    Forall (fun u => isUrlLike (value u) = true /\ classifiedByValue u)
           (collectUrls obj ctx).
Proof.
  fix IH 1. intros [s|items|entries|] ctx; simpl.
  - destruct (isUrlLike s) eqn:Hs; [|constructor].
    constructor; [|constructor]. apply (token_classified s); auto.
  - generalize 0%nat. induction items as [|item items IHitems]; intros i;
      [constructor|].
    apply Forall_app. split; [apply IH|apply IHitems].
  - induction entries as [|[key v] entries IHentries]; [constructor|].
    apply Forall_app. split; [apply IH|apply IHentries].
  - constructor.
Qed.

Lemma collectUrlsFromArrayAt_classified items ctx :
  forall i,
    Forall (fun u => isUrlLike (value u) = true /\ classifiedByValue u)
           (collectUrlsFromArrayAt i items ctx).
Proof.
  induction items as [|item items IH]; intros i; simpl; [constructor|].
  apply Forall_app. split; [|apply IH].
  destruct (isUrlLike item) eqn:Hs; [|constructor].
  constructor; [|constructor]. apply (token_classified item); auto.
Qed.

Lemma collectUrlsFromKeyValue_classified obj ctx :
  Forall (fun u => isUrlLike (value u) = true /\ classifiedByValue u)
         (collectUrlsFromKeyValue obj ctx).
Proof.
  induction obj as [|[key v] obj IH]; simpl; [constructor|].
  apply Forall_app. split; [|apply IH].
  destruct v as [s|items|entries|].
  - destruct (isUrlLike s) eqn:Hs; [|constructor].
    constructor; [|constructor]. apply (token_classified s); auto.
  - apply collectUrlsFromArrayAt_classified.
  - apply collectUrls_classified.
  - constructor.
Qed.


(** The tokens of [collectUrlsFromArray] by the index of their item. *)
Lemma collectUrlsFromArrayAt_items items ctx :
  forall i0,
    Forall (fun u => exists i item,
              items !! i = Some item /\ isUrlLike item = true /\
              value u = JS.trim item /\
              position u = Some (mkPosition (i0 + i + 1) 1) /\
              context u = Some (indexContext ctx (i0 + i)))
           (collectUrlsFromArrayAt i0 items ctx) /\
    value <$> collectUrlsFromArrayAt i0 items ctx
      = JS.trim <$> List.filter isUrlLike items /\
    Forall (fun n => i0 < n)%nat (lineOf <$> collectUrlsFromArrayAt i0 items ctx) /\
    StronglySorted lt (lineOf <$> collectUrlsFromArrayAt i0 items ctx).
Proof.
  induction items as [|item items IH]; intros i0; cbn [collectUrlsFromArrayAt].
  - repeat split; constructor.
  - destruct (IH (S i0)) as (Hitems & Hvalues & Hlines & Hsorted).
    assert (Hrest : Forall (fun u => exists i item0,
              (item :: items) !! i = Some item0 /\ isUrlLike item0 = true /\
              value u = JS.trim item0 /\
              position u = Some (mkPosition (i0 + i + 1) 1) /\
              context u = Some (indexContext ctx (i0 + i)))
           (collectUrlsFromArrayAt (S i0) items ctx)).
    { eapply Forall_impl; [exact Hitems|].
      intros u (i & item0 & ? & ? & ? & Hpos & Hctx).
      exists (S i), item0. repeat split; try done.
      - rewrite Hpos. do 2 f_equal. lia.
      - rewrite Hctx. do 2 f_equal. lia. }
    assert (Hlines' : Forall (fun n => i0 < n)%nat
              (lineOf <$> collectUrlsFromArrayAt (S i0) items ctx)).
    { eapply Forall_impl; [exact Hlines|]. intros n ?. simpl in *. lia. }
    cbn [List.filter]. destruct (isUrlLike item) eqn:Hs; cbn [app].
    + rewrite !fmap_cons, Hvalues.
      split; [|split; [done|split]].
      * constructor; [|done]. exists 0%nat, item.
        rewrite !Nat.add_0_r. by repeat split.
      * constructor; [|done]. unfold lineOf. simpl. lia.
      * constructor; [done|]. unfold lineOf at 1. simpl.
        eapply Forall_impl; [exact Hlines|]. intros n ?. simpl in *. lia.
    + by repeat split.
Qed.

End CollectFacts.

(** X9 — the two classifiers of [collect.ts] agree: a string whose protocol is
    recognized has the name of that protocol as its type, and a string
    whose protocol is [unknown] has none of the six names as its type.
    Neither tells a string from its trimmed text. *)
Theorem type_and_protocol_classifiers_agree (url : string) :
  (Collect.classifyUrlProtocol url <> unknown ->
   CollectValues.classifyUrlType url
     = protocolName (Collect.classifyUrlProtocol url)) /\
  (Collect.classifyUrlProtocol url = unknown ->
   CollectValues.classifyUrlType url
     ∉ ["https"; "http"; "ftp"; "file"; "mailto"; "tel"]) /\
  Collect.classifyUrlProtocol (JS.trim url) = Collect.classifyUrlProtocol url /\
  CollectValues.classifyUrlType (JS.trim url) = CollectValues.classifyUrlType url.
Proof.
  split; [|split; [|split]];
    [| |apply CollectFacts.classifyUrlProtocol_trim
       |apply CollectFacts.classifyUrlType_trim].
  all: unfold Collect.classifyUrlProtocol, CollectValues.classifyUrlType;
    generalize (JS.toLowerCase (JS.trim url)); intros t.
  all: destruct (JS.startsWith t "https://") eqn:E1; [done|].
  all: destruct (JS.startsWith t "http://") eqn:E2; [done|].
  all: destruct (JS.startsWith t "ftp://") eqn:E3; [done|].
  all: destruct (JS.startsWith t "ftps://") eqn:E4;
    [apply LabelFacts.startsWith_append in E4 as [rest ->]; vm_compute;
     first [done|intros _; set_solver]|].
  all: destruct (JS.startsWith t "file://") eqn:E5; [done|].
  all: destruct (JS.startsWith t "mailto:") eqn:E6; [done|].
  all: destruct (JS.startsWith t "tel:") eqn:E7; [done|].
  - done.
  - intros _.
    repeat match goal with
           | |- context [if ?b then _ else _] => destruct b
           end; set_solver.
Qed.

(** X10 — every token of the three collectors has a value that is URL-like,
    and a protocol and a type that are the classifications of that value,
    whether the collector stored the string as it was ([collectUrls]) or
    trimmed (the other two). *)
Theorem collectors_classify_the_stored_value
    (obj : Value) (items : list string) (entries : list (string * Value))
    (ctx : string) :
  Forall
    (Forall (fun u => CollectValues.isUrlLike (value u) = true /\
                      classifiedByValue u))
    [ CollectValues.collectUrls obj ctx;
      CollectValues.collectUrlsFromArray items ctx;
      CollectValues.collectUrlsFromKeyValue entries ctx ].
Proof.
  repeat constructor.
  - apply CollectFacts.collectUrls_classified.
  - apply CollectFacts.collectUrlsFromArrayAt_classified.
  - apply CollectFacts.collectUrlsFromKeyValue_classified.
Qed.


(** X12 — [collectUrlsFromArray] returns one token for each URL-like item, with
    the item trimmed as its value, the index of the item plus one as its
    line, and the index in its context; the lines strictly increase. *)
Theorem collectUrlsFromArray_numbers_the_items
    (items : list string) (ctx : string) :
  let tokens := CollectValues.collectUrlsFromArray items ctx in
  Forall (fun u => exists i item,
            items !! i = Some item /\ CollectValues.isUrlLike item = true /\
            value u = JS.trim item /\
            position u = Some (mkPosition (i + 1) 1) /\
            context u = Some (CollectValues.indexContext ctx i))
         tokens /\
  value <$> tokens = JS.trim <$> List.filter CollectValues.isUrlLike items /\
  StronglySorted lt (lineOf <$> tokens).
Proof.
  destruct (CollectFacts.collectUrlsFromArrayAt_items items ctx 0)
    as (Hitems & Hvalues & _ & Hsorted).
  split; [|by split]. exact Hitems.
Qed.

(* ================================================================== *)
(** * Properties: grouping *)
(* ================================================================== *)

Module GroupFacts.
Import CollectGroups.

Lemma pushToGroup_returns groups key url :
  key ∉ OBJECT_PROTOTYPE_KEYS ->
  pushToGroup groups key url
    = Ok (<[key := groupOf groups key ++ [url]]> groups).
Proof.
  intros Hkey. unfold pushToGroup, groupOf.
  destruct (groups !! key); simpl; [done|].
  by rewrite bool_decide_false.
Qed.

Lemma pushToGroup_throws groups key url :
  cleanKeys groups -> key ∈ OBJECT_PROTOTYPE_KEYS ->
  exists e, pushToGroup groups key url = Throw e.
Proof.
  intros Hclean Hkey. unfold pushToGroup. rewrite (Hclean key Hkey).
  rewrite bool_decide_true by done. by eexists.
Qed.

Lemma groupOf_insert groups key group k :
  groupOf (<[key := group]> groups) k
    = if decide (k = key) then group else groupOf groups k.
Proof.
  unfold groupOf. destruct (decide (k = key)) as [->|Hne].
  - by rewrite lookup_insert_eq.
  - by rewrite lookup_insert_ne.
Qed.

Lemma cleanKeys_insert groups key group :
  cleanKeys groups -> key ∉ OBJECT_PROTOTYPE_KEYS ->
  cleanKeys (<[key := group]> groups).
Proof.
  intros Hclean Hkey k Hk. rewrite lookup_insert_ne; [by apply Hclean|].
  by intros ->.
Qed.

(** A loop that files each token under the key [keyOf] gives it, and
    throws at a token that has none. *)
Section Loop.
Variable step : gmap string (list Url) -> Url -> Exc (gmap string (list Url)).
Variable loop :
  list Url -> gmap string (list Url) -> Exc (gmap string (list Url)).
Variable keyOf : Url -> option string.
Hypothesis loop_nil : forall groups, loop [] groups = Ok groups.
Hypothesis loop_cons :
  forall url rest groups,
    loop (url :: rest) groups = bindE (step groups url) (loop rest).
Hypothesis step_files :
  forall groups url key,
    cleanKeys groups -> keyOf url = Some key ->
    (key ∉ OBJECT_PROTOTYPE_KEYS) /\
    step groups url = pushToGroup groups key url.
Hypothesis step_throws :
  forall groups url,
    cleanKeys groups -> keyOf url = None -> exists e, step groups url = Throw e.

Lemma loop_groups urls :
  forall groups,
    cleanKeys groups ->
    Forall (fun u => keyOf u <> None) urls ->
    exists groups',
      loop urls groups = Ok groups' /\
      cleanKeys groups' /\
      (forall k, groupOf groups' k
                 = groupOf groups k ++ filter (fun u => keyOf u = Some k) urls) /\
      (forall k, groups' !! k = None <->
                 groups !! k = None /\ Forall (fun u => keyOf u <> Some k) urls).
Proof.
  induction urls as [|url urls IH]; intros groups Hclean Hkeys.
  - exists groups. rewrite loop_nil. split; [done|]. split; [done|].
    split; [intros k; by rewrite app_nil_r|]. intros k. split; [by split|].
    by intros [? _].
  - apply Forall_cons in Hkeys as [Hurl Hkeys].
    destruct (keyOf url) as [key|] eqn:Ekey; [|done].
    destruct (step_files groups url key Hclean Ekey) as [Hkey Hstep].
    rewrite loop_cons, Hstep, pushToGroup_returns by done. simpl.
    destruct (IH (<[key := groupOf groups key ++ [url]]> groups))
      as (groups' & Hloop & Hclean' & Hgroup & Hnone);
      [by apply cleanKeys_insert|done|].
    exists groups'. split; [done|]. split; [done|]. split.
    + intros k. rewrite Hgroup, groupOf_insert, filter_cons, Ekey.
      destruct (decide (k = key)) as [->|Hne].
      * rewrite decide_True by done. by rewrite <- app_assoc.
      * rewrite decide_False by congruence. done.
    + intros k. rewrite Hnone, Forall_cons, Ekey.
      destruct (decide (k = key)) as [->|Hne].
      * rewrite lookup_insert_eq. split; [by intros [? _]|]. by intros (_ & ? & _).
      * rewrite lookup_insert_ne by done. split.
        -- intros [? ?]. repeat split; [done| |done]. congruence.
        -- by intros (? & _ & ?).
Qed.

Lemma loop_throws urls :
  forall groups,
    cleanKeys groups ->
    Exists (fun u => keyOf u = None) urls ->
    exists e, loop urls groups = Throw e.
Proof.
  induction urls as [|url urls IH]; intros groups Hclean Hkeys.
  - by apply Exists_nil in Hkeys.
  - rewrite loop_cons.
    destruct (keyOf url) as [key|] eqn:Ekey.
    + destruct (step_files groups url key Hclean Ekey) as [Hkey Hstep].
      rewrite Hstep, pushToGroup_returns by done. simpl.
      apply IH; [by apply cleanKeys_insert|].
      apply Exists_cons in Hkeys as [Hurl|?]; [congruence|done].
    + destruct (step_throws groups url Hclean Ekey) as [e ->]. by exists e.
Qed.
End Loop.

Lemma cleanKeys_empty : cleanKeys ∅.
Proof. intros k _. apply lookup_empty. Qed.

(** [filterUrlsByType] for one type other than [unknown] is the filter on
    [type || 'unknown']. *)
Lemma filterUrlsByType_typeOf urls k :
  k <> "unknown" ->
  filterUrlsByType urls [k] = filter (fun u => Collect.typeOf u = k) urls.
Proof.
  intros Hk. unfold filterUrlsByType.
  induction urls as [|u urls IH]; [done|].
  cbn [List.filter]. rewrite filter_cons, IH.
  assert (E : hasTypeIn [k] u = bool_decide (Collect.typeOf u = k)).
  { unfold hasTypeIn, Collect.typeOf.
    destruct (type u) as [[|c t]|]; simpl.
    - by rewrite bool_decide_false by congruence.
    - apply bool_decide_ext. rewrite list_elem_of_singleton. done.
    - by rewrite bool_decide_false by congruence. }
  rewrite E. by case_bool_decide; [rewrite decide_True|rewrite decide_False].
Qed.

End GroupFacts.

(** X13 — [groupUrlsByType] files every token under its type, or under
    [unknown] when it has none: the array under a key holds the tokens of
    that type in their original order, a key is absent exactly when no
    token has that type, and for a type other than [unknown] the array is
    what [filterUrlsByType] returns for that type.  This holds when no
    type is the name of a property every object inherits ([constructor],
    [toString], ...); at a token with such a type the function throws. *)
Theorem groupUrlsByType_files_by_type (urls : list Url) :
  (Forall (fun u => Collect.typeOf u ∉ CollectGroups.OBJECT_PROTOTYPE_KEYS) urls ->
   exists groups,
     CollectGroups.groupUrlsByType urls = Ok groups /\
     (forall k, groupOf groups k = filter (fun u => Collect.typeOf u = k) urls) /\
     (forall k, groups !! k = None <->
                Forall (fun u => Collect.typeOf u <> k) urls) /\
     (forall k, k <> "unknown" ->
                groupOf groups k = CollectGroups.filterUrlsByType urls [k])) /\
  (Exists (fun u => Collect.typeOf u ∈ CollectGroups.OBJECT_PROTOTYPE_KEYS) urls ->
   exists e, CollectGroups.groupUrlsByType urls = Throw e).
Proof.
  assert (Hfiles : forall groups url key,
            cleanKeys groups -> typeKey url = Some key ->
            (key ∉ CollectGroups.OBJECT_PROTOTYPE_KEYS) /\
            CollectGroups.pushToGroup groups (Collect.typeOf url) url
              = CollectGroups.pushToGroup groups key url).
  { intros groups url key _. unfold typeKey.
    case_bool_decide; [done|]. by intros [= <-]. }
  assert (Hthrows : forall groups url,
            cleanKeys groups -> typeKey url = None ->
            exists e, CollectGroups.pushToGroup groups (Collect.typeOf url) url
                        = Throw e).
  { intros groups url Hclean. unfold typeKey.
    case_bool_decide; [|done]. intros _.
    by apply GroupFacts.pushToGroup_throws. }
  assert (Hsome : forall u k,
            typeKey u = Some k <->
            Collect.typeOf u = k /\
            Collect.typeOf u ∉ CollectGroups.OBJECT_PROTOTYPE_KEYS).
  { intros u k. unfold typeKey. case_bool_decide; naive_solver. }
  split.
  - intros Hclean.
    destruct (GroupFacts.loop_groups
                (fun groups url =>
                   CollectGroups.pushToGroup groups (Collect.typeOf url) url)
                CollectGroups.groupByTypeLoop typeKey
                (fun _ => eq_refl) (fun _ _ _ => eq_refl) Hfiles
                urls ∅ GroupFacts.cleanKeys_empty)
      as (groups & Hloop & _ & Hgroup & Hnone).
    { eapply Forall_impl; [exact Hclean|]. intros u Hu. unfold typeKey.
      by rewrite bool_decide_false. }
    assert (Hfilter : forall k,
              filter (fun u => typeKey u = Some k) urls
              = filter (fun u => Collect.typeOf u = k) urls).
    { intros k. clear -Hclean Hsome.
      induction Hclean as [|u urls Hu _ IH]; [done|].
      rewrite !filter_cons, IH.
      destruct (decide (Collect.typeOf u = k)) as [E|E].
      - rewrite decide_True; [done|]. by apply Hsome.
      - rewrite decide_False; [done|]. rewrite Hsome. tauto. }
    exists groups. split; [exact Hloop|]. split; [|split].
    + intros k. by rewrite Hgroup, Hfilter.
    + intros k. rewrite Hnone, lookup_empty. split.
      * intros [_ Hall]. rewrite Forall_forall in *. intros u Hu E.
        apply (Hall u Hu). apply Hsome. split; [done|]. by apply Hclean.
      * intros Hall. split; [done|]. eapply Forall_impl; [exact Hall|].
        intros u Hu E. apply Hsome in E as [? _]. done.
    + intros k Hk. rewrite GroupFacts.filterUrlsByType_typeOf by done.
      by rewrite Hgroup, Hfilter.
  - intros Hdirty.
    apply (GroupFacts.loop_throws
             (fun groups url =>
                CollectGroups.pushToGroup groups (Collect.typeOf url) url)
             CollectGroups.groupByTypeLoop typeKey
             (fun _ _ _ => eq_refl) Hfiles Hthrows urls ∅
             GroupFacts.cleanKeys_empty).
    eapply Exists_impl; [exact Hdirty|]. intros u Hu. unfold typeKey.
    by rewrite bool_decide_true.
Qed.

(** X13 at four typed tokens, and at a token whose type is
    [constructor]. *)
Lemma groupUrlsByType_files_by_type_witness :
  let a := Examples.token "https://a.com" "https" "first" in
  let b := Examples.token "http://b.com" "http" "second" in
  let c := Examples.token "https://c.com" "https" "third" in
  (exists groups,
     CollectGroups.groupUrlsByType [a; b; c] = Ok groups /\
     groupOf groups "https" = [a; c] /\ groupOf groups "http" = [b]) /\
  exists e,
    CollectGroups.groupUrlsByType
      [a; Examples.token "x" "constructor" "fourth"] = Throw e.
Proof.
  intros a b c. split.
  - destruct (proj1 (groupUrlsByType_files_by_type [a; b; c]))
      as (groups & Hgroups & Hgroup & _).
    + repeat constructor; vm_compute; set_solver.
    + exists groups. split; [exact Hgroups|]. by rewrite !Hgroup.
  - apply (proj2 (groupUrlsByType_files_by_type
                    [a; Examples.token "x" "constructor" "fourth"])).
    apply Exists_cons_tl, Exists_cons_hd. vm_compute. set_solver.
Defined.

(** X14 — [groupUrlsByDomain] files every token under one key: a token typed
    [http] or [https] under the host name the platform parser reads from
    its value, or under [invalid] when the parser rejects the value or the
    host name is the name of an inherited property; any other token under
    its type.  The array under a key holds the tokens of that key in their
    original order.  Tokens typed [http] or [https] never make it throw;
    it throws at another token whose type is the name of an inherited
    property. *)
Theorem groupUrlsByDomain_files_by_host
    (URL_new : string -> Exc URL) (urls : list Url) :
  (Forall (fun u => domainKey URL_new u <> None) urls ->
   exists groups,
     CollectGroups.groupUrlsByDomain URL_new urls = Ok groups /\
     (forall k, groupOf groups k
                = filter (fun u => domainKey URL_new u = Some k) urls) /\
     (forall k, groups !! k = None <->
                Forall (fun u => domainKey URL_new u <> Some k) urls)) /\
  (Exists (fun u => domainKey URL_new u = None) urls ->
   exists e, CollectGroups.groupUrlsByDomain URL_new urls = Throw e) /\
  (Forall (fun u => type u = Some "http" \/ type u = Some "https") urls ->
   exists groups, CollectGroups.groupUrlsByDomain URL_new urls = Ok groups).
Proof.
  assert (Hfiles : forall groups url key,
            cleanKeys groups -> domainKey URL_new url = Some key ->
            (key ∉ CollectGroups.OBJECT_PROTOTYPE_KEYS) /\
            CollectGroups.groupByDomainStep URL_new groups url
              = CollectGroups.pushToGroup groups key url).
  { intros groups url key Hclean.
    unfold domainKey, CollectGroups.groupByDomainStep.
    destruct (bool_decide (type url = Some "http")
              || bool_decide (type url = Some "https")).
    - destruct (URL_new (value url)) as [parsed|e]; simpl.
      + case_bool_decide as Hhost; intros [= <-].
        * split; [vm_compute; set_solver|].
          by destruct (GroupFacts.pushToGroup_throws groups _ url Hclean Hhost)
            as [e ->].
        * split; [done|]. by rewrite GroupFacts.pushToGroup_returns.
      + intros [= <-]. split; [vm_compute; set_solver|done].
    - case_bool_decide; [done|]. by intros [= <-]. }
  assert (Hthrows : forall groups url,
            cleanKeys groups -> domainKey URL_new url = None ->
            exists e, CollectGroups.groupByDomainStep URL_new groups url
                        = Throw e).
  { intros groups url Hclean.
    unfold domainKey, CollectGroups.groupByDomainStep.
    destruct (bool_decide (type url = Some "http")
              || bool_decide (type url = Some "https")).
    - destruct (URL_new (value url)); [case_bool_decide|]; done.
    - case_bool_decide; [|done]. intros _.
      by apply GroupFacts.pushToGroup_throws. }
  assert (Hgroups : Forall (fun u => domainKey URL_new u <> None) urls ->
    exists groups,
      CollectGroups.groupUrlsByDomain URL_new urls = Ok groups /\
      (forall k, groupOf groups k
                 = filter (fun u => domainKey URL_new u = Some k) urls) /\
      (forall k, groups !! k = None <->
                 Forall (fun u => domainKey URL_new u <> Some k) urls)).
  { intros Hkeys.
    destruct (GroupFacts.loop_groups
                (CollectGroups.groupByDomainStep URL_new)
                (CollectGroups.groupByDomainLoop URL_new) (domainKey URL_new)
                (fun _ => eq_refl) (fun _ _ _ => eq_refl) Hfiles
                urls ∅ GroupFacts.cleanKeys_empty Hkeys)
      as (groups & Hloop & _ & Hgroup & Hnone).
    exists groups. split; [exact Hloop|]. split.
    - intros k. by rewrite Hgroup.
    - intros k. rewrite Hnone, lookup_empty. tauto. }
  split; [exact Hgroups|]. split.
  - apply (GroupFacts.loop_throws
             (CollectGroups.groupByDomainStep URL_new)
             (CollectGroups.groupByDomainLoop URL_new) (domainKey URL_new)
             (fun _ _ _ => eq_refl) Hfiles Hthrows urls ∅
             GroupFacts.cleanKeys_empty).
  - intros Hweb. destruct Hgroups as (groups & ? & _); [|by exists groups].
    eapply Forall_impl; [exact Hweb|]. intros u Hu. unfold domainKey.
    assert (bool_decide (type u = Some "http")
            || bool_decide (type u = Some "https") = true) as ->.
    { destruct Hu as [-> | ->]; reflexivity. }
    destruct (URL_new (value u)); [case_bool_decide|]; done.
Qed.

(** X14 at the five tokens of the test suite, under the
    reference parser. *)
Lemma groupUrlsByDomain_files_by_host_witness :
  let a := Examples.token "https://example.com/page1" "https" "first" in
  let b := Examples.token "https://example.com/page2" "https" "second" in
  let c := Examples.token "http://test.com" "http" "third" in
  let d := Examples.token "mailto:user@example.com" "mailto" "fourth" in
  let e := Examples.token "invalid-url" "https" "fifth" in
  exists groups,
    CollectGroups.groupUrlsByDomain ReferenceURL.URL_new [a; b; c; d; e]
      = Ok groups /\
    groupOf groups "example.com" = [a; b] /\
    groupOf groups "test.com" = [c] /\
    groupOf groups "mailto" = [d] /\
    groupOf groups "invalid" = [e].
Proof.
  intros a b c d e.
  destruct (proj1 (groupUrlsByDomain_files_by_host ReferenceURL.URL_new
                     [a; b; c; d; e]))
    as (groups & Hgroups & Hgroup & _).
  - repeat constructor; vm_compute; discriminate.
  - exists groups. split; [exact Hgroups|]. by rewrite !Hgroup.
Defined.

(* ================================================================== *)
(** * Properties: patterns that are one word *)
(* ================================================================== *)

Module WordFacts.
Import Regex.

Lemma foldsLikeLower_spec c a :
  foldsLikeLower c = true ->
  Ascii.eqb (canonicalize true a) (canonicalize true c)
    = Ascii.eqb c (JS.lowerChar a).
Proof.
  unfold foldsLikeLower. rewrite forallb_forall. intros H.
  specialize (H (nat_of_ascii a)). rewrite ascii_nat_embedding in H.
  apply Bool.eqb_prop, H, in_seq.
  pose proof (nat_ascii_bounded a). lia.
Qed.


(** Matching a literal word under the [i] flag is a prefix test on the
    lower-cased text. *)
Lemma run_word {A} w :
  allChars foldsLikeLower w = true ->
  forall s pos caps (k : string -> nat -> captures -> option A),
    run true (Lit w) s pos caps k =
      if JS.startsWith (JS.toLowerCase s) w
      then k (JS.substringFrom s (String.length w)) (pos + String.length w)%nat caps
      else None.
Proof.
  induction w as [|c w IH]; intros Hw s pos caps k.
  - rewrite StringFacts.startsWith_nil. simpl. rewrite Nat.add_0_r.
    by destruct s.
  - simpl in Hw. apply andb_true_iff in Hw as [Hc Hw].
    assert (Hhead : forall (k' : string -> nat -> captures -> option A),
              run true (Chr c) s pos caps k' =
                match s with
                | String a s' =>
                    if Ascii.eqb c (JS.lowerChar a) then k' s' (S pos) caps
                    else None
                | EmptyString => None
                end).
    { intros k'. destruct s as [|a s']; [done|]. cbn [run].
      by rewrite (foldsLikeLower_spec c a Hc). }
    destruct w as [|c' w'].
    + change (Lit (String c "")) with (Chr c). rewrite Hhead.
      destruct s as [|a s']; [done|].
      change (JS.toLowerCase (String a s'))
        with (String (JS.lowerChar a) (JS.toLowerCase s')).
      rewrite StringFacts.startsWith_cons, StringFacts.startsWith_nil.
      simpl. replace (pos + 1)%nat with (S pos) by lia.
      destruct (Ascii.eqb c (JS.lowerChar a)); [by destruct s'|done].
    + change (Lit (String c (String c' w')))
        with (Cat (Chr c) (Lit (String c' w'))).
      destruct s as [|a s']; [done|].
      cbn [run]. rewrite (foldsLikeLower_spec c a Hc).
      change (JS.toLowerCase (String a s'))
        with (String (JS.lowerChar a) (JS.toLowerCase s')).
      rewrite StringFacts.startsWith_cons.
      destruct (Ascii.eqb c (JS.lowerChar a)); [|done].
      rewrite IH by done.
      change (String.length (String c (String c' w')))
        with (S (String.length (String c' w'))).
      cbn [JS.substringFrom].
      by replace (S pos + String.length (String c' w'))%nat
        with (pos + S (String.length (String c' w')))%nat by lia.
Qed.


Lemma search_unfold re s pos :
  search re s pos =
    match matchAt re s pos with
    | Some m => Some m
    | None =>
        match s with
        | String _ s' => search re s' (S pos)
        | EmptyString => None
        end
    end.
Proof. by destruct s. Qed.









End WordFacts.


(* ================================================================== *)
(** * Properties: validation and its statistics *)
(* ================================================================== *)

Module ValidationFacts.
Import ValidationStats.

Lemma mapProtocolToType_http p :
  UrlValidation.mapProtocolToType p = http <-> p = "http:".
Proof.
  unfold UrlValidation.mapProtocolToType.
  repeat match goal with
         | |- context [String.eqb p ?s] =>
             destruct (String.eqb_spec p s) as [->|?]; simpl; [by split|]
         end.
  by split.
Qed.

Lemma mapProtocolToType_https p :
  UrlValidation.mapProtocolToType p = https <-> p = "https:".
Proof.
  unfold UrlValidation.mapProtocolToType.
  repeat match goal with
         | |- context [String.eqb p ?s] =>
             destruct (String.eqb_spec p s) as [->|?]; simpl; [by split|]
         end.
  by split.
Qed.

Lemma mapProtocolToType_ftp p :
  UrlValidation.mapProtocolToType p = ftp <-> p = "ftp:".
Proof.
  unfold UrlValidation.mapProtocolToType.
  repeat match goal with
         | |- context [String.eqb p ?s] =>
             destruct (String.eqb_spec p s) as [->|?]; simpl; [by split|]
         end.
  by split.
Qed.

Lemma mapProtocolToType_web p :
  isWeb (UrlValidation.mapProtocolToType p)
  <-> p ∈ UrlValidation.WEB_PROTOCOLS.
Proof.
  unfold isWeb, UrlValidation.WEB_PROTOCOLS.
  rewrite !elem_of_cons, !elem_of_nil.
  rewrite mapProtocolToType_http, mapProtocolToType_https,
    mapProtocolToType_ftp.
  tauto.
Qed.

(** What the fold has counted when it started from [acc]. *)
Lemma foldl_count results : forall acc,
  let stats := foldl count acc results in
  total stats = (total acc + length results)%nat /\
  valid stats = (valid acc + withStatus status_valid results)%nat /\
  invalid stats = (invalid acc + withStatus status_invalid results)%nat /\
  errors stats = (errors acc + withStatus status_error results)%nat /\
  timeouts stats = (timeouts acc + withStatus status_timeout results)%nat /\
  duration stats = duration acc.
Proof.
  unfold withStatus.
  induction results as [|r results IH]; intros acc; cbn zeta.
  - simpl. repeat split; lia.
  - cbn [foldl]. destruct (IH (count acc r)) as (Ht & Hv & Hi & He & Hto & Hd).
    rewrite Ht, Hv, Hi, He, Hto, Hd. rewrite !filter_cons.
    unfold count. destruct (vr_status r);
      repeat case_decide; try done; simpl; repeat split; lia.
Qed.

Lemma withStatus_total results :
  (withStatus status_valid results + withStatus status_invalid results
   + withStatus status_error results + withStatus status_timeout results
   = length results)%nat.
Proof.
  unfold withStatus. induction results as [|r results IH]; [done|].
  rewrite !filter_cons.
  destruct (vr_status r); repeat case_decide; try done; simpl; lia.
Qed.

Lemma calculateValidationStats_counts now startTime results :
  let stats := calculateValidationStats now results startTime in
  total stats = length results /\
  valid stats = withStatus status_valid results /\
  invalid stats = withStatus status_invalid results /\
  errors stats = withStatus status_error results /\
  timeouts stats = withStatus status_timeout results /\
  duration stats = (now - startTime)%Z.
Proof.
  cbn zeta. unfold calculateValidationStats. cbn zeta.
  destruct (foldl_count results (mkStats 0 0 0 0 0 0))
    as (Ht & Hv & Hi & He & Hto & _).
  cbn [total valid invalid errors timeouts duration] in *.
  by rewrite Ht, Hv, Hi, He, Hto.
Qed.

Section WithPlatform.
Variable URL_new : string -> Exc URL.
Variable localize : string -> string -> string.

Lemma isSecureUrl_https url :
  UrlScreening.isSecureUrl URL_new url = true
  <-> UrlValidation.detectUrlProtocol URL_new url = https.
Proof.
  unfold UrlScreening.isSecureUrl, UrlValidation.detectUrlProtocol.
  destruct (UrlValidation.parseUrl URL_new url) as [parsed|]; [|done].
  by rewrite mapProtocolToType_https, String.eqb_eq.
Qed.

Lemma validateUrl_returns url :
  exists result,
    UrlScreening.validateUrl URL_new localize url = Ok result /\
    vr_url result = url /\
    vr_redirects result = None /\
    vr_status result =
      (if UrlValidation.isValidUrl URL_new url
       then if UrlScreening.isSuspiciousUrl url then status_error
            else status_valid
       else status_invalid) /\
    vr_statusCode result =
      (if decide (vr_status result = status_valid) then Some 200%Z else None) /\
    (vr_error result = None <-> vr_status result = status_valid).
Proof.
  unfold UrlScreening.validateUrl.
  destruct (UrlValidation.isValidUrl URL_new url); simpl;
    [destruct (UrlScreening.isSuspiciousUrl url)|];
    eexists; (split; [reflexivity|]); simpl; by repeat split.
Qed.

Lemma validateUrlsLoop_returns urls : forall done,
  exists results,
    UrlScreening.validateUrlsLoop URL_new localize urls done
      = Ok (done ++ results) /\
    Forall2 (fun url result =>
               UrlScreening.validateUrl URL_new localize url = Ok result)
            urls results.
Proof.
  induction urls as [|url urls IH]; intros done.
  - exists []. by rewrite app_nil_r.
  - cbn [UrlScreening.validateUrlsLoop].
    destruct (validateUrl_returns url) as (result & Hresult & _).
    rewrite Hresult. cbn [bindE tryE].
    destruct (IH (done ++ [result])) as (results & -> & Hall).
    exists (result :: results). rewrite <- app_assoc. by split; [|constructor].
Qed.

End WithPlatform.
End ValidationFacts.

(** X16 — the statistics count each status.  For every list of results the
    total is the number of results, each counter is the number of results
    that carry its status, the four counters add up to the total, and the
    duration is the time since the start. *)
Theorem validation_stats_count_each_status
    (now startTime : Z) (results : list ValidationResult) :
  let stats := ValidationStats.calculateValidationStats now results startTime in
  ValidationStats.total stats = length results /\
  ValidationStats.valid stats = withStatus status_valid results /\
  ValidationStats.invalid stats = withStatus status_invalid results /\
  ValidationStats.errors stats = withStatus status_error results /\
  ValidationStats.timeouts stats = withStatus status_timeout results /\
  (ValidationStats.valid stats + ValidationStats.invalid stats
   + ValidationStats.errors stats + ValidationStats.timeouts stats
   = ValidationStats.total stats)%nat /\
  ValidationStats.duration stats = (now - startTime)%Z.
Proof.
  cbn zeta.
  destruct (ValidationFacts.calculateValidationStats_counts
              now startTime results) as (Ht & Hv & Hi & He & Hto & Hd).
  rewrite Ht, Hv, Hi, He, Hto, Hd.
  pose proof (ValidationFacts.withStatus_total results).
  repeat split; lia.
Qed.

(** X17 — validating a list reports every URL once, in order, and never
    throws.  The result of a URL is [invalid] exactly when [isValidUrl]
    rejects it, [error] exactly when it is valid and suspicious, [valid]
    otherwise and only then with status code 200 and no error text; no
    result is a [timeout], so the statistics of the results count no
    timeout and their total is the number of URLs. *)
Theorem validateUrls_reports_every_url_in_order
    (URL_new : string -> Exc URL) (localize : string -> string -> string)
    (urls : list string) (now startTime : Z) :
  exists results,
    UrlScreening.validateUrls URL_new localize urls = Ok results /\
    vr_url <$> results = urls /\
    Forall (fun r =>
      (vr_status r = status_invalid
       <-> UrlValidation.isValidUrl URL_new (vr_url r) = false) /\
      (vr_status r = status_error
       <-> UrlValidation.isValidUrl URL_new (vr_url r) = true /\
           UrlScreening.isSuspiciousUrl (vr_url r) = true) /\
      (vr_status r = status_valid
       <-> UrlValidation.isValidUrl URL_new (vr_url r) = true /\
           UrlScreening.isSuspiciousUrl (vr_url r) = false) /\
      vr_statusCode r =
        (if decide (vr_status r = status_valid) then Some 200%Z else None) /\
      (vr_error r = None <-> vr_status r = status_valid)) results /\
    let stats :=
      ValidationStats.calculateValidationStats now results startTime in
    ValidationStats.total stats = length urls /\
    ValidationStats.timeouts stats = 0%nat /\
    ValidationStats.invalid stats =
      length (filter (fun url => UrlValidation.isValidUrl URL_new url = false)
                     urls).
Proof.
  destruct (ValidationFacts.validateUrlsLoop_returns URL_new localize urls [])
    as (results & Hrun & Hall).
  exists results. split; [exact Hrun|].
  assert (Hurls : vr_url <$> results = urls).
  { clear Hrun.
    induction Hall as [|url r urls results Hr _ IH]; [done|].
    destruct (ValidationFacts.validateUrl_returns URL_new localize url)
      as (r' & Hr' & Hu & _).
    rewrite Hr in Hr'. injection Hr' as <-. by rewrite fmap_cons, Hu, IH. }
  assert (Heach : Forall (fun r =>
            vr_status r =
              (if UrlValidation.isValidUrl URL_new (vr_url r)
               then if UrlScreening.isSuspiciousUrl (vr_url r)
                    then status_error else status_valid
               else status_invalid) /\
            vr_statusCode r =
              (if decide (vr_status r = status_valid)
               then Some 200%Z else None) /\
            (vr_error r = None <-> vr_status r = status_valid)) results).
  { clear Hurls Hrun.
    induction Hall as [|url r urls results Hr _ IH]; constructor; [|done].
    destruct (ValidationFacts.validateUrl_returns URL_new localize url)
      as (r' & Hr' & Hu & _ & Hs & Hc & He).
    rewrite Hr in Hr'. injection Hr' as <-. by rewrite Hu. }
  split; [done|]. split.
  - eapply Forall_impl; [exact Heach|].
    intros r (Hs & Hc & He). rewrite Hs in *.
    destruct (UrlValidation.isValidUrl URL_new (vr_url r));
      [destruct (UrlScreening.isSuspiciousUrl (vr_url r))|];
      naive_solver.
  - cbn zeta.
    destruct (ValidationFacts.calculateValidationStats_counts
                now startTime results) as (Ht & _ & Hi & _ & Hto & _).
    rewrite Ht, Hi, Hto. rewrite <- Hurls, length_fmap.
    split; [done|]. unfold withStatus. clear Hall Hurls Hrun Ht Hi Hto. split.
    + induction Heach as [|r results (Hs & _) _ IH]; [done|].
      rewrite filter_cons, decide_False; [done|].
      rewrite Hs. by repeat case_match.
    + induction Heach as [|r results (Hs & _) _ IH]; [done|].
      rewrite fmap_cons, !filter_cons.
      rewrite Hs.
      destruct (UrlValidation.isValidUrl URL_new (vr_url r));
        [destruct (UrlScreening.isSuspiciousUrl (vr_url r))|];
        repeat case_decide; try done; simpl; by rewrite IH.
Qed.

(** X18 — the accessors of a URL agree with the classifier.  A URL is
    secure exactly when its protocol is [https]; it has a domain exactly
    when it is a valid URL of a web protocol, and the domain is then the
    non-empty host name that [extractUrlComponents] reports. *)
Theorem domain_and_security_agree_with_the_classifier
    (URL_new : string -> Exc URL) (url : string) :
  (UrlScreening.isSecureUrl URL_new url = true
   <-> UrlValidation.detectUrlProtocol URL_new url = https) /\
  (is_Some (UrlScreening.getDomainFromUrl URL_new url)
   <-> UrlValidation.isValidUrl URL_new url = true /\
       isWeb (UrlValidation.detectUrlProtocol URL_new url)) /\
  (forall domain,
     UrlScreening.getDomainFromUrl URL_new url = Some domain
     <-> domain <> "" /\
         isWeb (UrlValidation.detectUrlProtocol URL_new url) /\
         UrlValidation.c_domain
           <$> UrlValidation.extractUrlComponents URL_new url = Some domain).
Proof.
  unfold UrlScreening.isSecureUrl, UrlScreening.getDomainFromUrl,
    UrlValidation.detectUrlProtocol, UrlValidation.extractUrlComponents,
    UrlValidation.isValidUrl, UrlScreening.isWebProtocol,
    UrlValidation.isSupportedProtocol.
  destruct (UrlValidation.parseUrl URL_new url) as [parsed|].
  2:{ split; [by split|]. split.
      - split; [by intros [? ?]|]. by intros [? _].
      - intros domain. split; [done|]. by intros (_ & _ & ?). }
  rewrite ValidationFacts.mapProtocolToType_https.
  rewrite ValidationFacts.mapProtocolToType_web.
  split; [apply String.eqb_eq|].
  set (p := URL_protocol parsed). set (h := URL_hostname parsed).
  assert (Hweb : p ∈ UrlValidation.WEB_PROTOCOLS ->
            p ∈ UrlValidation.SUPPORTED_PROTOCOLS /\
            UrlValidation.validateByProtocol parsed
              = UrlValidation.isValidWebUrl h).
  { unfold UrlValidation.WEB_PROTOCOLS, UrlValidation.SUPPORTED_PROTOCOLS,
      UrlValidation.validateByProtocol. fold p h.
    rewrite !elem_of_cons, elem_of_nil.
    intros [->|[->|[->|[]]]]; split; try done; set_solver. }
  split.
  - case_bool_decide as Hp; simpl.
    + destruct (Hweb Hp) as [Hs ->]. rewrite bool_decide_eq_true_2 by done.
      simpl. unfold UrlValidation.isValidWebUrl.
      destruct h; simpl; split; try done; by intros [? ?].
    + split; [by intros [? ?]|]. by intros [_ ?].
  - intros domain. rewrite ValidationFacts.mapProtocolToType_web.
    cbn [fmap option_fmap option_map UrlValidation.c_domain].
    fold h. case_bool_decide as Hp; simpl.
    + destruct h as [|c h']; simpl.
      * split; [done|]. intros (Hne & _ & Heq). congruence.
      * split; [|by intros (_ & _ & ?)].
        intros Heq. injection Heq as <-. by repeat split.
    + split; [done|]. by intros (_ & ? & _).
Qed.

(* ================================================================== *)
(** * Properties: the analysis of a list of URLs *)
(* ================================================================== *)

Module AnalysisFacts.

Lemma filter_bool {A} (p : A -> bool) (l : list A) :
  List.filter p l = filter (fun x => p x = true) l.
Proof.
  induction l as [|x l IH]; [done|].
  rewrite filter_cons. cbn [List.filter].
  destruct (p x) eqn:E; case_decide; try done; by rewrite IH.
Qed.

Lemma nonBlank_trim (l : string) :
  (0 <? JS.length (JS.trim l))%nat = true <-> JS.trim l <> "".
Proof.
  rewrite Nat.ltb_lt. unfold JS.length.
  destruct (JS.trim l); simpl; split; (done || lia).
Qed.

Lemma filter_nonBlank (lines : list string) :
  List.filter (fun line => (0 <? JS.length (JS.trim line))%nat) lines
  = filter (fun l => JS.trim l <> "") lines.
Proof.
  rewrite filter_bool. apply list_filter_iff. intros l. apply nonBlank_trim.
Qed.

Lemma foldl_increment {A} (f : A -> UrlProtocol) (urls : list A) :
  forall acc p,
    foldl (fun protocols url => Analysis.increment protocols (f url)) acc urls p
    = (acc p + length (filter (fun u => f u = p) urls))%nat.
Proof.
  induction urls as [|u urls IH]; intros acc p; [simpl; lia|].
  cbn [foldl]. rewrite IH, filter_cons. unfold Analysis.increment.
  repeat case_decide; try done; simpl; try lia; congruence.
Qed.

Lemma protocol_counts_total {A} (f : A -> UrlProtocol) (urls : list A) :
  sum_list ((fun p => length (filter (fun u => f u = p) urls))
              <$> ALL_PROTOCOLS)
  = length urls.
Proof.
  induction urls as [|u urls IH]; [done|].
  unfold ALL_PROTOCOLS in *. rewrite !fmap_cons, fmap_nil in *.
  rewrite !filter_cons.
  destruct (f u); repeat case_decide; try done; simpl in *; lia.
Qed.

Lemma size_list_to_set_le (urls : list string) :
  (size (list_to_set (C := gset string) urls) <= length urls)%nat.
Proof.
  induction urls as [|u urls IH]; [done|].
  cbn [list_to_set foldr length]. rewrite size_union_alt, size_singleton.
  apply le_n_S. etrans; [|exact IH]. apply subseteq_size. set_solver.
Qed.

Lemma size_list_to_set_NoDup (urls : list string) :
  size (list_to_set (C := gset string) urls) = length urls <-> NoDup urls.
Proof.
  split; [|apply size_list_to_set].
  induction urls as [|u urls IH]; [constructor|].
  cbn [list_to_set foldr length]. intros Hsize.
  pose proof (size_list_to_set_le urls) as Hle.
  destruct (decide (u ∈ urls)) as [Hin|Hout].
  - replace ({[u]} ∪ list_to_set urls : gset string)
      with (list_to_set urls : gset string) in Hsize by set_solver.
    lia.
  - rewrite size_union in Hsize by set_solver.
    rewrite size_singleton in Hsize.
    constructor; [done|]. apply IH. lia.
Qed.

Lemma length_concat_fmap {A B} (f : A -> list B) (p : A -> bool) (l : list A) :
  (forall x, length (f x) = if p x then 1%nat else 0%nat) ->
  length (concat (f <$> l)) = length (filter (fun x => p x = true) l).
Proof.
  intros Hf. induction l as [|x l IH]; [done|].
  rewrite fmap_cons, filter_cons. cbn [concat]. rewrite length_app, Hf, IH.
  destruct (p x); case_decide; try done.
Qed.

Lemma filter_length_le {A} (P Q : A -> Prop)
    `{!forall x, Decision (P x)} `{!forall x, Decision (Q x)} (l : list A) :
  (forall x, P x -> Q x) ->
  (length (filter P l) <= length (filter Q l))%nat.
Proof.
  intros HPQ. induction l as [|x l IH]; [done|].
  rewrite !filter_cons.
  repeat case_decide; simpl; try lia. naive_solver.
Qed.

Lemma filter_length_or {A} (P Q : A -> Prop)
    `{!forall x, Decision (P x)} `{!forall x, Decision (Q x)} (l : list A) :
  (length (filter (fun x => P x \/ Q x) l)
   <= length (filter P l) + length (filter Q l))%nat.
Proof.
  induction l as [|x l IH]; [done|].
  rewrite !filter_cons.
  repeat case_decide; simpl; try lia; naive_solver.
Qed.

Lemma filter_length_split {A} (P : A -> Prop)
    `{!forall x, Decision (P x)} (l : list A) :
  (length (filter P l) + length (filter (fun x => ~ P x) l) = length l)%nat.
Proof.
  induction l as [|x l IH]; [done|].
  rewrite !filter_cons.
  repeat case_decide; simpl; try lia; naive_solver.
Qed.

End AnalysisFacts.

(** X19 — the counts of an analysis add up.  The lines counted are the ones
    that are not blank.  Every protocol counter is the number of counted
    lines the classifier gives that protocol, so the seven counters add
    up to the count; the secure URLs are the ones counted under [https];
    the unique lines are at most the count, and no duplicate is reported
    exactly when the counted lines are pairwise distinct. *)
Theorem analysis_counts_add_up
    (URL_new : string -> Exc URL) (localize : string -> string -> string)
    (DomainAnalysis : Type) (analyzeDomains : list string -> DomainAnalysis)
    (lines : list string) :
  let result :=
    Analysis.analyzeUrls URL_new localize DomainAnalysis analyzeDomains lines in
  let urls := filter (fun l => JS.trim l <> "") lines in
  Analysis.count _ result = length urls /\
  (forall p,
     Analysis.protocols _ result p
     = length (filter (fun u => UrlValidation.detectUrlProtocol URL_new u = p)
                      urls)) /\
  sum_list (Analysis.protocols _ result <$> ALL_PROTOCOLS)
    = Analysis.count _ result /\
  secure (Analysis.security _ result) = Analysis.protocols _ result https /\
  (Analysis.unique _ result <= Analysis.count _ result)%nat /\
  Analysis.duplicates _ result
    = (Z.of_nat (Analysis.count _ result) - Z.of_nat (Analysis.unique _ result))%Z /\
  (Analysis.duplicates _ result = 0%Z <-> NoDup urls).
Proof.
  cbn zeta. unfold Analysis.analyzeUrls. cbn zeta.
  rewrite AnalysisFacts.filter_nonBlank.
  set (urls := filter (fun l => JS.trim l <> "") lines).
  cbn [Analysis.count Analysis.protocols Analysis.unique Analysis.duplicates
       Analysis.security].
  assert (Hprotocols : forall p,
            foldl (fun protocols url =>
                     Analysis.increment protocols
                       (UrlValidation.detectUrlProtocol URL_new url))
                  Analysis.noProtocols urls p
            = length (filter
                        (fun u => UrlValidation.detectUrlProtocol URL_new u = p)
                        urls)).
  { intros p. by rewrite AnalysisFacts.foldl_increment. }
  pose proof (AnalysisFacts.size_list_to_set_le urls) as Hle.
  split; [done|]. split; [exact Hprotocols|]. split.
  { rewrite <- (AnalysisFacts.protocol_counts_total
                  (UrlValidation.detectUrlProtocol URL_new) urls).
    unfold ALL_PROTOCOLS. rewrite !fmap_cons. by rewrite !Hprotocols. }
  split.
  { rewrite Hprotocols. unfold Analysis.analyzeSecurity, Analysis.countWhere.
    cbn [secure]. rewrite AnalysisFacts.filter_bool. f_equal.
    apply list_filter_iff. intros u.
    apply ValidationFacts.isSecureUrl_https. }
  split; [done|]. split; [done|].
  rewrite <- AnalysisFacts.size_list_to_set_NoDup. lia.
Qed.

(** X20 — the analysis reports every URL at most once.  The security
    issues are, in order, the URLs that are suspicious or begin with
    [http://], one issue each even when both hold, so their number is at
    most the sum of the two counters; the accessibility issues are, in
    order, the URLs that are not accessible, and their number is the
    [inaccessible] counter, which with the [accessible] one makes the
    number of URLs.  Every issue is a warning. *)
Theorem analysis_reports_each_url_at_most_once
    (URL_new : string -> Exc URL) (localize : string -> string -> string)
    (urls : list string) :
  let s := Analysis.analyzeSecurity URL_new localize urls in
  let a := Analysis.analyzeAccessibility localize urls in
  issue_url <$> security_issues s
    = filter (fun u => UrlScreening.isSuspiciousUrl u = true \/
                       JS.startsWith u "http://" = true) urls /\
  (length (security_issues s) <= suspicious s + insecure s)%nat /\
  issue_url <$> accessibility_issues a
    = filter (fun u => UrlScreening.isAccessibleUrl u = false) urls /\
  Z.of_nat (length (accessibility_issues a)) = inaccessible a /\
  (Z.of_nat (accessible a) + inaccessible a = Z.of_nat (length urls))%Z /\
  Forall (fun i => issue_severity i = issue_warning)
         (security_issues s ++ accessibility_issues a).
Proof.
  cbn zeta.
  unfold Analysis.analyzeSecurity, Analysis.analyzeAccessibility,
    Analysis.countWhere.
  cbn zeta. cbn [security_issues suspicious insecure accessibility_issues
                 inaccessible accessible].
  rewrite !AnalysisFacts.filter_bool.
  assert (Hsec : issue_url <$> concat (Analysis.securityIssuesOf localize <$> urls)
            = filter (fun u => UrlScreening.isSuspiciousUrl u = true \/
                               JS.startsWith u "http://" = true) urls).
  { induction urls as [|u urls IH]; [done|].
    rewrite fmap_cons, filter_cons. cbn [concat]. rewrite fmap_app, IH.
    unfold Analysis.securityIssuesOf.
    destruct (UrlScreening.isSuspiciousUrl u);
      [|destruct (JS.startsWith u "http://")];
      case_decide; try done; naive_solver. }
  assert (Hacc : issue_url
                   <$> concat (Analysis.accessibilityIssuesOf localize <$> urls)
            = filter (fun u => UrlScreening.isAccessibleUrl u = false) urls).
  { clear Hsec. induction urls as [|u urls IH]; [done|].
    rewrite fmap_cons, filter_cons. cbn [concat]. rewrite fmap_app, IH.
    unfold Analysis.accessibilityIssuesOf.
    destruct (UrlScreening.isAccessibleUrl u); case_decide; simpl;
      first [done|congruence]. }
  split; [exact Hsec|]. split.
  { rewrite <- (length_fmap issue_url), Hsec.
    apply AnalysisFacts.filter_length_or. }
  split; [exact Hacc|].
  pose proof (AnalysisFacts.filter_length_split
                (fun u => UrlScreening.isAccessibleUrl u = true) urls) as Hsplit.
  assert (Hneg : length (filter (fun u => UrlScreening.isAccessibleUrl u <> true) urls)
            = length (filter (fun u => UrlScreening.isAccessibleUrl u = false) urls)).
  { f_equal. apply list_filter_iff. intros u.
    by destruct (UrlScreening.isAccessibleUrl u). }
  split.
  { rewrite <- (length_fmap issue_url), Hacc. lia. }
  split; [lia|].
  apply Forall_app. split.
  - apply Forall_concat, Forall_fmap, Forall_forall. intros u _.
    unfold compose, Analysis.securityIssuesOf.
    destruct (UrlScreening.isSuspiciousUrl u);
      [|destruct (JS.startsWith u "http://")];
      by repeat constructor.
  - apply Forall_concat, Forall_fmap, Forall_forall. intros u _.
    unfold compose, Analysis.accessibilityIssuesOf.
    destruct (UrlScreening.isAccessibleUrl u); by repeat constructor.
Qed.

(* ================================================================== *)
(** * Properties: what is URL-like has a type *)
(* ================================================================== *)

Module ShapeFacts.
Import Regex.

Lemma is_Some_orElse {A} (x y : option A) :
  is_Some match x with Some v => Some v | None => y end
  <-> is_Some x \/ is_Some y.
Proof.
  destruct x; split; try by eauto. intros [[? ?]|?]; done.
Qed.

Lemma search_anchored r ic s :
  forall pos, (0 < pos)%nat ->
    search (CollectValues.anchored r ic) s pos = None.
Proof.
  induction s as [|a s IH]; intros pos Hpos; rewrite WordFacts.search_unfold;
    unfold matchAt, CollectValues.anchored; cbn [source ignoreCase];
    change (run ic (Cat Start r)) with
      (fun s0 pos0 caps0 (k : string -> nat -> captures -> option Match) =>
         if (pos0 =? 0)%nat
         then run ic r s0 pos0 caps0 k else None);
    cbn beta; destruct (Nat.eqb_spec pos 0); try lia; [done|].
  apply IH. lia.
Qed.

(** A pattern that begins with [^] is tried at the start of the text
    only. *)
Lemma test_anchored r ic s :
  test (CollectValues.anchored r ic) s = true
  <-> is_Some (run ic r s 0 []
                 (fun _ e caps =>
                    Some (mkMatch 0 (JS.substring0 s (e - 0)) caps e))).
Proof.
  unfold test. rewrite bool_decide_eq_true, WordFacts.search_unfold.
  rewrite is_Some_orElse.
  assert (Hrest : ~ is_Some match s with
                            | String _ s' =>
                                search (CollectValues.anchored r ic) s' 1
                            | EmptyString => None
                            end).
  { destruct s; [by intros [? ?]|].
    rewrite search_anchored by lia. by intros [? ?]. }
  unfold matchAt, CollectValues.anchored in *. cbn [source ignoreCase] in *.
  change (run ic (Cat Start r) s 0%nat []
            (fun _ e caps =>
               Some (mkMatch 0 (JS.substring0 s (e - 0)) caps e)))
    with (run ic r s 0%nat []
            (fun _ e caps =>
               Some (mkMatch 0 (JS.substring0 s (e - 0)) caps e))).
  tauto.
Qed.

Lemma test_anchored_word w s :
  allChars foldsLikeLower w = true ->
  test (CollectValues.anchored (Lit w) true) s
  = JS.startsWith (JS.toLowerCase s) w.
Proof.
  intros Hw. apply Bool.eq_iff_eq_true.
  rewrite test_anchored, WordFacts.run_word by done.
  destruct (JS.startsWith (JS.toLowerCase s) w); split;
    first [done | by intros [? ?] | by eexists].
Qed.

Lemma toLowerCase_substringFrom s : forall n,
  JS.toLowerCase (JS.substringFrom s n)
  = JS.substringFrom (JS.toLowerCase s) n.
Proof.
  induction s as [|a s IH]; intros [|n]; try done. simpl. apply IH.
Qed.

Lemma startsWith_split a b : forall s,
  JS.startsWith s (a +:+ b)
  = JS.startsWith s a && JS.startsWith (JS.substringFrom s (String.length a)) b.
Proof.
  induction a as [|x a IH]; intros s.
  - rewrite StringFacts.startsWith_nil. by destruct s.
  - rewrite StringFacts.append_cons. destruct s as [|y s]; [done|].
    rewrite !StringFacts.startsWith_cons.
    destruct (Ascii.eqb x y); [|done]. apply IH.
Qed.

(** [/^https?:\/\//i] *)
Lemma test_http s :
  test (CollectValues.anchored
          (Cat (Lit "http") (Cat (Opt (Chr "s")) (Lit "://"))) true) s = true ->
  JS.startsWith (JS.toLowerCase s) "https://" = true \/
  JS.startsWith (JS.toLowerCase s) "http://" = true.
Proof.
  rewrite test_anchored.
  set (k := fun (_ : string) (e : nat) (caps : captures) =>
              Some (mkMatch 0 (JS.substring0 s (e - 0)) caps e)).
  change (run true (Cat (Lit "http") (Cat (Opt (Chr "s")) (Lit "://")))
            s 0%nat [] k)
    with (run true (Lit "http") s 0%nat []
            (fun s1 p1 c1 =>
               match run true (Chr "s") s1 p1 c1
                       (fun s2 p2 c2 => run true (Lit "://") s2 p2 c2 k) with
               | Some x => Some x
               | None => run true (Lit "://") s1 p1 c1 k
               end)).
  rewrite WordFacts.run_word by done.
  destruct (JS.startsWith (JS.toLowerCase s) "http") eqn:Hhttp;
    [|by intros [? ?]].
  rewrite is_Some_orElse.
  change "https://" with ("http" +:+ "s://").
  change "http://" with ("http" +:+ "://").
  rewrite !startsWith_split, Hhttp, <- !toLowerCase_substringFrom.
  change (String.length "http") with 4%nat.
  generalize (JS.substringFrom s 4). intros rest.
  change "s://" with ("s" +:+ "://").
  rewrite startsWith_split, <- toLowerCase_substringFrom.
  change (Chr "s") with (Lit "s").
  rewrite WordFacts.run_word, !WordFacts.run_word by done.
  destruct (JS.startsWith (JS.toLowerCase rest) "s");
    destruct (JS.startsWith (JS.toLowerCase (JS.substringFrom rest _)) "://");
    destruct (JS.startsWith (JS.toLowerCase rest) "://");
    simpl; intros [[? ?]|[? ?]]; try done; auto.
Qed.

(** [/^\/[^/]/] *)
Lemma test_absolute s :
  test (CollectValues.anchored
          (Cat (Chr "/") (Cls (fun c => negb (Ascii.eqb c "/")))) false) s
    = true ->
  JS.startsWith (JS.toLowerCase s) "/" = true.
Proof.
  rewrite test_anchored. destruct s as [|a s]; [by intros [? ?]|].
  cbn [run canonicalize].
  destruct (Ascii.eqb_spec a "/") as [->|]; [done|by intros [? ?]].
Qed.

(** [/^\.\.?\//] *)
Lemma test_relative s :
  test (CollectValues.anchored
          (Cat (Chr ".") (Cat (Opt (Chr ".")) (Chr "/"))) false) s = true ->
  JS.startsWith (JS.toLowerCase s) "./" = true \/
  JS.startsWith (JS.toLowerCase s) "../" = true.
Proof.
  rewrite test_anchored. destruct s as [|a s]; [by intros [? ?]|].
  cbn [run canonicalize].
  destruct (Ascii.eqb_spec a ".") as [->|]; [|by intros [? ?]].
  rewrite is_Some_orElse. intros [H|H].
  - right. destruct s as [|b s]; [by destruct H|].
    destruct (Ascii.eqb_spec b ".") as [->|]; [|by destruct H].
    destruct s as [|c s]; [by destruct H|].
    destruct (Ascii.eqb_spec c "/") as [->|]; [done|by destruct H].
  - left. destruct s as [|b s]; [by destruct H|].
    destruct (Ascii.eqb_spec b "/") as [->|]; [done|by destruct H].
Qed.

Lemma lowerClosedClass_spec p a :
  lowerClosedClass p = true -> p a = true -> p (JS.lowerChar a) = true.
Proof.
  unfold lowerClosedClass. rewrite forallb_forall. intros H.
  specialize (H (nat_of_ascii a)). rewrite ascii_nat_embedding in H.
  intros Hp. rewrite Hp in H. apply H, in_seq.
  pose proof (nat_ascii_bounded a). lia.
Qed.

Section Simulation.
Context {A B : Type}.

Lemma starGreedy_lower p (k : string -> nat -> option A)
    (k' : string -> nat -> option B) :
  lowerClosedClass p = true ->
  (forall s1 p1, is_Some (k s1 p1) -> is_Some (k' (JS.toLowerCase s1) p1)) ->
  forall s pos,
    is_Some (starGreedy p s pos k) ->
    is_Some (starGreedy p (JS.toLowerCase s) pos k').
Proof.
  intros Hp Hk. induction s as [|a s IH]; intros pos; [apply (Hk "")|].
  cbn [starGreedy JS.toLowerCase].
  destruct (p a) eqn:Ha.
  - rewrite (lowerClosedClass_spec p a Hp Ha), !is_Some_orElse.
    intros [H|H]; [left; by apply IH|right; by apply (Hk (String a s))].
  - intros H%(Hk (String a s)). cbn [JS.toLowerCase] in H.
    destruct (p (JS.lowerChar a)); [|done].
    apply is_Some_orElse. by right.
Qed.

Lemma starLazy_lower p (k : string -> nat -> option A)
    (k' : string -> nat -> option B) :
  lowerClosedClass p = true ->
  (forall s1 p1, is_Some (k s1 p1) -> is_Some (k' (JS.toLowerCase s1) p1)) ->
  forall s pos,
    is_Some (starLazy p s pos k) ->
    is_Some (starLazy p (JS.toLowerCase s) pos k').
Proof.
  intros Hp Hk. induction s as [|a s IH]; intros pos.
  - cbn [starLazy JS.toLowerCase]. rewrite !is_Some_orElse.
    intros [H|[? ?]]; [|done]. left. by apply (Hk "").
  - cbn [starLazy JS.toLowerCase]. rewrite !is_Some_orElse.
    intros [H|H]; [left; by apply (Hk (String a s))|].
    right. destruct (p a) eqn:Ha; [|by destruct H].
    rewrite (lowerClosedClass_spec p a Hp Ha). by apply IH.
Qed.

End Simulation.

(** A match of a pattern that is closed under lower-casing is a match on
    the lower-cased text. *)
Lemma run_lower {A B} r :
  lowerClosed r = true ->
  forall (k : string -> nat -> captures -> option A)
         (k' : string -> nat -> captures -> option B),
    (forall s1 p1 c1 c1',
       is_Some (k s1 p1 c1) -> is_Some (k' (JS.toLowerCase s1) p1 c1')) ->
    forall s pos caps caps',
      is_Some (run false r s pos caps k) ->
      is_Some (run false r (JS.toLowerCase s) pos caps' k').
Proof.
  revert A B.
  induction r as [| |c|p|r1 IH1 r2 IH2|r1 IH1 r2 IH2|r1 IH1|p|p|p|n r1 IH1];
    intros A B Hr k k' Hk s pos caps caps'; cbn [lowerClosed] in Hr.
  - apply Hk.
  - cbn [run]. destruct (pos =? 0)%nat; [apply Hk|by intros [? ?]].
  - destruct s as [|a s]; [by intros [? ?]|]. cbn [run canonicalize JS.toLowerCase].
    destruct (Ascii.eqb_spec a c) as [->|]; [|by intros [? ?]].
    rewrite Hr. apply Hk.
  - destruct s as [|a s]; [by intros [? ?]|]. cbn [run JS.toLowerCase].
    destruct (p a) eqn:Ha; [|by intros [? ?]].
    rewrite (lowerClosedClass_spec p a Hr Ha). apply Hk.
  - apply andb_true_iff in Hr as [Hr1 Hr2]. cbn [run].
    apply (IH1 _ _ Hr1). intros s1 p1 c1 c1'. by apply (IH2 _ _ Hr2).
  - apply andb_true_iff in Hr as [Hr1 Hr2]. cbn [run].
    rewrite !is_Some_orElse.
    intros [H|H]; [left; by eapply (IH1 _ _ Hr1)|right; by eapply (IH2 _ _ Hr2)].
  - cbn [run]. rewrite !is_Some_orElse.
    intros [H|H]; [left; by eapply (IH1 _ _ Hr)|right; by eapply Hk].
  - cbn [run]. apply starGreedy_lower; [done|]. intros s1 p1. apply Hk.
  - destruct s as [|a s]; [by intros [? ?]|]. cbn [run JS.toLowerCase].
    destruct (p a) eqn:Ha; [|by intros [? ?]].
    rewrite (lowerClosedClass_spec p a Hr Ha).
    apply starGreedy_lower; [done|]. intros s1 p1. apply Hk.
  - cbn [run]. apply starLazy_lower; [done|]. intros s1 p1. apply Hk.
  - cbn [run]. apply (IH1 _ _ Hr). intros s1 p1 c1 c1'. apply Hk.
Qed.

Lemma test_lower r s :
  lowerClosed r = true ->
  test (CollectValues.anchored r false) s = true ->
  test (CollectValues.anchored r false) (JS.toLowerCase s) = true.
Proof.
  intros Hr. rewrite !test_anchored. apply run_lower; [done|].
  intros. by eexists.
Qed.

Lemma isUrlLike_typed t :
  existsb (fun pattern => test pattern t) CollectValues.urlPatterns = true ->
  let l := JS.toLowerCase t in
  JS.startsWith l "https://" = true \/ JS.startsWith l "http://" = true \/
  JS.startsWith l "ftp://" = true \/ JS.startsWith l "ftps://" = true \/
  JS.startsWith l "file://" = true \/ JS.startsWith l "mailto:" = true \/
  JS.startsWith l "tel:" = true \/ JS.startsWith l "data:" = true \/
  JS.startsWith l "/" = true \/ JS.startsWith l "./" = true \/
  JS.startsWith l "../" = true \/
  test CollectValues.DOMAIN_PATTERN l = true.
Proof.
  unfold CollectValues.urlPatterns. cbn [existsb]. cbn zeta.
  rewrite !test_anchored_word by done. rewrite orb_false_r, !orb_true_iff.
  intros [H|[H|[H|[H|[H|[H|[H|[H|[H|H]]]]]]]]]; try tauto.
  - apply test_http in H. tauto.
  - apply test_absolute in H. tauto.
  - apply test_relative in H. tauto.
  - apply test_lower in H; [tauto|done].
Qed.

End ShapeFacts.

(** X21 — a string that is URL-like has a type.  Every string [isUrlLike]
    accepts is given one of the eleven types by [classifyUrlType], never
    [unknown]; so no token of the three collectors has the type
    [unknown]. *)
Theorem url_like_strings_have_a_type (s : string) :
  CollectValues.isUrlLike s = true ->
  CollectValues.classifyUrlType s <> "unknown" /\
  forall (obj : Value) (items : list string)
         (entries : list (string * Value)) (ctx : string),
    Forall (Forall (fun u => type u <> Some "unknown"))
      [ CollectValues.collectUrls obj ctx;
        CollectValues.collectUrlsFromArray items ctx;
        CollectValues.collectUrlsFromKeyValue entries ctx ].
Proof.
  assert (Htyped : forall v, CollectValues.isUrlLike v = true ->
            CollectValues.classifyUrlType v <> "unknown").
  { clear s. intros s. unfold CollectValues.isUrlLike. cbn zeta.
    destruct (JS.length s =? 0)%nat; [done|].
    destruct (JS.length (JS.trim s) =? 0)%nat; [done|].
    intros H%ShapeFacts.isUrlLike_typed. cbn zeta in H.
    unfold CollectValues.classifyUrlType. cbn zeta.
    repeat match goal with
           | |- context [if ?b then _ else _] => destruct b eqn:?; [done|]
           end.
    repeat match goal with
           | H : (_ || _) = false |- _ => apply orb_false_iff in H as [? ?]
           end.
    intuition congruence. }
  intros Hs. split; [by apply Htyped|].
  intros obj items entries ctx.
  assert (Hall : forall tokens,
            Forall (fun u => CollectValues.isUrlLike (value u) = true /\
                             classifiedByValue u) tokens ->
            Forall (fun u => type u <> Some "unknown") tokens).
  { intros tokens Htokens. eapply Forall_impl; [exact Htokens|].
    intros u (Hlike & _ & Htype).
    rewrite Htype. intros [= Heq]. by apply (Htyped (value u)). }
  repeat constructor; apply Hall.
  - apply CollectFacts.collectUrls_classified.
  - apply CollectFacts.collectUrlsFromArrayAt_classified.
  - apply CollectFacts.collectUrlsFromKeyValue_classified.
Qed.

(** X21 at a host name written with capital letters and blanks around
    it. *)
Lemma url_like_strings_have_a_type_witness :
  CollectValues.classifyUrlType "  Example.COM/page " <> "unknown".
Proof.
  apply (url_like_strings_have_a_type "  Example.COM/page ").
  vm_compute. reflexivity.
Defined.
